(* ===== verification/_CoqProject ===== *)
-Q . S2P
Prelude.v
Stream.v
Phases.v
TrainRate.v
Stop.v
Verify.v
Dash.v
Timing.v
Profile.v
GPUMonitor.v
Integration.v
Activation.v
DashBus.v
