(* ===== verification/Prelude.v ===== *)
(** * A verification development for milabench's instruments

    The program is [src/milabench/instruments.py]: the instruments that
    milabench attaches to a benchmark through the [voir] instrumentation
    library.  An instrument is a Python generator that yields at phases of
    the host program ([ov.phases.parse_args], [init], [load_script],
    [run_script], [finalize]); between yields it subscribes pipelines of
    stream operators to [ov.given], the bus of every dictionary given by
    the host and by other instruments, and gives new dictionaries back.
    [voir] itself is not under [src/]: its lifecycle and its operators are
    modelled from the spec (sections 4.2 and 4.4) and marked
    spec_modelled in the manifest.

    ** Files, in dependency order

    - [Prelude] (this file): Python values on the bus ([Value]), given
      dictionaries ([Event], association lists in insertion order), Python
      exceptions and the exception monad [res], [len], truthiness, [repr]
      and [str] (of strings, numbers' text as a placeholder, lists and
      tuples), [<] (numbers, and strings by code point; comparisons of
      lists, tuples and tensors are not modelled), nanoseconds to seconds, the shared list/Q/Z lemmas, the hint
      database [mb] and the tactic [res_inv].
    - [Stream]: the voir/giving operators the instruments compose
      ([filter], [map], [getitem], [pairwise], [skip], [map_indexed],
      [roll], [average(scan=N)], [first], [last], [first_or_default],
      [is_empty], merge [|], [throttle], [buffer_with_time], rx's error
      termination [op_res], with [run_res_until]: a chain runs up to the
      first error, hands it on, and ends).  Each is a Mealy machine ([Op]: a state, a
      step per event, a close at bus teardown); [pipe] composes them, and
      [run_open_pipe]/[run_closed_pipe] show that a pipeline runs its
      stages in sequence.  Each operator is proved equal to a list-level
      reference ([run_roll], [run_pairwise], [run_buffer_concat], ...).
    - [Phases]: the lifecycle ([advance], InvalidTransition after [Done]),
      the resumption order (a stable sort by priority, [sort_prio]) and
      the [yield]s of every instrument of the source, one definition per
      instrument ([dash_yields], ..., [profile_yields]), dispatched by
      [instrument_yields].  Theorems: every instrument is resumed exactly
      at its yields ([resumed_at_yields], by an invariant along
      [advance_n]); [stop] resumes first at [load_script].
    - [TrainRate] ([train_rate], lines 114-152): the subscriber on a
      window ([train_rate_window]) and the instrument as one closure-state
      machine ([train_rate_op]) over a clocked bus ([TIn]: events and
      timer ticks), and the composed chain [times_pipeline] ([where |
      kmap | pairwise | buffer_with_time] under rx's error termination).
      Theorems: the machine refines the chain and its subscriber on every
      bus where [use_cuda] is never true, the [TypeError] of a batch
      without a length included (a step-by-step simulation,
      [tr_step_sim]); the windows carry the adjacent pairs of the step
      records before the first error, in order; a given rate is
      positive.
    - [Stop] ([stop], 92-111): progress gives and the single-fire
      [_stop].  Theorems: one signal exactly at the (N+1)-st train rate;
      with the re-entrant train rate that [ov.stop] gives, the fuelled run
      [run_reentrant] terminates and still signals once.
    - [Verify] ([verify], 250-281): the checks, merged in subscription
      order and run to teardown.
    - [Dash] ([dash]'s [update_with], 59-83): the [rows] dict as a stdpp
      [gmap] and the table's key list; the well-formedness invariant and
      what each update shows.
    - [Timing] ([loading_rate] and [compute_rate], 155-220): the
      [_timing] probes on spans [(t0, t1, results)], the loader
      classification and both chains.  Theorems include the TypeError
      that ends [compute_rate] after a span without a batch.
    - [Profile] ([profile], 334-360): option dispatch (the default
      [--profile] is the empty string, which raises) and the per-span
      pipeline, in which each profiler is an oracle function of the span
      (the profilers are external libraries).
    - [GPUMonitor] ([GPUMonitor], [profile_gpu], 223-247): the two
      threads as a labelled transition system [gstep] over their
      interleavings ([reach]), with an executable [step] proved equal to
      it.  Theorems by rule induction ([reach_inv]): a give can follow
      [stop()], at most one does, samples are [delay] apart, a failed poll
      ends the monitor, the monitor gives again while running (liveness),
      and [profile_gpu]'s 100-second delay bounds the samples.
    - [Integration] ([dash]'s [ov.send = update_with], 85-86, and
      [verify]'s [>> ov.send], 258-279): the typeclass [Sink] with its
      laws [SinkLaws] is the contract of [ov.send]; the client theorem
      about [verify]'s reports is proved against the class, and [dash]'s
      [update_with] is proved to be an instance ([dash_sink_laws]).  A
      check whose [<] raised stops the delivery with its exception (the
      [>> ov.send] subscription has no [on_error]); with numeric losses
      none does ([verify_op_no_raise]).
    - [Activation] (the [@gated]/[@parametrized] decorators, [profile]'s
      body before its first yield, 340-350, and [verify]'s [ov.require],
      253-256): activation of the loaded instruments ([start]) and the
      lifecycle in which resumed instruments make their [ov.require]
      calls ([advance_req]).  Theorems, by an invariant over all active
      instruments ([lc_inv]): an active [verify] gets its four
      dependencies resumed at each of their yields exactly once; nothing
      else gated off is ever resumed; the default [--profile] aborts the
      activation.
    - [DashBus] ([dash]'s subscriptions, 52-56 and 85): the [roll(10)]
      echo of [#stdout]/[#stderr] and [where("!silent")], delivered in
      subscription order, the echo re-entering the bus ([dash_give], with
      fuel).  A [Proper] instance shows a delivery depends on the nested
      give only through the echo; theorems: two levels always suffice,
      the [stdout] row after any captured lines, and a [silent]
      dictionary changes that row only.

    ** Numbers, bounds and fuel

    Times are Python [time.time_ns()] integers, kept as [Z] nanoseconds.
    Rates are Python floats [n / (t / 1e9)], modelled as exact rationals
    [Q]: the theorems state the value the float approximates (rounding is
    not modelled).  [run_reentrant] is given [length l + 2] fuel: each
    delivered event costs one unit and the stop instrument can add one
    event (its signal echoes once), which [stop_budget] accounts for; the
    theorem proves the run finishes with that fuel.  The lifecycle is run
    with [advance_n 6] (and [advance_req_n 6]): six phases, then
    InvalidTransition.  [dash_give] needs two levels of fuel: one for the
    given dictionary and one for the echo it causes, whose only key,
    [stdout], is not read by either roll ([dash_give_terminates] proves
    that more fuel changes nothing).

    ** Not modelled

    Terminal rendering (rich's Live, Console, ProgressBar, Plain's
    [__rich__], lines 22-23, 44-50 and 88-89), the [display] instrument
    (lines 12-14, [ov.given.display()] only prints), [profile]'s final
    print (356-360), the profilers themselves (torch, deepspeed, 284-331:
    calls into external libraries), GPUtil's telemetry (an oracle of the
    monitor model) and argument parsing: external collaborators of the
    spec's section 6 or pure output.  [voir]'s capture of stdout and
    stderr, which gives the [#stdout]/[#stderr] lines, is taken as the
    input of [DashBus]. *)

From stdpp Require Export base list strings pretty sets.
From Stdlib Require Export ZArith QArith Lqa.

Declare Scope mb_scope.
Delimit Scope mb_scope with mb.
Open Scope mb_scope.

Create HintDb mb.

(** ** Python values and given dictionaries *)

(** A value given on the bus.  [VTensor n] is a batch-like object (a torch
    tensor) whose [len] is [n]; [VObj c] is an opaque object of class [c]. *)
Inductive Value :=
| VNone
| VBool (b : bool)
| VInt (z : Z)
| VNum (q : Q)
| VStr (s : string)
| VTensor (n : nat)
| VList (l : list Value)
| VTuple (l : list Value)
| VObj (cls : string).

(** A dictionary given on the bus ([ov.give(k=v, ...)]), in insertion
    order, as Python dicts iterate. *)
Abbreviation Event := (list (string * Value)).

Fixpoint dict_get (k : string) (d : Event) : option Value :=
  match d with
  | [] => None
  | (k', v) :: d' => if String.eqb k k' then Some v else dict_get k d'
  end.

Definition dict_has (k : string) (d : Event) : bool :=
  match dict_get k d with Some _ => true | None => false end.

(** ** Python exceptions *)

Inductive exc :=
| TypeError (what : string)
| IndexError
| ZeroDivisionError
| NotImplementedError (msg : string)
| ValueError (msg : string)
| AttributeError (msg : string).

Inductive res (A : Type) := Ok (a : A) | Raise (e : exc).
Arguments Ok {A} a.
Arguments Raise {A} e.

#[export] Instance res_ret : MRet res := @Ok.
#[export] Instance res_bind : MBind res := λ A B f m,
  match m with Ok a => f a | Raise e => Raise e end.
#[export] Instance res_fmap : FMap res := λ A B f m,
  match m with Ok a => Ok (f a) | Raise e => Raise e end.

(** [len(v)]: the objects that have a length, and TypeError otherwise. *)
Definition py_len (v : Value) : res nat :=
  match v with
  | VTensor n => Ok n
  | VList l | VTuple l => Ok (length l)
  | VStr s => Ok (String.length s)
  | _ => Raise (TypeError "object has no len()")
  end.

(** [bool(v)] for the values the instruments test. *)
Definition py_truthy (v : Value) : bool :=
  match v with
  | VNone => false
  | VBool b => b
  | VInt z => negb (Z.eqb z 0)
  | VNum q => negb (Qeq_bool q 0)
  | VStr s => negb (String.eqb s "")
  | VTensor n => negb (Nat.eqb n 0)
  | VList l | VTuple l => negb (Nat.eqb (length l) 0)
  | VObj _ => true
  end.

(** [repr(v)]: strings quoted, lists and tuples with the [repr] of their
    items.  The text of a float and of a tensor is not modelled
    (["<value>"]). *)
Fixpoint py_repr (v : Value) : string :=
  match v with
  | VNone => "None"
  | VBool true => "True"
  | VBool false => "False"
  | VInt z => pretty z
  | VStr s => "'" +:+ s +:+ "'"
  | VList l => "[" +:+ String.concat ", " (map py_repr l) +:+ "]"
  | VTuple [x] => "(" +:+ py_repr x +:+ ",)"
  | VTuple l => "(" +:+ String.concat ", " (map py_repr l) +:+ ")"
  | VObj c => "<" +:+ c +:+ ">"
  | VNum _ | VTensor _ => "<value>"
  end.

(** [str(v)], as f-strings format it: a string is itself, the other
    values are their [repr]. *)
Definition py_str (v : Value) : string :=
  match v with
  | VStr s => s
  | _ => py_repr v
  end.

#[export] Instance Qlt_decision (x y : Q) : Decision (x < y)%Q :=
  match Qlt_le_dec x y with left H => left H | right H => right (Qle_not_lt y x H) end.

(** The numbers that Python's [<] compares. *)
Definition py_num (v : Value) : option Q :=
  match v with
  | VInt z => Some (inject_Z z)
  | VNum q => Some q
  | VBool b => Some (if b then 1 else 0)
  | _ => None
  end.

(** [a < b]: on numbers, on strings (by code point), and TypeError
    otherwise.  Lists, tuples and tensors, which Python also compares,
    are not modelled: the losses [verify] compares are numbers. *)
Definition py_lt (a b : Value) : res bool :=
  match a, b with
  | VStr s, VStr t => Ok (String.ltb s t)
  | _, _ =>
      match py_num a, py_num b with
      | Some x, Some y => Ok (negb (Qle_bool y x))
      | _, _ => Raise (TypeError "'<' not supported")
      end
  end.

(** [t / 1_000_000_000]: nanoseconds to seconds. *)
Definition ns_to_sec (t : Z) : Q := inject_Z t / inject_Z (10 ^ 9).

(** ** Sums *)

Definition Zsum (l : list Z) : Z := foldr Z.add 0%Z l.
Definition Qsum (l : list Q) : Q := foldr Qplus 0 l.

(** ** Shared lemmas *)

Lemma Zsum_app (l1 l2 : list Z) : Zsum (l1 ++ l2) = (Zsum l1 + Zsum l2)%Z.
Proof. induction l1; simpl; [done | unfold Zsum in *; simpl; lia]. Qed.

Lemma Zsum_nonneg (l : list Z) : Forall (λ z, 0 <= z)%Z l -> (0 <= Zsum l)%Z.
Proof. induction 1; unfold Zsum in *; simpl; lia. Qed.

Lemma Qsum_app (l1 l2 : list Q) : Qsum (l1 ++ l2) == Qsum l1 + Qsum l2.
Proof. induction l1 as [|a l IH]; simpl; [ring | unfold Qsum in *; simpl; rewrite IH; ring]. Qed.

Lemma dict_get_has k d : dict_has k d = true <-> ∃ v, dict_get k d = Some v.
Proof. unfold dict_has. destruct (dict_get k d); split; intros; naive_solver. Qed.

Lemma dict_get_In k v d : dict_get k d = Some v -> In (k, v) d.
Proof.
  induction d as [|[k' v'] d IH]; simpl; [done|].
  destruct (String.eqb_spec k k'); intros H; [simplify_eq; auto | auto].
Qed.

Lemma ns_to_sec_0 : ns_to_sec 0 == 0.
Proof. reflexivity. Qed.

Lemma ns_to_sec_pos t : (0 < t)%Z -> 0 < ns_to_sec t.
Proof.
  intros H. unfold ns_to_sec, Qdiv. apply Qmult_lt_0_compat; [|reflexivity].
  change 0 with (inject_Z 0). rewrite <- Zlt_Qlt. done.
Qed.

Lemma ns_to_sec_eq0 t : ns_to_sec t == 0 <-> t = 0%Z.
Proof.
  unfold ns_to_sec, Qeq. simpl. lia.
Qed.

Lemma filter_none {A} (P : A -> Prop) `{∀ x, Decision (P x)} (l : list A) :
  (∀ y, y ∈ l -> ¬ P y) -> filter P l = [].
Proof.
  induction l as [|x l IH]; intros Hl; [done|]. rewrite filter_cons.
  rewrite decide_False by (apply Hl; set_solver). apply IH. set_solver.
Qed.

Lemma filter_all {A} (P : A -> Prop) `{∀ x, Decision (P x)} (l : list A) :
  (∀ y, y ∈ l -> P y) -> filter P l = l.
Proof.
  induction l as [|x l IH]; intros Hl; [done|]. rewrite filter_cons.
  rewrite decide_True by (apply Hl; set_solver). f_equal. apply IH. set_solver.
Qed.

Lemma map_imap {A B C} (g : B -> C) (f : nat -> A -> B) (l : list A) :
  map g (imap f l) = imap (λ i x, g (f i x)) l.
Proof. revert f. induction l as [|x l IH]; intros f; [done|]. simpl. by rewrite IH. Qed.

Lemma fmap_as_map {A B} (f : A -> B) (l : list A) : f <$> l = map f l.
Proof. induction l; simpl; by f_equal. Qed.


Lemma filter_sublist_mono {A} (P : A -> Prop) `{∀ x, Decision (P x)} (l1 l2 : list A) :
  l1 `sublist_of` l2 -> filter P l1 `sublist_of` filter P l2.
Proof.
  induction 1 as [|x l1 l2 _ IH|x l1 l2 _ IH]; [done| |]; rewrite !filter_cons.
  - case_decide; [by apply sublist_skip|done].
  - case_decide; [by apply sublist_cons|done].
Qed.

Lemma py_lt_num (x y : Q) : py_lt (VNum x) (VNum y) = Ok (bool_decide (x < y)%Q).
Proof.
  unfold py_lt. simpl. f_equal. destruct (Qle_bool y x) eqn:E.
  - apply Qle_bool_iff in E. symmetry. apply bool_decide_eq_false. intros H. apply (Qlt_not_le x y H E).
  - symmetry. apply bool_decide_eq_true. apply Qnot_le_lt. intros H. apply Qle_bool_iff in H. congruence.
Qed.

#[export] Hint Resolve dict_get_In : mb.
#[export] Hint Rewrite Zsum_app : mb.

(** [res_inv] clears the equalities between [Ok]/[Raise] results. *)
Ltac res_inv :=
  repeat match goal with
  | H : Ok _ = Ok _ |- _ => injection H as H
  | H : Ok _ = Raise _ |- _ => discriminate H
  | H : Raise _ = Ok _ |- _ => discriminate H
  | H : Raise _ = Raise _ |- _ => injection H as H
  end; subst.
