(* ===== verification/Stream.v ===== *)
(** * Stream operators of voir/giving as Mealy machines

    The instruments build their derived metrics by chaining the operators
    of the [giving] library over [ov.given].  That library is not under
    [src/]; its operators are modelled from the spec (section 4.4).  An
    operator is an [Op]: a state, a [step] that consumes one event and emits
    zero or more events, and a [close] that emits what the operator still
    owes when the bus is torn down (section 4.4: [last()] resolves only at
    teardown).  [pipe] chains two operators the way a subscription chains
    them, and [run_pipe] shows the chain computes the composition. *)

From S2P Require Import Prelude.
Local Open Scope nat_scope.

Record Op (I O : Type) := MkOp {
  op_state : Type;
  op_init : op_state;
  op_step : op_state -> I -> op_state * list O;
  op_close : op_state -> list O
}.
Arguments MkOp {I O op_state} op_init op_step op_close.
Arguments op_state {I O} o.
Arguments op_init {I O} o.
Arguments op_step {I O} o _ _.
Arguments op_close {I O} o _.

Section Run.
Context {I O : Type} (o : Op I O).

(** Deliver the events of [l], in order, from state [s]. *)
Fixpoint feed (s : op_state o) (l : list I) : op_state o * list O :=
  match l with
  | [] => (s, [])
  | x :: l' =>
      let '(s1, ys) := op_step o s x in
      let '(s2, zs) := feed s1 l' in
      (s2, ys ++ zs)
  end.

(** What a live subscription has emitted after the events [l]. *)
Definition run_open (l : list I) : list O := (feed (op_init o) l).2.

(** What it has emitted once the bus is torn down after [l]. *)
Definition run_closed (l : list I) : list O :=
  let '(s, ys) := feed (op_init o) l in ys ++ op_close o s.

Lemma feed_cons s x l :
  feed s (x :: l) =
    ((feed (op_step o s x).1 l).1, (op_step o s x).2 ++ (feed (op_step o s x).1 l).2).
Proof. simpl. destruct (op_step o s x) as [s1 ys]. simpl. by destruct (feed s1 l). Qed.

Lemma feed_app s l1 l2 :
  feed s (l1 ++ l2) =
    ((feed (feed s l1).1 l2).1, (feed s l1).2 ++ (feed (feed s l1).1 l2).2).
Proof.
  revert s. induction l1 as [|x l1 IH]; intros s; simpl.
  - by destruct (feed s l2).
  - destruct (op_step o s x) as [s1 ys]. rewrite IH.
    destruct (feed s1 l1) as [s2 zs]; simpl. by rewrite (assoc_L app).
Qed.
End Run.

(** ** Composition *)

Definition pipe {A B C} (o1 : Op A B) (o2 : Op B C) : Op A C :=
  MkOp (op_state := op_state o1 * op_state o2) (op_init o1, op_init o2)
    (λ '(s1, s2) x,
      let '(s1', ys) := op_step o1 s1 x in
      let '(s2', zs) := feed o2 s2 ys in ((s1', s2'), zs))
    (λ '(s1, s2),
      let '(s2', zs) := feed o2 s2 (op_close o1 s1) in zs ++ op_close o2 s2').

Infix "|>" := pipe (at level 40, left associativity) : mb_scope.

Lemma feed_pipe {A B C} (o1 : Op A B) (o2 : Op B C) s1 s2 l :
  feed (o1 |> o2) (s1, s2) l =
    (((feed o1 s1 l).1, (feed o2 s2 (feed o1 s1 l).2).1),
     (feed o2 s2 (feed o1 s1 l).2).2).
Proof.
  revert s1 s2. induction l as [|x l IH]; intros s1 s2; simpl; [done|].
  destruct (op_step o1 s1 x) as [s1' ys] eqn:E1.
  destruct (feed o2 s2 ys) as [s2' zs] eqn:E2. rewrite IH.
  destruct (feed o1 s1' l) as [s1'' ys'] eqn:E3; simpl.
  rewrite feed_app, E2; simpl. by destruct (feed o2 s2' ys').
Qed.

(** Running a pipeline is running its second stage on the output of its
    first stage, for live subscriptions and after teardown. *)
Lemma run_open_pipe {A B C} (o1 : Op A B) (o2 : Op B C) l :
  run_open (o1 |> o2) l = run_open o2 (run_open o1 l).
Proof. unfold run_open. simpl. by rewrite feed_pipe. Qed.

Lemma run_closed_pipe {A B C} (o1 : Op A B) (o2 : Op B C) l :
  run_closed (o1 |> o2) l = run_closed o2 (run_closed o1 l).
Proof.
  unfold run_closed. simpl. rewrite feed_pipe.
  destruct (feed o1 (op_init o1) l) as [s1 ys]; simpl.
  rewrite feed_app. destruct (feed o2 (op_init o2) ys) as [s2 zs]; simpl.
  destruct (feed o2 s2 (op_close o1 s1)). by rewrite (assoc_L app).
Qed.

#[export] Hint Rewrite @run_open_pipe @run_closed_pipe : mb.

(** ** Stateless operators *)

(** An operator without state, emitting [g x] for each event [x]. *)
Definition op_flat {A B} (g : A -> list B) : Op A B :=
  MkOp (op_state := unit) tt (λ _ x, (tt, g x)) (λ _, []).

Definition op_map {A B} (f : A -> B) : Op A B := op_flat (λ x, [f x]).

Definition op_filter {A} (p : A -> bool) : Op A A :=
  op_flat (λ x, if p x then [x] else []).

(** [filter_map]: the operators that both select and project, such as
    [where(k)] followed by [k] lookup ([ov.given["?k"]]). *)
Definition op_filter_map {A B} (f : A -> option B) : Op A B :=
  op_flat (λ x, match f x with Some y => [y] | None => [] end).

Lemma feed_flat {A B} (g : A -> list B) s l :
  feed (op_flat g) s l = (tt, l ≫= g).
Proof.
  revert s. induction l as [|x l IH]; intros []; [done|]. simpl. by rewrite IH.
Qed.

Lemma run_flat {A B} (g : A -> list B) l :
  run_open (op_flat g) l = l ≫= g /\ run_closed (op_flat g) l = l ≫= g.
Proof. unfold run_open, run_closed. rewrite feed_flat. simpl. by rewrite app_nil_r. Qed.

Lemma run_op_map {A B} (f : A -> B) l : run_open (op_map f) l = map f l.
Proof.
  unfold op_map. rewrite (proj1 (run_flat _ _)). induction l; [done|]. rewrite bind_cons. simpl. by f_equal.
Qed.

Lemma run_op_filter {A} (p : A -> bool) l : run_open (op_filter p) l = filter p l.
Proof.
  unfold op_filter. rewrite (proj1 (run_flat _ _)). induction l as [|x l IH]; [done|].
  rewrite bind_cons, IH. unfold filter; simpl. by destruct (p x).
Qed.

Lemma run_op_filter_map {A B} (f : A -> option B) l :
  run_open (op_filter_map f) l = omap f l.
Proof.
  unfold op_filter_map. rewrite (proj1 (run_flat _ _)). induction l as [|x l IH]; [done|].
  rewrite bind_cons, IH. simpl. by destruct (f x).
Qed.

Lemma close_stateless {A B} (o : Op A B) l :
  (∀ s, op_close o s = []) -> run_closed o l = run_open o l.
Proof.
  intros H. unfold run_closed, run_open. destruct (feed o _ l). by rewrite H, app_nil_r.
Qed.

(** ** Index-based operators *)

(** [pairwise()]: [(previous, current)] for each adjacent pair. *)
Definition op_pairwise {A} : Op A (A * A) :=
  MkOp (op_state := option A) None
    (λ prev x, (Some x, match prev with Some p => [(p, x)] | None => [] end))
    (λ _, []).

(** Reference: the adjacent pairs of a list. *)
Definition pairs {A} (l : list A) : list (A * A) := zip l (tail l).

(** [skip(n)]: drop the first [n] events. *)
Definition op_skip {A} (n : nat) : Op A A :=
  MkOp (op_state := nat) 0
    (λ seen x, (S seen, if decide (n ≤ seen) then [x] else [])) (λ _, []).

(** [map_indexed(f)]: apply [f] to each event and its ordinal. *)
Definition op_map_indexed {A B} (f : A -> nat -> B) : Op A B :=
  MkOp (op_state := nat) 0 (λ idx x, (S idx, [f x idx])) (λ _, []).

Lemma feed_pairwise_some {A} (p : A) l :
  (feed op_pairwise (Some p) l).2 = pairs (p :: l).
Proof.
  revert p. induction l as [|x l IH]; intros p; [done|]. simpl.
  specialize (IH x). destruct (feed _ _ l). simpl in *. by rewrite IH.
Qed.

Lemma run_pairwise {A} (l : list A) : run_open op_pairwise l = pairs l.
Proof.
  unfold run_open. destruct l as [|x l]; [done|]. simpl.
  pose proof (feed_pairwise_some x l) as H. destruct (feed _ _ l). done.
Qed.

Lemma feed_skip {A} n k (l : list A) :
  (feed (op_skip n) k l).2 = drop (n - k) l.
Proof.
  revert k. induction l as [|x l IH]; intros k; simpl; [by rewrite drop_nil|].
  specialize (IH (S k)). destruct (feed _ _ l). simpl in *. rewrite IH.
  case_decide; [replace (n - k) with 0 by lia; replace (n - S k) with 0 by lia; done|].
  replace (n - k) with (S (n - S k)) by lia. done.
Qed.

Lemma run_skip {A} n (l : list A) : run_open (op_skip n) l = drop n l.
Proof. unfold run_open. rewrite feed_skip. by rewrite Nat.sub_0_r. Qed.

Lemma feed_map_indexed {A B} (f : A -> nat -> B) k l :
  (feed (op_map_indexed f) k l).2 = imap (λ i x, f x (k + i)) l.
Proof.
  revert k. induction l as [|x l IH]; intros k; [done|]. simpl.
  specialize (IH (S k)). destruct (feed _ _ l). simpl in *. rewrite IH, Nat.add_0_r.
  f_equal. apply imap_ext. intros i y _. simpl. by rewrite Nat.add_succ_r.
Qed.

Lemma run_map_indexed {A B} (f : A -> nat -> B) l :
  run_open (op_map_indexed f) l = imap (λ i x, f x i) l.
Proof. unfold run_open. by rewrite feed_map_indexed. Qed.

(** ** Sliding windows *)

(** The last [n] elements of a list. *)
Definition lastn {A} (n : nat) (l : list A) : list A := rev (take n (rev l)).

Definition mean (w : list Q) : Q := (Qsum w / inject_Z (Z.of_nat (length w)))%Q.

(** [roll(n)]: the window of the last [n] events, after each event. *)
Definition op_roll {A} (n : nat) : Op A (list A) :=
  MkOp (op_state := list A) []
    (λ w x, let w' := lastn n (w ++ [x]) in (w', [w'])) (λ _, []).

(** [average(scan=n)]: the mean of the window of the last [n] samples. *)
Definition op_scan_avg (n : nat) : Op Q Q :=
  MkOp (op_state := list Q) []
    (λ w x, let w' := lastn n (w ++ [x]) in (w', [mean w'])) (λ _, []).

(** Reference: after the [i]-th sample, the window of the first [i+1]. *)
Definition roll_spec {A} (n : nat) (l : list A) : list (list A) :=
  imap (λ i _, lastn n (take (S i) l)) l.

Definition scan_avg_spec (n : nat) (l : list Q) : list Q :=
  imap (λ i _, mean (lastn n (take (S i) l))) l.

Lemma lastn_snoc {A} n (l : list A) x : lastn n (lastn n l ++ [x]) = lastn n (l ++ [x]).
Proof.
  unfold lastn. rewrite !rev_app_distr, rev_involutive. simpl.
  destruct n; [done|]. simpl. rewrite take_take, Nat.min_l; [done|lia].
Qed.

Lemma fmap_lastn {A B} (f : A -> B) n l : f <$> lastn n l = lastn n (f <$> l).
Proof. unfold lastn. rewrite !fmap_as_map, map_rev, <- !fmap_as_map, fmap_take, !fmap_as_map, map_rev. done. Qed.

Lemma lastn_nil {A} n : lastn n (@nil A) = [].
Proof. by destruct n. Qed.

Lemma length_lastn {A} n (l : list A) : length (lastn n l) = min n (length l).
Proof. unfold lastn. by rewrite length_rev, length_take, length_rev. Qed.

Lemma feed_roll {A} n (w l : list A) :
  (feed (op_roll n) (lastn n w) l).2 =
    imap (λ i _, lastn n (w ++ take (S i) l)) l.
Proof.
  revert w. induction l as [|x l IH]; intros w; [done|]. simpl.
  specialize (IH (w ++ [x])). rewrite <- lastn_snoc in IH.
  destruct (feed _ _ l). simpl in *. rewrite lastn_snoc, IH. f_equal.
  apply imap_ext. intros. by rewrite <- (assoc_L app).
Qed.

Lemma run_roll {A} n (l : list A) : run_open (op_roll n) l = roll_spec n l.
Proof. unfold run_open. pose proof (feed_roll n [] l) as H. by rewrite lastn_nil in H. Qed.

(** The scanning average is the mean of the rolled window. *)
Lemma run_scan_avg n l : run_open (op_scan_avg n) l = scan_avg_spec n l.
Proof.
  enough (∀ w, (feed (op_scan_avg n) (lastn n w) l).2 =
    imap (λ i _, mean (lastn n (w ++ take (S i) l))) l).
  { pose proof (H []) as H0. by rewrite lastn_nil in H0. }
  induction l as [|x l IH]; intros w; [done|]. simpl.
  specialize (IH (w ++ [x])). rewrite <- lastn_snoc in IH.
  destruct (feed _ _ l). simpl in *. rewrite lastn_snoc, IH. f_equal.
  apply imap_ext. intros. by rewrite <- (assoc_L app).
Qed.

(** ** Reducers: resolved at the first event or at teardown *)

(** [first()]: the first event. *)
Definition op_first {A} : Op A A :=
  MkOp (op_state := bool) false
    (λ seen x, (true, if seen then [] else [x])) (λ _, []).

(** [first_or_default(d)]: the first event, or [d] at teardown. *)
Definition op_first_or_default {A} (d : A) : Op A A :=
  MkOp (op_state := bool) false
    (λ seen x, (true, if seen then [] else [x]))
    (λ seen, if seen then [] else [d]).

(** [last()]: the last event, known only at teardown. *)
Definition op_last {A} : Op A A :=
  MkOp (op_state := option A) None (λ _ x, (Some x, []))
    (λ s, match s with Some x => [x] | None => [] end).

(** [is_empty()]: [false] at the first event, [true] at teardown if none. *)
Definition op_is_empty {A} : Op A bool :=
  MkOp (op_state := bool) false
    (λ seen _, (true, if seen then [] else [false]))
    (λ seen, if seen then [] else [true]).

(** [a | b] over one source: both subscriptions see each event; [a]'s
    outputs are delivered before [b]'s, in subscription order. *)
Definition op_merge {A B} (o1 o2 : Op A B) : Op A B :=
  MkOp (op_state := op_state o1 * op_state o2) (op_init o1, op_init o2)
    (λ '(s1, s2) x,
      let '(s1', ys) := op_step o1 s1 x in
      let '(s2', zs) := op_step o2 s2 x in ((s1', s2'), ys ++ zs))
    (λ '(s1, s2), op_close o1 s1 ++ op_close o2 s2).

(** A state that every event leaves unchanged and silent absorbs the rest
    of the stream. *)
Lemma feed_absorbing {A B} (o : Op A B) s0 l :
  (∀ x, op_step o s0 x = (s0, [])) -> feed o s0 l = (s0, []).
Proof.
  intros H. induction l as [|x l IH]; [done|]. simpl. by rewrite H, IH.
Qed.

Lemma run_first {A} (l : list A) :
  run_open op_first l = take 1 l /\ run_closed op_first l = take 1 l.
Proof.
  unfold run_open, run_closed. destruct l as [|x l]; [done|]. simpl.
  rewrite (feed_absorbing op_first true); done.
Qed.

Lemma run_first_or_default {A} (d : A) l :
  run_closed (op_first_or_default d) l = [default d (head l)].
Proof.
  unfold run_closed. destruct l as [|x l]; [done|]. simpl.
  rewrite (feed_absorbing (op_first_or_default d) true); done.
Qed.

Lemma feed_last {A} (s : option A) l :
  feed op_last s l = (match last l with Some x => Some x | None => s end, []).
Proof.
  revert s. induction l as [|x l IH]; intros s; [done|]. simpl. rewrite IH.
  destruct l as [|y l]; [done|]. rewrite last_cons_cons.
  destruct (last (y :: l)) eqn:E; [done|]. by apply last_None in E.
Qed.

Lemma run_last {A} (l : list A) :
  run_open op_last l = [] /\
  run_closed op_last l = match last l with Some x => [x] | None => [] end.
Proof. unfold run_open, run_closed. rewrite feed_last. by destruct (last l). Qed.

Lemma run_is_empty {A} (l : list A) :
  run_closed op_is_empty l = [bool_decide (l = [])].
Proof.
  unfold run_closed. destruct l as [|x l]; [done|]. simpl.
  rewrite (feed_absorbing op_is_empty true); done.
Qed.

(** ** Time-driven operators *)

(** [throttle(d)] over timestamped events: an event passes when no event
    has passed yet or when at least [d] has elapsed since the last one
    that passed; the others are dropped, not queued. *)
Definition op_throttle {A} (d : Z) : Op (Z * A) (Z * A) :=
  MkOp (op_state := option Z) None
    (λ last e,
      match last with
      | Some t0 => if (t0 + d <=? e.1)%Z then (Some e.1, [e]) else (last, [])
      | None => (Some e.1, [e])
      end)
    (λ _, []).

(** Consecutive outputs are at least [d] apart (the first one at least [d]
    after [last], when there is a [last]). *)
Fixpoint spaced_from {A} (d : Z) (last : option Z) (l : list (Z * A)) : Prop :=
  match l with
  | [] => True
  | e :: l' =>
      match last with Some t0 => (t0 + d <= e.1)%Z | None => True end
      /\ spaced_from d (Some e.1) l'
  end.

Lemma feed_throttle_spaced {A} d s (l : list (Z * A)) :
  spaced_from d s (feed (op_throttle d) s l).2.
Proof.
  revert s. induction l as [|e l IH]; intros s; [done|]. simpl.
  destruct s as [t0|].
  - destruct (Z.leb_spec (t0 + d) e.1).
    + specialize (IH (Some e.1)). destruct (feed _ _ l). simpl in *. done.
    + specialize (IH (Some t0)). destruct (feed _ _ l). done.
  - specialize (IH (Some e.1)). destruct (feed _ _ l). simpl in *. done.
Qed.

(** Every output is an input, and an input that was dropped came less than
    [d] after the output that preceded it. *)
Lemma feed_throttle_dropped {A} d s (l : list (Z * A)) e :
  e ∈ l ->
  e ∈ (feed (op_throttle d) s l).2 \/
  (∃ t0, (e.1 < t0 + d)%Z /\ (s = Some t0 \/ ∃ y, y ∈ (feed (op_throttle d) s l).2 /\ y.1 = t0)).
Proof.
  revert s. induction l as [|x l IH]; intros s Hin; [set_solver|]. simpl.
  apply elem_of_cons in Hin as [<-|Hin].
  - destruct s as [t0|]; [destruct (Z.leb_spec (t0 + d) e.1)|];
      destruct (feed _ _ l); simpl; [left; set_solver| |left; set_solver].
    right. exists t0. split; [lia|auto].
  - assert (∀ s', (feed (op_throttle d) (Some x.1) l).2 = s' ->
      e ∈ x :: s' \/ (∃ t0, (e.1 < t0 + d)%Z /\ ∃ y, y ∈ x :: s' /\ y.1 = t0)) as Hemit.
    { intros s' <-. destruct (IH (Some x.1) Hin) as [?|(t1 & ? & [[= <-]|(y & ? & ?)])];
        [left; set_solver|right; exists x.1; split; [done|]; exists x; set_solver|].
      right. exists t1. split; [done|]. exists y. set_solver. }
    destruct s as [t0|]; [destruct (Z.leb_spec (t0 + d) x.1)|].
    + destruct (feed (op_throttle d) (Some x.1) l) eqn:E; simpl. specialize (Hemit l0 eq_refl).
      simpl in Hemit. naive_solver.
    + specialize (IH (Some t0) Hin). by destruct (feed _ _ l).
    + destruct (feed (op_throttle d) (Some x.1) l) eqn:E; simpl. specialize (Hemit l0 eq_refl).
      simpl in Hemit. naive_solver.
Qed.

(** [buffer_with_time(d)]: events are collected into a buffer that is
    flushed (emitted and cleared) every [d], on the scheduler's clock and
    not on the events: an idle stream still flushes empty buffers.  The
    input carries the clock: [Item t x] is an event given at time [t] and
    [Tick t] the clock reaching [t] with no event.  The state is the end
    of the current window and the buffer; teardown flushes the buffer. *)
Inductive TIn (A : Type) := Item (t : Z) (x : A) | Tick (t : Z).
Arguments Item {A} t x.
Arguments Tick {A} t.

Definition tin_time {A} (e : TIn A) : Z := match e with Item t _ | Tick t => t end.
Definition tin_item {A} (e : TIn A) : option A :=
  match e with Item _ x => Some x | Tick _ => None end.

(** The number of windows that have ended at time [t]. *)
Definition windows_due (d wend t : Z) : nat :=
  if (wend <=? t)%Z then Z.to_nat ((t - wend) / d + 1) else 0.

(** Flush [k] windows: the current buffer, then [k - 1] empty ones, each
    with the time of its flush (the end of its window). *)
Fixpoint flush {A} (d : Z) (k : nat) (wend : Z) (buf : list A) : Z * list A * list (Z * list A) :=
  match k with
  | 0 => (wend, buf, [])
  | S k' => let '(w, b, out) := flush d k' (wend + d)%Z [] in (w, b, (wend, buf) :: out)
  end.

Definition op_buffer_with_time {A} (d t0 : Z) : Op (TIn A) (Z * list A) :=
  MkOp (op_state := Z * list A) ((t0 + d)%Z, [])
    (λ '(wend, buf) e,
      let '(w, b, out) := flush d (windows_due d wend (tin_time e)) wend buf in
      ((w, match tin_item e with Some x => b ++ [x] | None => b end), out))
    (λ '(wend, buf), [(wend, buf)]).

Lemma flush_concat {A} d k wend (buf : list A) :
  concat (map snd (flush d k wend buf).2) ++ (flush d k wend buf).1.2 = buf.
Proof.
  revert wend buf. induction k as [|k IH]; intros wend buf; simpl; [done|].
  specialize (IH (wend + d)%Z []). destruct (flush d k _ _) as [[w b] out]. simpl in *.
  by rewrite <- (assoc_L app), IH, app_nil_r.
Qed.

Lemma flush_length {A} d k wend (buf : list A) :
  length (flush d k wend buf).2 = k /\ (flush d k wend buf).1.1 = (wend + Z.of_nat k * d)%Z.
Proof.
  revert wend buf. induction k as [|k IH]; intros wend buf; simpl; [split; [done|lia]|].
  specialize (IH (wend + d)%Z []). destruct (flush d k _ _) as [[w b] out]. simpl in *. lia.
Qed.

Lemma feed_buffer_concat {A} d (wend : Z) (buf : list A) l :
  concat (map snd (feed (op_buffer_with_time d wend) (wend, buf) l).2)
    ++ (feed (op_buffer_with_time d wend) (wend, buf) l).1.2 = buf ++ omap tin_item l.
Proof.
  revert wend buf. induction l as [|e l IH]; intros wend buf; simpl; [by rewrite app_nil_r|].
  pose proof (flush_concat d (windows_due d wend (tin_time e)) wend buf) as Hf.
  destruct (flush _ _ _ _) as [[w b] out]. simpl in *.
  specialize (IH w (match tin_item e with Some x => b ++ [x] | None => b end)).
  destruct (feed _ _ l) as [[w' b'] out']. simpl in *.
  rewrite map_app, concat_app, <- (assoc_L app), IH, <- Hf.
  destruct (tin_item e); simpl; by rewrite <- !(assoc_L app).
Qed.

Lemma run_buffer_concat {A} d t0 (l : list (TIn A)) :
  concat (map snd (run_closed (op_buffer_with_time d t0) l)) = omap tin_item l.
Proof.
  unfold run_closed. simpl.
  pose proof (feed_buffer_concat d (t0 + d)%Z [] l) as H.
  unfold op_buffer_with_time in *. simpl in *.
  destruct (feed _ _ l) as [[w b] out]. simpl in *.
  rewrite map_app, concat_app. simpl. by rewrite app_nil_r.
Qed.

(** After the flush at time [t], [t] lies in the current window. *)
Lemma windows_due_spec d wend t :
  (0 < d)%Z -> (wend - d <= t)%Z ->
  (wend + Z.of_nat (windows_due d wend t) * d - d <= t < wend + Z.of_nat (windows_due d wend t) * d)%Z.
Proof.
  intros Hd Ht. unfold windows_due. destruct (Z.leb_spec wend t).
  - assert (0 <= (t - wend) / d)%Z by (apply Z.div_pos; lia).
    rewrite Z2Nat.id by lia.
    pose proof (Z.mul_div_le (t - wend) d Hd). pose proof (Z.mod_pos_bound (t - wend) d Hd).
    pose proof (Z.div_mod (t - wend) d ltac:(lia)). nia.
  - simpl. lia.
Qed.

Lemma flush_empty {A} d k wend :
  map snd (flush (A:=A) d k wend []).2 = replicate k [].
Proof.
  revert wend. induction k as [|k IH]; intros wend; [done|]. simpl.
  specialize (IH (wend + d)%Z). destruct (flush d k _ _) as [[w b] out]. simpl in *. by rewrite IH.
Qed.

(** After the flush at time [t], the current window ends after [t]
    (whatever the previous window, a clock that went back included). *)
Lemma windows_due_after d wend t :
  (0 < d)%Z -> (t < wend + Z.of_nat (windows_due d wend t) * d)%Z.
Proof.
  intros Hd. destruct (Z.leb_spec wend t).
  - pose proof (windows_due_spec d wend t Hd). lia.
  - unfold windows_due. destruct (Z.leb_spec wend t); simpl; lia.
Qed.

Lemma windows_due_0 d wend t : (t < wend)%Z -> windows_due d wend t = 0.
Proof. intros H. unfold windows_due. by destruct (Z.leb_spec wend t); [lia|]. Qed.

(** ** Timed lifting *)

(** An operator on timestamped events, lifted to the clocked stream: the
    clock reading of each input passes first, then the outputs of the
    operator stamped with the input's time.  It is used for operators that
    emit nothing at teardown ([filter], [map], [pairwise]). *)
Definition op_tin {A B} (o : Op (Z * A) B) : Op (TIn A) (TIn B) :=
  MkOp (op_state := op_state o) (op_init o)
    (λ s e,
      match e with
      | Item t x => let '(s', ys) := op_step o s (t, x) in (s', Tick t :: map (Item t) ys)
      | Tick t => (s, [Tick t])
      end)
    (λ _, []).

(** The timed events of a clocked stream. *)
Definition tin_timed {A} (e : TIn A) : option (Z * A) :=
  match e with Item t x => Some (t, x) | Tick _ => None end.

Lemma feed_tin_items {A B} (o : Op (Z * A) B) s l :
  (feed (op_tin o) s l).1 = (feed o s (omap tin_timed l)).1 /\
  omap tin_item (feed (op_tin o) s l).2 = (feed o s (omap tin_timed l)).2.
Proof.
  revert s. induction l as [|[t x|t] l IH]; intros s; simpl; [done| |].
  - destruct (op_step o s (t, x)) as [s1 ys]. specialize (IH s1).
    destruct (feed (op_tin o) s1 l) as [s2 zs], (feed o s1 _) as [s2' zs']. simpl in *.
    destruct IH as [-> IH]. split; [done|]. rewrite omap_app, IH. f_equal.
    clear. induction ys; simpl; by f_equal.
  - specialize (IH s). destruct (feed (op_tin o) s l), (feed o s _). done.
Qed.

Lemma run_tin_items {A B} (o : Op (Z * A) B) l :
  omap tin_item (run_closed (op_tin o) l) = run_open o (omap tin_timed l).
Proof.
  unfold run_closed, run_open. pose proof (feed_tin_items o (op_init o) l) as [_ H].
  simpl in *. destruct (feed _ _ l). simpl in *. by rewrite app_nil_r.
Qed.

(** Events at one time [t] after the flush at [t] only fill the buffer. *)
Lemma feed_buffer_at {A} d t0 w (b : list A) t xs :
  (t < w)%Z -> Forall (λ e, tin_time e = t) xs ->
  feed (op_buffer_with_time d t0) (w, b) xs = ((w, b ++ omap tin_item xs), []).
Proof.
  intros Hw Hxs. revert b. induction Hxs as [|e xs He Hxs IH]; intros b; simpl; [by rewrite app_nil_r|].
  rewrite windows_due_0 by lia. simpl. rewrite IH.
  destruct (tin_item e); simpl; [rewrite <- (assoc_L app)|]; done.
Qed.

Lemma omap_tin_timed_snd {A} (l : list (TIn A)) : map snd (omap tin_timed l) = omap tin_item l.
Proof. induction l as [|[t x|t] l IH]; simpl; by f_equal. Qed.

(** ** Merged subscriptions *)

(** The outputs of a merge that satisfy [P], when the first operator never
    emits one, are those of the second operator alone. *)
Lemma feed_merge_filter {A B} (o1 o2 : Op A B) (P : B -> Prop) `{∀ y, Decision (P y)} s1 s2 l :
  (∀ s x y, y ∈ (op_step o1 s x).2 -> ¬ P y) ->
  filter P (feed (op_merge o1 o2) (s1, s2) l).2 = filter P (feed o2 s2 l).2.
Proof.
  intros Hno. revert s1 s2. induction l as [|x l IH]; intros s1 s2; [done|].
  rewrite !feed_cons. simpl.
  pose proof (Hno s1 x) as Hx. destruct (op_step o1 s1 x) as [s1' ys].
  destruct (op_step o2 s2 x) as [s2' zs]. simpl in *.
  rewrite !filter_app, IH, filter_none; [done|]. intros y Hy. by apply Hx.
Qed.

Lemma feed_merge_filter_l {A B} (o1 o2 : Op A B) (P : B -> Prop) `{∀ y, Decision (P y)} s1 s2 l :
  (∀ s x y, y ∈ (op_step o2 s x).2 -> ¬ P y) ->
  filter P (feed (op_merge o1 o2) (s1, s2) l).2 = filter P (feed o1 s1 l).2.
Proof.
  intros Hno. revert s1 s2. induction l as [|x l IH]; intros s1 s2; [done|].
  rewrite !feed_cons. simpl.
  pose proof (Hno s2 x) as Hx. destruct (op_step o1 s1 x) as [s1' ys].
  destruct (op_step o2 s2 x) as [s2' zs]. simpl in *.
  rewrite !filter_app, IH, (filter_none _ zs); [by rewrite app_nil_r|]. intros y Hy. by apply Hx.
Qed.

Lemma run_merge_filter {A B} (o1 o2 : Op A B) (P : B -> Prop) `{∀ y, Decision (P y)} l :
  (∀ s x y, y ∈ (op_step o1 s x).2 -> ¬ P y) ->
  filter P (run_open (op_merge o1 o2) l) = filter P (run_open o2 l).
Proof. intros. by apply feed_merge_filter. Qed.

Lemma run_merge_filter_l {A B} (o1 o2 : Op A B) (P : B -> Prop) `{∀ y, Decision (P y)} l :
  (∀ s x y, y ∈ (op_step o2 s x).2 -> ¬ P y) ->
  filter P (run_open (op_merge o1 o2) l) = filter P (run_open o1 l).
Proof. intros. by apply feed_merge_filter_l. Qed.

Lemma feed_merge_state {A B} (o1 o2 : Op A B) s1 s2 l :
  (feed (op_merge o1 o2) (s1, s2) l).1 = ((feed o1 s1 l).1, (feed o2 s2 l).1).
Proof.
  revert s1 s2. induction l as [|x l IH]; intros s1 s2; [done|].
  rewrite !feed_cons. simpl. destruct (op_step o1 s1 x), (op_step o2 s2 x). apply IH.
Qed.

(** After teardown too, the second subscription alone gives what satisfies
    [P] when the first gives none of it. *)
Lemma run_closed_merge_filter {A B} (o1 o2 : Op A B) (P : B -> Prop) `{∀ y, Decision (P y)} l :
  (∀ s x y, y ∈ (op_step o1 s x).2 -> ¬ P y) -> (∀ s y, y ∈ op_close o1 s -> ¬ P y) ->
  filter P (run_closed (op_merge o1 o2) l) = filter P (run_closed o2 l).
Proof.
  intros Hs Hc. unfold run_closed.
  pose proof (feed_merge_filter o1 o2 P (op_init o1) (op_init o2) l Hs) as Hf.
  pose proof (feed_merge_state o1 o2 (op_init o1) (op_init o2) l) as Hst.
  change (op_init (op_merge o1 o2)) with (op_init o1, op_init o2).
  destruct (feed (op_merge o1 o2) _ l) as [[m1 m2] ys]. simpl in *. apply pair_equal_spec in Hst as [-> ->].
  destruct (feed o2 _ l) as [t2 zs]. simpl in *.
  rewrite !filter_app, Hf, (filter_none _ (op_close o1 _)); [done|]. apply Hc.
Qed.

Lemma run_closed_merge_filter_l {A B} (o1 o2 : Op A B) (P : B -> Prop) `{∀ y, Decision (P y)} l :
  (∀ s x y, y ∈ (op_step o2 s x).2 -> ¬ P y) -> (∀ s y, y ∈ op_close o2 s -> ¬ P y) ->
  filter P (run_closed (op_merge o1 o2) l) = filter P (run_closed o1 l).
Proof.
  intros Hs Hc. unfold run_closed.
  pose proof (feed_merge_filter_l o1 o2 P (op_init o1) (op_init o2) l Hs) as Hf.
  pose proof (feed_merge_state o1 o2 (op_init o1) (op_init o2) l) as Hst.
  change (op_init (op_merge o1 o2)) with (op_init o1, op_init o2).
  destruct (feed (op_merge o1 o2) _ l) as [[m1 m2] ys]. simpl in *. apply pair_equal_spec in Hst as [-> ->].
  destruct (feed o1 _ l) as [t1 zs]. simpl in *.
  rewrite !filter_app, Hf, (filter_none _ (op_close o2 _)); [by rewrite app_nil_r|]. apply Hc.
Qed.

Lemma feed_first_last_seen {A} s (l : list A) :
  feed (op_merge op_first op_last) (true, s) l =
    ((true, match last l with Some y => Some y | None => s end), []).
Proof.
  revert s. induction l as [|x l IH]; intros s; [done|]. rewrite feed_cons.
  assert (op_step (op_merge op_first op_last) (true, s) x = ((true, Some x), [])) as -> by done.
  cbn [fst snd].
  rewrite IH. simpl.
  destruct l as [|y l]; [done|]. rewrite last_cons_cons.
  destruct (last (y :: l)) eqn:E; [done|]. by apply last_None in E.
Qed.

(** [first() | last()] over one stream: the first event during the
    stream, the last one at teardown. *)
Lemma run_first_last {A} (l : list A) :
  run_closed (op_merge op_first op_last) l =
    match l with [] => [] | x :: _ => [x; default x (last l)] end.
Proof.
  unfold run_closed. destruct l as [|x l]; [done|].
  change (op_init (op_merge op_first op_last)) with (false, @None A).
  rewrite feed_cons.
  assert (op_step (op_merge op_first op_last) (false, None) x = ((true, Some x), [x])) as -> by done.
  cbn [fst snd].
  match goal with |- context [feed ?o ?st l] =>
    replace (feed o st l) with ((true, match last l with Some y => Some y | None => Some x end), @nil A)
      by (symmetry; apply feed_first_last_seen) end.
  simpl. destruct l as [|y l]; [done|]. rewrite last_cons_cons.
  destruct (last (y :: l)) eqn:E; [done|]. by apply last_None in E.
Qed.

(** An operator that never emits an output satisfying [P]. *)
Definition silent {A B} (P : B -> Prop) (o : Op A B) : Prop :=
  (∀ s x y, y ∈ (op_step o s x).2 -> ¬ P y) /\ (∀ s y, y ∈ op_close o s -> ¬ P y).

Lemma silent_map {A B C} (P : C -> Prop) (o : Op A B) (f : B -> C) :
  (∀ z, ¬ P (f z)) -> silent P (o |> op_map f).
Proof.
  intros Hf. split.
  - intros [s1 []] x y. simpl. destruct (op_step o s1 x) as [s1' ys]. simpl.
    unfold op_map. rewrite feed_flat. simpl. intros (z & ->%list_elem_of_singleton & _)%list_elem_of_bind.
    apply Hf.
  - intros [s1 []] y. simpl. unfold op_map. rewrite feed_flat. simpl. rewrite app_nil_r.
    intros (z & ->%list_elem_of_singleton & _)%list_elem_of_bind. apply Hf.
Qed.

Lemma silent_merge {A B} (P : B -> Prop) (o1 o2 : Op A B) :
  silent P o1 -> silent P o2 -> silent P (op_merge o1 o2).
Proof.
  intros [H1 C1] [H2 C2]. split.
  - intros [s1 s2] x y. simpl. pose proof (H1 s1 x) as H1'. pose proof (H2 s2 x) as H2'.
    destruct (op_step o1 s1 x), (op_step o2 s2 x). simpl in *.
    rewrite elem_of_app. intros [?|?]; eauto.
  - intros [s1 s2] y. simpl. rewrite elem_of_app. intros [?|?]; eauto.
Qed.

Lemma run_silent_merge {A B} (o1 o2 : Op A B) (P : B -> Prop) `{∀ y, Decision (P y)} l :
  silent P o1 -> filter P (run_closed (op_merge o1 o2) l) = filter P (run_closed o2 l).
Proof. intros [? ?]. by apply run_closed_merge_filter. Qed.

Lemma run_silent_merge_l {A B} (o1 o2 : Op A B) (P : B -> Prop) `{∀ y, Decision (P y)} l :
  silent P o2 -> filter P (run_closed (op_merge o1 o2) l) = filter P (run_closed o1 l).
Proof. intros [? ?]. by apply run_closed_merge_filter_l. Qed.

Lemma run_closed_flat {A B} (g : A -> list B) l : run_closed (op_flat g) l = l ≫= g.
Proof. apply run_flat. Qed.

Lemma run_closed_map {A B} (f : A -> B) l : run_closed (op_map f) l = map f l.
Proof. rewrite close_stateless by done. apply run_op_map. Qed.

Lemma run_closed_filter_map {A B} (f : A -> option B) l : run_closed (op_filter_map f) l = omap f l.
Proof. rewrite close_stateless by done. apply run_op_filter_map. Qed.

Lemma run_closed_pairwise {A} (l : list A) : run_closed op_pairwise l = pairs l.
Proof. rewrite close_stateless by done. apply run_pairwise. Qed.

#[export] Hint Rewrite @run_closed_map @run_closed_filter_map @run_closed_pairwise : mb.

(** ** Errors and timestamps along a chain *)

(** An exception raised upstream reaches the subscriber and ends the
    subscription (reactivex's [on_error]); values go through [o]. *)
Definition op_res {A B} (o : Op A B) : Op (res A) (res B) :=
  MkOp (op_state := bool * op_state o) (false, op_init o)
    (λ '(dead, s) r,
      if dead then ((true, s), []) else
      match r with
      | Ok a => let '(s', ys) := op_step o s a in ((false, s'), Ok <$> ys)
      | Raise e => ((true, s), [Raise e])
      end)
    (λ '(dead, s), if dead then [] else Ok <$> op_close o s).

Lemma feed_res_ok {A B} (o : Op A B) s l :
  feed (op_res o) (false, s) (Ok <$> l) = ((false, (feed o s l).1), Ok <$> (feed o s l).2).
Proof.
  revert s. induction l as [|x l IH]; intros s; [done|].
  rewrite fmap_cons, (feed_cons (op_res o)), (feed_cons o).
  assert (op_step (op_res o) (false, s) (Ok x) = ((false, (op_step o s x).1), Ok <$> (op_step o s x).2))
    as -> by (simpl; by destruct (op_step o s x)).
  cbn [fst snd]. rewrite IH. simpl. by rewrite fmap_app.
Qed.

Lemma feed_res_dead {A B} (o : Op A B) s l : feed (op_res o) (true, s) l = ((true, s), []).
Proof. by apply (feed_absorbing (op_res o) (true, s)). Qed.

(** Values only: the chain computes [o]. *)
Lemma run_res_ok {A B} (o : Op A B) l :
  run_open (op_res o) (Ok <$> l) = Ok <$> run_open o l /\
  run_closed (op_res o) (Ok <$> l) = Ok <$> run_closed o l.
Proof.
  unfold run_open, run_closed. change (op_init (op_res o)) with (false, op_init o).
  rewrite feed_res_ok. simpl. destruct (feed o _ l). simpl. by rewrite fmap_app.
Qed.

(** The first exception ends the chain: what was computed before it, then
    the exception, then nothing. *)
Lemma run_res_raise {A B} (o : Op A B) l1 e l2 :
  run_closed (op_res o) ((Ok <$> l1) ++ Raise e :: l2) = (Ok <$> run_open o l1) ++ [Raise e].
Proof.
  unfold run_closed, run_open. change (op_init (op_res o)) with (false, op_init o).
  rewrite feed_app, feed_res_ok. cbn [fst snd]. rewrite (feed_cons (op_res o)).
  change (op_step (op_res o) (false, (feed o (op_init o) l1).1) (Raise e))
    with ((true, (feed o (op_init o) l1).1), [@Raise B e]).
  cbn [fst snd]. rewrite feed_res_dead. simpl. destruct (feed o _ l1). simpl. by rewrite !app_nil_r.
Qed.

(** The values before the first exception of a stream of results, and
    that exception. *)
Fixpoint until_raise {A} (l : list (res A)) : list A * option exc :=
  match l with
  | [] => ([], None)
  | Ok a :: l' => let '(p, e) := until_raise l' in (a :: p, e)
  | Raise x :: _ => ([], Some x)
  end.

Lemma until_raise_spec {A} (l : list (res A)) :
  match (until_raise l).2 with
  | None => l = Ok <$> (until_raise l).1
  | Some x => ∃ rest, l = (Ok <$> (until_raise l).1) ++ Raise x :: rest
  end.
Proof.
  induction l as [|[a|x] l IH]; simpl; [done| |by eexists].
  destruct (until_raise l) as [p [x|]]; simpl in *; [destruct IH as [rest ->]; by eexists|by f_equal].
Qed.

(** The first exception ends the chain; without one, the chain computes [o]. *)
Lemma run_res_until {A B} (o : Op A B) l :
  run_closed (op_res o) l =
    match (until_raise l).2 with
    | None => Ok <$> run_closed o (until_raise l).1
    | Some x => (Ok <$> run_open o (until_raise l).1) ++ [Raise x]
    end.
Proof.
  pose proof (until_raise_spec l) as H. destruct (until_raise l) as [p [x|]]; simpl in *.
  - destruct H as [rest ->]. apply run_res_raise.
  - subst. apply run_res_ok.
Qed.

(** A clocked stream of results as results of a clocked stream, for
    [op_res]: an event whose value is an exception is that exception. *)
Definition tin_res {A} (e : TIn (res A)) : res (TIn A) :=
  match e with
  | Item t (Ok a) => Ok (Item t a)
  | Item _ (Raise x) => Raise x
  | Tick t => Ok (Tick t)
  end.

Lemma until_raise_tin {A} (m : list (TIn (res A))) :
  until_raise (omap tin_item m) =
    (omap tin_item (until_raise (tin_res <$> m)).1, (until_raise (tin_res <$> m)).2).
Proof.
  induction m as [|e m IH]; [done|]. rewrite fmap_cons.
  change (omap tin_item (e :: m)) with (match tin_item e with Some y => y :: omap tin_item m | None => omap tin_item m end).
  destruct e as [t [a|x]|t]; cbn [tin_item tin_res until_raise]; rewrite ?IH; [|done|];
    by destruct (until_raise (tin_res <$> m)).
Qed.

(** The windows flushed while the stream is live, end to end, are a
    prefix of its events: what the buffer holds is not flushed. *)
Lemma run_open_buffer_prefix {A} d t0 (l : list (TIn A)) :
  concat (map snd (run_open (op_buffer_with_time d t0) l)) `prefix_of` omap tin_item l.
Proof.
  unfold run_open. simpl.
  pose proof (feed_buffer_concat d (t0 + d)%Z [] l) as H.
  unfold op_buffer_with_time in *. simpl in *.
  destruct (feed _ _ l) as [[w b] out]. simpl in *. exists b. by rewrite H.
Qed.

Lemma run_open_tin {A B} (o : Op (Z * A) B) l : run_open (op_tin o) l = run_closed (op_tin o) l.
Proof. symmetry. by apply close_stateless. Qed.

(** An operator on values, its outputs stamped with the time of the input
    that caused them ([giving] passes values through synchronously). *)
Definition op_timed {A B} (o : Op A B) : Op (Z * A) (Z * B) :=
  MkOp (op_state := op_state o) (op_init o)
    (λ s e, let '(s', ys) := op_step o s e.2 in (s', map (λ y, (e.1, y)) ys))
    (λ _, []).

Lemma feed_timed_values {A B} (o : Op A B) s l :
  (feed (op_timed o) s l).1 = (feed o s (map snd l)).1 /\
  map snd (feed (op_timed o) s l).2 = (feed o s (map snd l)).2.
Proof.
  revert s. induction l as [|[t x] l IH]; intros s; [done|].
  cbn [map snd]. rewrite (feed_cons (op_timed o)), (feed_cons o).
  change (op_step (op_timed o) s (t, x))
    with (let '(s', ys) := op_step o s x in (s', map (λ y, (t, y)) ys)).
  destruct (op_step o s x) as [s' ys]. cbn [fst snd]. destruct (IH s') as [H1 H2].
  split; [done|]. rewrite map_app, H2, map_map. simpl. by rewrite map_id.
Qed.

Lemma run_timed_values {A B} (o : Op A B) l :
  map snd (run_open (op_timed o) l) = run_open o (map snd l).
Proof. apply feed_timed_values. Qed.

(** [throttle] only drops: its outputs are a sublist of its inputs. *)
Lemma feed_throttle_sublist {A} d s (l : list (Z * A)) :
  (feed (op_throttle d) s l).2 `sublist_of` l.
Proof.
  revert s. induction l as [|e l IH]; intros s; [done|]. rewrite feed_cons. simpl.
  destruct s as [t0|]; [destruct (Z.leb_spec (t0 + d) e.1)|]; simpl;
    [apply sublist_skip|apply sublist_cons|apply sublist_skip]; apply IH.
Qed.

(** An event on which [o] stays in its state and emits nothing can be
    removed from the stream. *)
Lemma feed_noop {A B} (o : Op A B) s l1 x l2 :
  (∀ s, op_step o s x = (s, [])) -> feed o s (l1 ++ x :: l2) = feed o s (l1 ++ l2).
Proof.
  intros Hx. revert s. induction l1 as [|y l1 IH]; intros s.
  - rewrite !app_nil_l, (feed_cons o s x), Hx. simpl. by destruct (feed o s l2).
  - rewrite <- !app_comm_cons, !(feed_cons o). by rewrite IH.
Qed.

Lemma run_closed_noop {A B} (o : Op A B) l1 x l2 :
  (∀ s, op_step o s x = (s, [])) -> run_closed o (l1 ++ x :: l2) = run_closed o (l1 ++ l2).
Proof. intros Hx. unfold run_closed. by rewrite feed_noop. Qed.

(** The last window of [roll(n)], for [n > 0], ends with the last event. *)
Lemma lastn_snoc_last {A} n (l : list A) x : lastn (S n) (l ++ [x]) = lastn n l ++ [x].
Proof. unfold lastn. rewrite rev_app_distr. done. Qed.

Lemma roll_spec_snoc {A} n (l : list A) x :
  roll_spec n (l ++ [x]) = roll_spec n l ++ [lastn n (l ++ [x])].
Proof.
  unfold roll_spec. rewrite imap_app. simpl. rewrite Nat.add_0_r. f_equal.
  - apply imap_ext. intros i y Hi. apply lookup_lt_Some in Hi. by rewrite take_app_le by lia.
  - by rewrite take_ge by (rewrite length_app; simpl; lia).
Qed.

(** A chain that is given values first outputs what its operator computes
    on them. *)
Lemma run_res_prefix {A B} (o : Op A B) l1 l2 :
  ∃ w, run_closed (op_res o) ((Ok <$> l1) ++ l2) = (Ok <$> run_open o l1) ++ w.
Proof.
  unfold run_closed, run_open. change (op_init (op_res o)) with (false, op_init o).
  rewrite feed_app, feed_res_ok. cbn [fst snd]. eexists. by rewrite <- (assoc_L app).
Qed.

Lemma run_closed_timed {A B} (o : Op A B) l : run_closed (op_timed o) l = run_open (op_timed o) l.
Proof. by apply close_stateless. Qed.

(** ** Spacing of timestamped lists *)

(** The time of the last element, or [last] when there is none. *)
Definition last_from {A} (last : option Z) (l : list (Z * A)) : option Z :=
  match list.last l with Some e => Some e.1 | None => last end.

Lemma last_from_snoc {A} o (l : list (Z * A)) e : last_from o (l ++ [e]) = Some e.1.
Proof. unfold last_from. by rewrite last_snoc. Qed.

Lemma spaced_from_snoc {A} d o (l : list (Z * A)) e :
  spaced_from d o l -> (∀ t0, last_from o l = Some t0 -> (t0 + d <= e.1)%Z) ->
  spaced_from d o (l ++ [e]).
Proof.
  revert o. induction l as [|e' l IH]; intros o Hs He; simpl in *.
  - split; [|done]. destruct o; [by apply He|done].
  - destruct Hs as [H1 H2]. split; [done|]. apply IH; [done|].
    intros t0 Ht. apply He. unfold last_from in *. destruct l as [|p l]; simpl in *; [done|].
    destruct (last (p :: l)) eqn:E; [done|]. by apply last_None in E.
Qed.

Lemma spaced_from_span {A} d t0 (l : list (Z * A)) tn :
  spaced_from d (Some t0) l -> last_from (Some t0) l = Some tn ->
  (t0 + Z.of_nat (length l) * d <= tn)%Z.
Proof.
  revert t0. induction l as [|e l IH]; intros t0 Hs Hl; simpl in *.
  - unfold last_from in Hl. simpl in Hl. simplify_eq. lia.
  - destruct Hs as [H1 H2]. assert (last_from (Some e.1) l = Some tn) as Hl'.
    { unfold last_from in *. destruct l as [|p l]; simpl in *; [done|].
      destruct (last (p :: l)) eqn:E; [done|]. by apply last_None in E. }
    specialize (IH _ H2 Hl'). lia.
Qed.

(** A silent operator never outputs what it is silent about, up to teardown. *)
Lemma feed_silent {A B} (P : B -> Prop) (o : Op A B) s l :
  silent P o -> ∀ y, y ∈ (feed o s l).2 -> ¬ P y.
Proof.
  intros [Hs Hc]. revert s. induction l as [|x l IH]; intros s y; [simpl; set_solver|].
  rewrite feed_cons. simpl. rewrite elem_of_app. intros [Hy|Hy]; [by eapply Hs|by eapply IH].
Qed.

Lemma run_closed_silent {A B} (P : B -> Prop) (o : Op A B) l :
  silent P o -> ∀ y, y ∈ run_closed o l -> ¬ P y.
Proof.
  intros Hsil y. unfold run_closed. pose proof (feed_silent P o (op_init o) l Hsil) as Hf.
  destruct (feed o (op_init o) l) as [s ys]. simpl in Hf. rewrite elem_of_app.
  intros [Hy|Hy]; [by apply Hf|by eapply (proj2 Hsil)].
Qed.


