(* ===== verification/Phases.v ===== *)
(** * The phase lifecycle and the instruments' phase registrations

    voir (not under [src/]) drives the host program through the phases
    [ParseArgs -> Init -> LoadScript -> RunScript -> Finalize -> Done]
    (spec section 4.2): [advance()] enters the next phase and resumes the
    instruments waiting on it, by ascending priority, ties in registration
    order; [advance()] on [Done] fails with InvalidTransition.  The
    lifecycle is modelled from the spec ([Phase], [advance]).

    Each instrument of instruments.py is a generator; what the lifecycle
    sees of it is the sequence of [yield ov.phases.<phase>(priority)] it
    makes ([instrument_yields], from the source).  A resumed instrument runs
    to its next yield and then waits on that phase. *)

From S2P Require Import Prelude.
From Stdlib Require Import Sorting.Sorted.
Local Open Scope nat_scope.

Module Phases.

Inductive Phase := ParseArgs | Init | LoadScript | RunScript | Finalize | Done.

#[export] Instance Phase_eq_dec : EqDecision Phase.
Proof. solve_decision. Defined.

Definition phase_index (p : Phase) : nat :=
  match p with
  | ParseArgs => 0 | Init => 1 | LoadScript => 2 | RunScript => 3 | Finalize => 4 | Done => 5
  end.

(** The phase [advance()] enters; [None] is the state before [ParseArgs]. *)
Definition next_phase (cur : option Phase) : option Phase :=
  match cur with
  | None => Some ParseArgs
  | Some ParseArgs => Some Init
  | Some Init => Some LoadScript
  | Some LoadScript => Some RunScript
  | Some RunScript => Some Finalize
  | Some Finalize => Some Done
  | Some Done => None
  end.

Inductive LifecycleError := InvalidTransition.

(** The instruments of instruments.py that are generators. *)
Inductive Instrument :=
| IDash | IStop | ITrainRate | ILoadingRate | IComputeRate | IProfileGPU | IVerify | IProfile.

#[export] Instance Instrument_eq_dec : EqDecision Instrument.
Proof. solve_decision. Defined.

(** The [yield ov.phases...] of each instrument, with its priority
    (default 0), in the order the generator makes them. *)

(** [dash]: [yield ov.phases.init] (line 32), [yield
    ov.phases.finalize(-1000)] (line 89). *)
Definition dash_yields : list (Phase * Z) := [(Init, 0%Z); (Finalize, (-1000)%Z)].
(** [stop]: [yield ov.phases.load_script(priority=-100)] (line 104). *)
Definition stop_yields : list (Phase * Z) := [(LoadScript, (-100)%Z)].
(** [train_rate]: [yield ov.phases.load_script] (line 116). *)
Definition train_rate_yields : list (Phase * Z) := [(LoadScript, 0%Z)].
(** [loading_rate]: [yield ov.phases.load_script] (line 157). *)
Definition loading_rate_yields : list (Phase * Z) := [(LoadScript, 0%Z)].
(** [compute_rate]: [yield ov.phases.load_script] (line 199). *)
Definition compute_rate_yields : list (Phase * Z) := [(LoadScript, 0%Z)].
(** [profile_gpu]: [load_script] (line 243), [run_script] (line 246). *)
Definition profile_gpu_yields : list (Phase * Z) := [(LoadScript, 0%Z); (RunScript, 0%Z)].
(** [verify]: [parse_args] (line 252), [finalize] (line 281). *)
Definition verify_yields : list (Phase * Z) := [(ParseArgs, 0%Z); (Finalize, 0%Z)].
(** [profile]: [load_script] (line 351), [run_script] (line 355). *)
Definition profile_yields : list (Phase * Z) := [(LoadScript, 0%Z); (RunScript, 0%Z)].

Arguments dash_yields /.
Arguments stop_yields /.
Arguments train_rate_yields /.
Arguments loading_rate_yields /.
Arguments compute_rate_yields /.
Arguments profile_gpu_yields /.
Arguments verify_yields /.
Arguments profile_yields /.

Definition instrument_yields (i : Instrument) : list (Phase * Z) :=
  match i with
  | IDash => dash_yields
  | IStop => stop_yields
  | ITrainRate => train_rate_yields
  | ILoadingRate => loading_rate_yields
  | IComputeRate => compute_rate_yields
  | IProfileGPU => profile_gpu_yields
  | IVerify => verify_yields
  | IProfile => profile_yields
  end.

(** ** Resumption order: a stable sort by priority *)

Section Sort.
Context {A : Type}.

(** Insert before the first element of greater or equal priority: an
    element taken earlier from the registration list stays before the
    later ones of the same priority. *)
Fixpoint insert_prio (x : A * Z) (l : list (A * Z)) : list (A * Z) :=
  match l with
  | [] => [x]
  | y :: l' => if (x.2 <=? y.2)%Z then x :: l else y :: insert_prio x l'
  end.

Fixpoint sort_prio (l : list (A * Z)) : list (A * Z) :=
  match l with [] => [] | x :: l' => insert_prio x (sort_prio l') end.

Definition prio_le (x y : A * Z) : Prop := (x.2 <= y.2)%Z.

Lemma insert_prio_perm x l : insert_prio x l ≡ₚ x :: l.
Proof.
  induction l as [|y l IH]; simpl; [done|]. destruct (Z.leb_spec x.2 y.2); [done|].
  rewrite IH. apply Permutation_swap.
Qed.

Lemma sort_prio_perm l : sort_prio l ≡ₚ l.
Proof. induction l as [|x l IH]; simpl; [done|]. by rewrite insert_prio_perm, IH. Qed.

Lemma insert_prio_sorted x l : Sorted prio_le l -> Sorted prio_le (insert_prio x l).
Proof.
  induction 1 as [|y l Hl IH Hhd]; simpl; [by repeat constructor|].
  destruct (Z.leb_spec x.2 y.2).
  - constructor; [by constructor|]. constructor. done.
  - constructor; [done|]. destruct l as [|z l]; simpl; [constructor; unfold prio_le; lia|].
    inversion Hhd; subst. destruct (Z.leb_spec x.2 z.2); constructor; unfold prio_le in *; lia.
Qed.

Lemma sort_prio_sorted l : Sorted prio_le (sort_prio l).
Proof. induction l; simpl; [constructor|]. by apply insert_prio_sorted. Qed.

Lemma filter_insert_prio (k : Z) x l :
  filter (λ y : A * Z, y.2 = k) (insert_prio x l) =
    if decide (x.2 = k) then x :: filter (λ y : A * Z, y.2 = k) l else filter (λ y : A * Z, y.2 = k) l.
Proof.
  induction l as [|y l IH]; simpl.
  - rewrite filter_cons. by case_decide.
  - destruct (Z.leb_spec x.2 y.2); rewrite !filter_cons.
    + by case_decide.
    + rewrite IH. case_decide as Hy; case_decide as Hx; [lia|done|done|done].
Qed.

Lemma sort_prio_stable (k : Z) l :
  filter (λ y : A * Z, y.2 = k) (sort_prio l) = filter (λ y : A * Z, y.2 = k) l.
Proof.
  induction l as [|x l IH]; simpl; [done|]. rewrite filter_insert_prio, IH, filter_cons. by case_decide.
Qed.

End Sort.

(** ** The lifecycle *)

Record LState := MkL {
  l_cur : option Phase;
  l_wait : list (Instrument * list (Phase * Z));  (** registration order, remaining yields *)
  l_log : list (Phase * Instrument)               (** resumptions, in order *)
}.

(** Whether an instrument whose remaining yields are [rem] waits on [p],
    and with which priority. *)
Definition ready_one (p : Phase) (rem : list (Phase * Z)) : option Z :=
  match rem with (q, pr) :: _ => if decide (q = p) then Some pr else None | [] => None end.

(** An instrument waiting on [p] runs to its next yield. *)
Definition step_rem (p : Phase) (rem : list (Phase * Z)) : list (Phase * Z) :=
  match rem with (q, _) :: ys => if decide (q = p) then ys else rem | [] => rem end.

(** The instruments waiting on [p], with the priority they wait with. *)
Definition ready (p : Phase) (w : list (Instrument * list (Phase * Z))) : list (Instrument * Z) :=
  omap (λ e, (λ pr, (e.1, pr)) <$> ready_one p e.2) w.

Definition resume (p : Phase) (w : list (Instrument * list (Phase * Z))) : list (Instrument * list (Phase * Z)) :=
  (λ e, (e.1, step_rem p e.2)) <$> w.

Definition advance (s : LState) : LState + LifecycleError :=
  match next_phase (l_cur s) with
  | None => inr InvalidTransition
  | Some p =>
      inl (MkL (Some p) (resume p (l_wait s))
             (l_log s ++ map (λ x, (p, x.1)) (sort_prio (ready p (l_wait s)))))
  end.

(** Instruments activated before the first phase, each waiting at its
    first yield. *)
Definition l_init (insts : list Instrument) : LState :=
  MkL None ((λ i, (i, instrument_yields i)) <$> insts) [].

Fixpoint advance_n (n : nat) (s : LState) : LState + LifecycleError :=
  match n with
  | 0 => inl s
  | S n' => match advance s with inl s' => advance_n n' s' | inr e => inr e end
  end.

(** ** Lemmas on the lifecycle *)

Definition cur_lt (c : option Phase) (q : Phase) : Prop :=
  match c with None => True | Some p => phase_index p < phase_index q end.

Fixpoint increasing (l : list Phase) : Prop :=
  match l with
  | p :: ((q :: _) as r) => phase_index p < phase_index q /\ increasing r
  | _ => True
  end.

Lemma next_phase_cur c p q : next_phase c = Some p -> cur_lt c q -> q = p \/ phase_index p < phase_index q.
Proof. intros H1 H2. destruct c as [[]|], q; simpl in *; simplify_eq; first [by left | right; simpl; lia | lia]. Qed.

Lemma resume_names p w : fst <$> resume p w = fst <$> w.
Proof. unfold resume. rewrite <- list_fmap_compose. by apply list_fmap_ext. Qed.

Lemma resume_elem p w i rem : (i, rem) ∈ w -> (i, step_rem p rem) ∈ resume p w.
Proof. intros H. unfold resume. by apply (list_elem_of_fmap_2' _ _ (i, rem)). Qed.

Lemma ready_names p w x : x ∈ ready p w -> x.1 ∈ fst <$> w.
Proof.
  unfold ready. intros (e & He & Hr)%list_elem_of_omap.
  destruct (ready_one p e.2); simplify_eq/=. by apply list_elem_of_fmap_2.
Qed.

Lemma ready_absent p w i : i ∉ fst <$> w -> filter (λ x : Instrument * Z, x.1 = i) (ready p w) = [].
Proof. intros Hi. apply filter_none. intros x Hx <-. by apply Hi, (ready_names p). Qed.

Lemma ready_cons p e w :
  ready p (e :: w) = match ready_one p e.2 with Some pr => [(e.1, pr)] | None => [] end ++ ready p w.
Proof. unfold ready. simpl. by destruct (ready_one p e.2). Qed.

Lemma ready_count p w i rem :
  NoDup (fst <$> w) -> (i, rem) ∈ w ->
  length (filter (λ x : Instrument * Z, x.1 = i) (ready p w)) =
    match ready_one p rem with Some _ => 1 | None => 0 end.
Proof.
  induction w as [|e w IH]; intros Hnd Hin; [by apply not_elem_of_nil in Hin|].
  rewrite fmap_cons, NoDup_cons in Hnd. destruct Hnd as [He Hnd].
  rewrite ready_cons, filter_app, length_app.
  apply elem_of_cons in Hin as [<-|Hin].
  - simpl in He. rewrite ready_absent by done. simpl.
    destruct (ready_one p rem); [|done]. rewrite filter_cons, decide_True by done. done.
  - assert (e.1 ≠ i) as Hne.
    { intros <-. apply He. by apply (list_elem_of_fmap_2 fst _ (e.1, rem)). }
    rewrite IH by done.
    destruct (ready_one p e.2); [|done]. rewrite filter_cons, decide_False by done. done.
Qed.

Lemma log_filter (p : Phase) i (l : list (Instrument * Z)) :
  fst <$> filter (λ e : Phase * Instrument, e.2 = i) (map (λ x, (p, x.1)) l) =
    replicate (length (filter (λ x : Instrument * Z, x.1 = i) l)) p.
Proof.
  induction l as [|x l IH]; [done|]. cbn [map]. rewrite !filter_cons.
  destruct (decide (x.1 = i)) as [Hx|Hx].
  - rewrite !decide_True by done. simpl. f_equal. exact IH.
  - rewrite !decide_False by done. exact IH.
Qed.

Lemma sort_filter_length (P : Instrument * Z -> Prop) `{∀ x, Decision (P x)} l :
  length (filter P (sort_prio l)) = length (filter P l).
Proof. apply Permutation_length. by rewrite sort_prio_perm. Qed.

Lemma increasing_lt q l : increasing (q :: l) -> Forall (λ x, phase_index q < phase_index x) l.
Proof.
  revert q. induction l as [|x l IH]; intros q Hi; [constructor|].
  destruct Hi as [Hqx Hi]. constructor; [done|].
  eapply Forall_impl; [by apply IH|]. simpl. lia.
Qed.

Lemma increasing_tail q l : increasing (q :: l) -> increasing l.
Proof. destruct l; simpl; [done|]. by intros [_ ?]. Qed.

(** What the lifecycle has done with instrument [i], whose yields are
    [Y]: the phases it was resumed at are the yields done ([pre]); it
    waits at the others ([rem]), all after the current phase. *)
Definition inst_inv (i : Instrument) (Y : list (Phase * Z)) (s : LState) : Prop :=
  NoDup (fst <$> l_wait s) /\
  ∃ pre rem, Y = pre ++ rem /\ (i, rem) ∈ l_wait s /\
    fst <$> filter (λ e : Phase * Instrument, e.2 = i) (l_log s) = fst <$> pre /\
    Forall (cur_lt (l_cur s)) (fst <$> rem) /\ increasing (fst <$> rem).

Lemma log_advance (s : LState) p i rem :
  NoDup (fst <$> l_wait s) -> (i, rem) ∈ l_wait s ->
  fst <$> filter (λ e : Phase * Instrument, e.2 = i)
    (l_log s ++ map (λ x, (p, x.1)) (sort_prio (ready p (l_wait s)))) =
  (fst <$> filter (λ e : Phase * Instrument, e.2 = i) (l_log s)) ++
    match ready_one p rem with Some _ => [p] | None => [] end.
Proof.
  intros Hnd Hin. rewrite filter_app, fmap_app, log_filter, sort_filter_length, (ready_count p _ i rem) by done.
  by destruct (ready_one p rem).
Qed.

Lemma inst_inv_advance i Y s s' : inst_inv i Y s -> advance s = inl s' -> inst_inv i Y s'.
Proof.
  intros (Hnd & pre & rem & -> & Hin & Hlog & Hlt & Hinc) Hadv. unfold advance in Hadv.
  destruct (next_phase (l_cur s)) as [p|] eqn:Hp; [|discriminate]. injection Hadv as <-.
  split; [simpl; by rewrite resume_names|]. simpl.
  pose proof (resume_elem p _ i rem Hin) as Hin'. rewrite (log_advance s p i rem) by done.
  destruct rem as [|[q pr] rem']; simpl in *.
  - exists pre, []. split_and!; try done. by rewrite Hlog, !app_nil_r.
  - apply Forall_cons in Hlt as [Hq Hlt].
    pose proof (increasing_lt _ _ Hinc) as Hgt.
    destruct (next_phase_cur _ _ _ Hp Hq) as [->|Hpq].
    + revert Hin'. destruct (decide (p = p)) as [_|]; [|done]. intros Hin'. exists (pre ++ [(p, pr)]), rem'.
      split_and!; [by rewrite <- (assoc_L app)|done|by rewrite Hlog, fmap_app| |by eapply increasing_tail].
      done.
    + revert Hin'. destruct (decide (q = p)) as [->|_]; [lia|]. intros Hin'. exists pre, ((q, pr) :: rem').
      split_and!; [done|done|by rewrite Hlog, app_nil_r| |done].
      constructor; [done|]. eapply Forall_impl; [exact Hgt|]. simpl. lia.
Qed.

Lemma inst_inv_advance_n i Y n s s' : inst_inv i Y s -> advance_n n s = inl s' -> inst_inv i Y s'.
Proof.
  revert s. induction n as [|n IH]; intros s Hi Hn; simpl in Hn; [by simplify_eq|].
  destruct (advance s) as [s1|] eqn:E; [|discriminate]. eapply IH; [|done]. by eapply inst_inv_advance.
Qed.

Lemma advance_n_done s :
  l_cur s = None -> ∃ s', advance_n 6 s = inl s' /\ l_cur s' = Some Done /\ advance s' = inr InvalidTransition.
Proof. destruct s as [c w log]. simpl. intros ->. eexists. split_and!; reflexivity. Qed.

(** At [Done] nothing waits any more: the instrument was resumed at all
    of its yields. *)
Lemma inst_inv_done i Y s :
  inst_inv i Y s -> l_cur s = Some Done ->
  fst <$> filter (λ e : Phase * Instrument, e.2 = i) (l_log s) = fst <$> Y.
Proof.
  intros (_ & pre & rem & HY & _ & Hlog & Hlt & _) Hcur. rewrite Hcur in Hlt.
  destruct rem as [|[q pr] rem].
  - by rewrite HY, app_nil_r.
  - inversion Hlt as [|? ? Hq _]. destruct q; simpl in Hq; lia.
Qed.

Lemma yields_increasing i : increasing (fst <$> instrument_yields i).
Proof. destruct i; simpl; lia. Qed.

Lemma l_init_names insts : fst <$> l_wait (l_init insts) = insts.
Proof. simpl. induction insts as [|i insts IH]; [done|]. simpl. by f_equal. Qed.

(** ** Properties of the lifecycle *)

Lemma sorted_head_le {A} (x : A * Z) l : Sorted prio_le (x :: l) -> ∀ y, y ∈ x :: l -> (x.2 <= y.2)%Z.
Proof.
  intros Hs%Sorted_StronglySorted; [|intros a b c; unfold prio_le; lia].
  inversion Hs as [|? ? _ Hall]; subst. intros y [->|Hy]%elem_of_cons; [lia|].
  rewrite Forall_forall in Hall. by apply Hall.
Qed.

Lemma ready_elem p insts x :
  x ∈ ready p ((λ i, (i, instrument_yields i)) <$> insts) ->
  x.1 ∈ insts /\ ready_one p (instrument_yields x.1) = Some x.2.
Proof.
  unfold ready. intros (e & He & Hr)%list_elem_of_omap.
  apply list_elem_of_fmap in He as (i & -> & Hi). simpl in Hr.
  destruct (ready_one p (instrument_yields i)) eqn:E; simplify_eq/=. done.
Qed.

(** C11. Whatever the order in which the instruments were registered,
    at [load_script] the [stop] instrument, the only one waiting there
    with a negative priority ([priority=-100]), is resumed first. *)
Theorem stop_resumes_first insts :
  IStop ∈ insts ->
  head (sort_prio (ready LoadScript ((λ i, (i, instrument_yields i)) <$> insts))) = Some (IStop, (-100)%Z).
Proof.
  intros Hin. set (w := (λ i, (i, instrument_yields i)) <$> insts).
  assert ((IStop, (-100)%Z) ∈ sort_prio (ready LoadScript w)) as Hs.
  { rewrite sort_prio_perm. apply list_elem_of_omap. exists (IStop, instrument_yields IStop).
    split; [by apply (list_elem_of_fmap_2 (λ i, (i, instrument_yields i)))|done]. }
  pose proof (sort_prio_sorted (ready LoadScript w)) as Hsort.
  destruct (sort_prio (ready LoadScript w)) as [|x l] eqn:E; [by apply not_elem_of_nil in Hs|].
  pose proof (sorted_head_le x l Hsort _ Hs) as Hle. simpl.
  assert (x ∈ ready LoadScript w) as Hx by (rewrite <- sort_prio_perm, E; apply elem_of_cons; by left).
  destruct (ready_elem _ _ _ Hx) as [_ Hr]. destruct x as [i pr]; simpl in *.
  destruct i; simpl in Hr; simplify_eq; simpl in Hle; try lia; done.
Qed.

(** C10. With the instruments of instruments.py activated before the
    first phase (each once), the lifecycle visits the six phases in order
    and then refuses to advance; every instrument is resumed exactly at
    the phases of its [yield]s, in order: each generator of the source
    yields on strictly later phases, so none waits on a phase already
    passed. *)
Theorem resumed_at_yields insts i :
  NoDup insts -> i ∈ insts ->
  ∃ s', advance_n 6 (l_init insts) = inl s' /\ l_cur s' = Some Done /\
    advance s' = inr InvalidTransition /\
    fst <$> filter (λ e : Phase * Instrument, e.2 = i) (l_log s') = fst <$> instrument_yields i.
Proof.
  intros Hnd Hi. destruct (advance_n_done (l_init insts)) as (s' & Hrun & Hcur & Hinv); [done|].
  exists s'. split_and!; [done|done|done|].
  assert (inst_inv i (instrument_yields i) (l_init insts)) as H0.
  { split; [by rewrite l_init_names|]. exists [], (instrument_yields i).
    split_and!; [done| |done| |apply yields_increasing].
    - simpl. by apply (list_elem_of_fmap_2 (λ i, (i, instrument_yields i))).
    - simpl. apply Forall_true. by intros. }
  exact (inst_inv_done _ _ _ (inst_inv_advance_n _ _ _ _ _ H0 Hrun) Hcur).
Qed.

(** ** The source's instruments *)

Definition all_instruments : list Instrument :=
  [IVerify; IDash; IStop; ITrainRate; ILoadingRate; IComputeRate; IProfileGPU; IProfile].

(** At [load_script] [stop] (priority -100) resumes first, then the
    others in registration order; at [finalize] [dash] (priority -1000)
    resumes before [verify]. *)
Example all_instruments_log :
  match advance_n 6 (l_init all_instruments) with inl s => Some (l_log s) | inr _ => None end =
  Some [(ParseArgs, IVerify); (Init, IDash);
       (LoadScript, IStop); (LoadScript, ITrainRate); (LoadScript, ILoadingRate);
       (LoadScript, IComputeRate); (LoadScript, IProfileGPU); (LoadScript, IProfile);
       (RunScript, IProfileGPU); (RunScript, IProfile); (Finalize, IDash); (Finalize, IVerify)].
Proof. reflexivity. Qed.

Lemma resumed_at_yields_witness :
  ∃ s', advance_n 6 (l_init all_instruments) = inl s' /\ l_cur s' = Some Done /\
    advance s' = inr InvalidTransition /\
    fst <$> filter (λ e : Phase * Instrument, e.2 = IDash) (l_log s') = fst <$> instrument_yields IDash.
Proof. apply resumed_at_yields; apply (bool_decide_unpack _); vm_compute; reflexivity. Defined.


Lemma stop_resumes_first_witness :
  head (sort_prio (ready LoadScript ((λ i, (i, instrument_yields i)) <$> all_instruments))) =
    Some (IStop, (-100)%Z).
Proof. apply stop_resumes_first. apply (bool_decide_unpack _). vm_compute. reflexivity. Defined.

End Phases.
