(* ===== verification/TrainRate.v ===== *)
(** * The [train_rate] instrument (instruments.py, lines 114-152)

    At [load_script] the instrument subscribes two pipelines to the bus:
    [?use_cuda] with [first_or_default(False)], which sets [sync] to
    [torch.cuda.synchronize] when the value is true, and [times]: the step
    events ([where("step", "batch")]) mapped to their time and batch size,
    paired by [pairwise()] and buffered by [buffer_with_time(1.0)].  Each
    flushed buffer is handed to a subscriber that sums the elapsed time of
    the pairs (plus the cost of [sync()] when it is set) and the batch
    sizes of their first elements, and gives [train_rate = n / t] when both
    are non-zero.

    [train_rate_window] is that subscriber; [train_rate_op] is the whole
    instrument as a Mealy machine over the timed bus, with the closure
    state of the source ([sync], the pairwise predecessor, the current
    window and buffer, and whether the chain has been disposed) as its
    state.  [times_pipeline] is the same chain written with the stream
    operators of [Stream]: the selection [step_sel], then [times_core]
    ([pairwise | buffer_with_time(1.0)]) under [op_res], so that the
    [TypeError] of a batch without a length ends the chain, losing what
    the buffer held, as Rx does with an error that reaches a subscriber.

    [train_rate_refines] proves the two agree on every bus where
    [use_cuda] is never true (with [sync] set the cost of [sync()] is an
    oracle of the instrument only), error included; [times_windows_pairs]
    says what the chain hands its subscriber: windows whose pairs are the
    adjacent step records before the first error, then that error. *)

From S2P Require Import Prelude Stream.
Local Open Scope nat_scope.

Module TrainRate.

(** A step event after [kmap(batch_size=len(batch)).augment(time=...)
    .keep("time", "batch_size")]. *)
Record StepRec := MkStep { sr_time : Z; sr_batch_size : nat }.

(** [ov.given.where("step", "batch").kmap(batch_size=lambda batch:
    len(batch)).augment(time=lambda: time.time_ns()).keep(...)] on the
    event [ev] given at time [t]: [None] when the event is not selected,
    and the [TypeError] of [len] when its batch has no length. *)
Definition step_record (t : Z) (ev : Event) : option (res StepRec) :=
  match dict_get "step" ev, dict_get "batch" ev with
  | Some _, Some batch => Some (n ← py_len batch; mret (MkStep t n))
  | _, _ => None
  end.

(** [t]: the cost of [sync()] when set, plus [sum(e2["time"] - e1["time"])]. *)
Definition pair_elapsed (p : StepRec * StepRec) : Z := (sr_time p.2 - sr_time p.1)%Z.

Definition window_elapsed_ns (sync_ns : option Z) (elems : list (StepRec * StepRec)) : Z :=
  (from_option id 0 sync_ns + Zsum (map pair_elapsed elems))%Z.

(** [n = sum(e1["batch_size"] for e1, e2 in elems)]. *)
Definition window_items (elems : list (StepRec * StepRec)) : nat :=
  sum_list_with (λ p, sr_batch_size p.1) elems.

(** The subscriber of [times] (lines 139-152): [sync_ns] is [None] when
    [sync is None], and the measured [t1 - t0] of the [sync()] call
    otherwise. *)
Definition train_rate_window (sync_ns : option Z) (elems : list (StepRec * StepRec)) : list Event :=
  let t := window_elapsed_ns sync_ns elems in
  let n := window_items elems in
  if negb (Nat.eqb n 0) && negb (Z.eqb t 0)
  then [[("train_rate", VNum (inject_Z (Z.of_nat n) / ns_to_sec t)); ("units", VStr "items/s")]]
  else [].

(** ** Properties of the window subscriber *)

(** The value of the rate given for a window, when one is given. *)
Definition given_rate (evs : list Event) : option Q :=
  match evs with [ev] => match dict_get "train_rate" ev with Some (VNum q) => Some q | _ => None end | _ => None end.

(** C29. With a clock that never goes back within a pair and a
    non-negative [sync()] cost, a window that gives a rate gives a
    positive one. *)
Theorem train_rate_window_positive sync_ns elems q :
  (0 <= from_option id 0 sync_ns)%Z ->
  Forall (λ p, 0 <= pair_elapsed p)%Z elems ->
  given_rate (train_rate_window sync_ns elems) = Some q -> (0 < q)%Q.
Proof.
  intros Hs He. unfold train_rate_window.
  destruct (Nat.eqb_spec (window_items elems) 0) as [|Hn], (Z.eqb_spec (window_elapsed_ns sync_ns elems) 0) as [|Ht];
    simpl; try done. intros [= <-].
  assert (0 < window_elapsed_ns sync_ns elems)%Z.
  { unfold window_elapsed_ns in *. assert (0 <= Zsum (map pair_elapsed elems))%Z; [|lia].
    apply Zsum_nonneg, Forall_map, He. }
  apply Qlt_shift_div_l; [by apply ns_to_sec_pos|].
  rewrite Qmult_0_l. change 0%Q with (inject_Z 0). rewrite <- Zlt_Qlt. lia.
Qed.




(** ** The instrument *)

Section Instrument.
(** [sync_cost w]: the measured duration of the [torch.cuda.synchronize()]
    call that the flush at time [w] makes. *)
Context (sync_cost : Z -> Z).
(** The clock when [times] is subscribed: the first window starts there. *)
Context (t_start : Z).

(** One second, the window of [buffer_with_time(1.0)], in nanoseconds. *)
Definition one_second : Z := (10 ^ 9)%Z.

(** The closure state of the instrument after [load_script]. *)
Record TRState := MkTR {
  tr_uc_seen : bool;                  (** [first_or_default] has fired *)
  tr_sync : bool;                     (** [sync] is [torch.cuda.synchronize] *)
  tr_prev : option StepRec;           (** [pairwise()]'s predecessor *)
  tr_wend : Z;                        (** end of the current window *)
  tr_buf : list (StepRec * StepRec);  (** the window's buffer *)
  tr_dead : bool                      (** [times] was disposed by an error *)
}.

Definition tr_init : TRState := MkTR false false None (t_start + one_second)%Z [] false.

(** The subscriber on one flushed window, with the [sync] of the moment. *)
Definition on_window (sync : bool) (w : Z * list (StepRec * StepRec)) : list (res Event) :=
  Ok <$> train_rate_window (if sync then Some (sync_cost w.1) else None) w.2.

(** The timer of [buffer_with_time] at time [t]: flush the windows that
    have ended and hand each to the subscriber. *)
Definition tr_flush (s : TRState) (t : Z) : TRState * list (res Event) :=
  if tr_dead s then (s, []) else
  let '(w, b, out) := flush one_second (windows_due one_second (tr_wend s) t) (tr_wend s) (tr_buf s) in
  (MkTR (tr_uc_seen s) (tr_sync s) (tr_prev s) w b false, out ≫= on_window (tr_sync s)).

(** [ov.given["?use_cuda"].first_or_default(False) >> setsync]. *)
Definition setsync (s : TRState) (ev : Event) : TRState :=
  if tr_uc_seen s then s else
  match dict_get "use_cuda" ev with
  | Some v => MkTR true (tr_sync s || py_truthy v) (tr_prev s) (tr_wend s) (tr_buf s) (tr_dead s)
  | None => s
  end.

(** [times] on the event [ev] given at [t]: select, [pairwise()], and
    append the pair to the buffer.  An error of [len] is raised to the
    giver and disposes the pipeline. *)
Definition times_step (s : TRState) (t : Z) (ev : Event) : TRState * list (res Event) :=
  if tr_dead s then (s, []) else
  match step_record t ev with
  | None => (s, [])
  | Some (Raise e) => (MkTR (tr_uc_seen s) (tr_sync s) (tr_prev s) (tr_wend s) (tr_buf s) true, [Raise e])
  | Some (Ok r) =>
      (MkTR (tr_uc_seen s) (tr_sync s) (Some r) (tr_wend s)
         (tr_buf s ++ match tr_prev s with Some p => [(p, r)] | None => [] end) false, [])
  end.

Definition tr_step (s : TRState) (e : TIn Event) : TRState * list (res Event) :=
  let '(s1, out1) := tr_flush s (tin_time e) in
  match e with
  | Item t ev => let '(s2, out2) := times_step (setsync s1 ev) t ev in (s2, out1 ++ out2)
  | Tick _ => (s1, out1)
  end.

(** At teardown [buffer_with_time] flushes what it holds. *)
Definition tr_close (s : TRState) : list (res Event) :=
  if tr_dead s then [] else on_window (tr_sync s) (tr_wend s, tr_buf s).

Definition train_rate_op : Op (TIn Event) (res Event) :=
  MkOp tr_init tr_step tr_close.

(** [where("step", "batch").kmap(batch_size=len(batch))...] on a timed event. *)
Definition step_sel (e : Z * Event) : option (res StepRec) := step_record e.1 e.2.

(** [pairwise()] and [buffer_with_time(1.0)] on the step records. *)
Definition times_core : Op (TIn StepRec) (Z * list (StepRec * StepRec)) :=
  op_tin (op_map snd |> op_pairwise) |> op_buffer_with_time one_second t_start.

(** The [times] pipeline as a composition of the stream operators.  A
    batch without a length makes [kmap] raise: the error goes down the
    chain to the subscriber, which has no [on_error], and disposes the
    chain ([op_res]); what [buffer_with_time] holds then is never
    flushed. *)
Definition times_pipeline : Op (TIn Event) (res (Z * list (StepRec * StepRec))) :=
  op_tin (op_filter_map step_sel) |> op_map tin_res |> op_res times_core.

(** The subscriber [_] of [times] without [sync]: a window gives its
    rate, an error is raised to the giver. *)
Definition on_times (r : res (Z * list (StepRec * StepRec))) : list (res Event) :=
  match r with Ok w => Ok <$> train_rate_window None w.2 | Raise x => [Raise x] end.

(** ** Refinement of the pipeline by the instrument *)

Definition tr_rel (s : TRState) (p : op_state times_pipeline) : Prop :=
  tr_sync s = false /\ p = ((tt, tt), (tr_dead s, ((tt, tr_prev s), (tr_wend s, tr_buf s)))).

(** [use_cuda], when given, is not true. *)
Definition ev_ok (e : TIn Event) : Prop :=
  match e with
  | Item _ ev => ∀ v, dict_get "use_cuda" ev = Some v -> py_truthy v = false
  | Tick _ => True
  end.

Lemma setsync_nosync s ev :
  (∀ v, dict_get "use_cuda" ev = Some v -> py_truthy v = false) -> tr_sync s = false ->
  ∃ uc, setsync s ev = MkTR uc false (tr_prev s) (tr_wend s) (tr_buf s) (tr_dead s).
Proof.
  intros Huc Hs. destruct s as [uc sy prev wend buf dead]; simpl in *; subst sy. unfold setsync; simpl.
  destruct uc; [by eexists|]. destruct (dict_get "use_cuda" ev) eqn:Eu; [|by eexists].
  rewrite (Huc _ eq_refl). by eexists.
Qed.

(** What the first stage passes on for one input: the clock reading,
    then the selected record or its error. *)
Definition stage1 (e : TIn Event) : list (TIn (res StepRec)) :=
  match e with
  | Item t ev => Tick t :: map (Item t) (match step_sel (t, ev) with Some y => [y] | None => [] end)
  | Tick t => [Tick t]
  end.

Lemma step_pipe {A B C} (o1 : Op A B) (o2 : Op B C) s1 s2 x :
  op_step (o1 |> o2) (s1, s2) x =
    (((op_step o1 s1 x).1, (feed o2 s2 (op_step o1 s1 x).2).1), (feed o2 s2 (op_step o1 s1 x).2).2).
Proof. simpl. destruct (op_step o1 s1 x) as [s1' ys]. simpl. by destruct (feed o2 s2 ys). Qed.

Lemma pipe_step q e :
  op_step times_pipeline ((tt, tt), q) e =
    (((tt, tt), (feed (op_res times_core) q (tin_res <$> stage1 e)).1),
     (feed (op_res times_core) q (tin_res <$> stage1 e)).2).
Proof.
  unfold times_pipeline. rewrite !step_pipe. unfold op_map. rewrite feed_flat.
  destruct e as [t ev|t]; cbn [op_step op_tin op_flat stage1 fst snd]; [|done].
  destruct (op_step (op_filter_map step_sel) tt (t, ev)) as [[] ys] eqn:E. unfold op_filter_map in E.
  cbn in E. injection E as <-. cbn [fst snd]. by destruct (step_sel (t, ev)).
Qed.

Lemma core_tick prev w b t :
  op_step times_core ((tt, prev), (w, b)) (Tick t) =
    (((tt, prev), ((flush one_second (windows_due one_second w t) w b).1.1,
                   (flush one_second (windows_due one_second w t) w b).1.2)),
     (flush one_second (windows_due one_second w t) w b).2).
Proof.
  simpl. destruct (flush one_second (windows_due one_second w t) w b) as [[w' b'] out].
  by rewrite app_nil_r.
Qed.

Lemma core_item prev w b t r : (t < w)%Z ->
  op_step times_core ((tt, prev), (w, b)) (Item t r) =
    (((tt, Some r), (w, b ++ match prev with Some p => [(p, r)] | None => [] end)), []).
Proof.
  intros Hw. unfold times_core. rewrite step_pipe. cbn [op_step op_tin].
  rewrite step_pipe. cbn [op_step op_map op_flat op_pairwise fst snd].
  rewrite (feed_buffer_at _ _ _ _ t); [|done|destruct prev; repeat constructor].
  destruct prev; simpl; by rewrite ?app_nil_r.
Qed.

Lemma tr_flush_live uc sy prev w b t :
  tr_flush (MkTR uc sy prev w b false) t =
    (MkTR uc sy prev (flush one_second (windows_due one_second w t) w b).1.1
          (flush one_second (windows_due one_second w t) w b).1.2 false,
     (flush one_second (windows_due one_second w t) w b).2 ≫= on_window sy).
Proof. unfold tr_flush. simpl. by destruct (flush one_second _ w b) as [[? ?] ?]. Qed.

Lemma ok_bind_on_times (l : list (Z * list (StepRec * StepRec))) :
  (Ok <$> l) ≫= on_times = l ≫= on_window false.
Proof. induction l as [|w l IH]; [done|]. rewrite fmap_cons, !bind_cons. by rewrite IH. Qed.

(** The instrument and the pipeline agree step by step. *)
Lemma tr_step_sim s p e : tr_rel s p -> ev_ok e ->
  tr_rel (op_step train_rate_op s e).1 (op_step times_pipeline p e).1 /\
  (op_step train_rate_op s e).2 = (op_step times_pipeline p e).2 ≫= on_times.
Proof.
  intros (Hs & ->) He. rewrite pipe_step.
  destruct s as [uc sy prev wend buf dead]; simpl in Hs; subst sy. cbn [tr_dead tr_prev tr_wend tr_buf].
  destruct dead.
  { rewrite feed_res_dead. destruct e as [t ev|t]; cbn [op_step train_rate_op fst snd]; unfold tr_step, tr_flush;
      cbn [tr_dead]; [|done].
    destruct (setsync_nosync (MkTR uc false prev wend buf true) ev He eq_refl) as [uc' ->]. done. }
  pose proof (windows_due_after one_second wend (tin_time e) ltac:(reflexivity)) as Ht.
  pose proof (flush_length one_second (windows_due one_second wend (tin_time e)) wend buf) as [_ Hw].
  cbn [op_step train_rate_op]. unfold tr_step. rewrite tr_flush_live.
  destruct e as [t ev|t]; cbn [stage1 tin_time] in *.
  - destruct (setsync_nosync (MkTR uc false prev (flush one_second (windows_due one_second wend t) wend buf).1.1
                (flush one_second (windows_due one_second wend t) wend buf).1.2 false) ev He eq_refl) as [uc' ->].
    unfold times_step, step_sel. cbn [tr_dead tr_prev tr_wend tr_buf tr_uc_seen tr_sync fst snd].
    destruct (step_record t ev) as [[r|x]|].
    + change (tin_res <$> Tick t :: map (Item t) [Ok r]) with (Ok <$> [Tick t; Item t r]).
      rewrite feed_res_ok, !(feed_cons times_core), core_tick. cbn [fst snd].
      rewrite core_item by (rewrite Hw; lia). cbn [fst snd feed].
      rewrite !app_nil_r, ok_bind_on_times. split; [done|]. done.
    + change (tin_res <$> Tick t :: map (Item t) [Raise x]) with ((Ok <$> [@Tick StepRec t]) ++ [@Raise (TIn StepRec) x]).
      rewrite feed_app, feed_res_ok, (feed_cons times_core), core_tick. cbn [fst snd feed].
      rewrite app_nil_r, bind_app, ok_bind_on_times. split; [done|]. done.
    + change (tin_res <$> @Tick (res StepRec) t :: map (Item t) []) with (Ok <$> [@Tick StepRec t]).
      rewrite feed_res_ok, (feed_cons times_core), core_tick. cbn [fst snd feed].
      rewrite !app_nil_r, ok_bind_on_times. split; [done|]. done.
  - change (tin_res <$> [@Tick (res StepRec) t]) with (Ok <$> [@Tick StepRec t]).
    rewrite feed_res_ok, (feed_cons times_core), core_tick. cbn [fst snd feed].
    rewrite !app_nil_r, ok_bind_on_times. split; [done|]. done.
Qed.

Lemma feed_sim s p l : tr_rel s p -> Forall ev_ok l ->
  tr_rel (feed train_rate_op s l).1 (feed times_pipeline p l).1 /\
  (feed train_rate_op s l).2 = (feed times_pipeline p l).2 ≫= on_times.
Proof.
  intros Hr Hl. revert s p Hr. induction Hl as [|e l He Hl IH]; intros s p Hr; [done|].
  rewrite !feed_cons. destruct (tr_step_sim s p e Hr He) as [Hr' Ho].
  destruct (IH _ _ Hr') as [Hr'' Ho']. split; [done|].
  rewrite Ho, Ho'. simpl. by rewrite bind_app.
Qed.

(** C1. On a bus where [use_cuda] is never true, the instrument gives
    exactly what the composed pipeline [where | kmap | pairwise |
    buffer_with_time(1.0)] hands to its subscriber: the rate of each
    flushed window, computed without [sync], and the TypeError of a batch
    without a length, after which nothing more. *)
Theorem train_rate_refines l : Forall ev_ok l ->
  run_closed train_rate_op l = run_closed times_pipeline l ≫= on_times.
Proof.
  intros Hl. unfold run_closed.
  destruct (feed_sim tr_init (op_init times_pipeline) l) as [Hr Ho]; [done|done|].
  destruct (feed train_rate_op _ l) as [s o], (feed times_pipeline _ l) as [p o'].
  simpl in *. destruct Hr as (Hs & ->). rewrite Ho, bind_app. f_equal.
  unfold tr_close. destruct s as [uc sy prev wend buf []]; simpl in *; subst sy; [done|].
  by rewrite app_nil_r.
Qed.

(** ** No step is lost before an error *)

(** The results of the selection on a clocked bus, in order: a step
    record, or the TypeError of its [len]. *)
Definition selected (l : list (TIn Event)) : list (res StepRec) := omap step_sel (omap tin_timed l).

(** The windows flushed by [times] without an error, end to end, are the
    adjacent pairs of the records. *)
Lemma core_closed_pairs m :
  concat (map snd (run_closed times_core m)) = pairs (omap tin_item m).
Proof.
  unfold times_core. rewrite run_closed_pipe, run_buffer_concat, run_tin_items, run_open_pipe,
    run_op_map, omap_tin_timed_snd. apply run_pairwise.
Qed.

(** Those flushed while the chain is live are a prefix of them. *)
Lemma core_open_pairs m :
  concat (map snd (run_open times_core m)) `prefix_of` pairs (omap tin_item m).
Proof.
  unfold times_core. rewrite run_open_pipe, run_open_tin.
  etransitivity; [apply run_open_buffer_prefix|].
  rewrite run_tin_items, run_open_pipe, run_op_map, omap_tin_timed_snd, run_pairwise. done.
Qed.

Lemma bind_singleton_fmap {A B} (f : A -> B) (l : list A) : l ≫= (λ x, [f x]) = f <$> l.
Proof. induction l as [|x l IH]; [done|]. by rewrite bind_cons, fmap_cons, IH. Qed.

Lemma selected_stage l :
  until_raise (selected l) =
    (omap tin_item (until_raise (tin_res <$> run_closed (op_tin (op_filter_map step_sel)) l)).1,
     (until_raise (tin_res <$> run_closed (op_tin (op_filter_map step_sel)) l)).2).
Proof. by rewrite <- until_raise_tin, run_tin_items, run_op_filter_map. Qed.

(** C3. What [times] hands to its subscriber is a sequence of windows,
    followed by the TypeError of the first step batch without a length
    if there is one, and nothing after it.  The windows, end to end, are
    the adjacent pairs of the step records before that error, in order,
    none duplicated: all of them when there is no error, a prefix of them
    otherwise (what the buffer held at the error is lost). *)
Theorem times_windows_pairs l :
  ∃ ws, run_closed times_pipeline l =
          (Ok <$> ws) ++ from_option (λ x, [Raise x]) [] (until_raise (selected l)).2 /\
        concat (map snd ws) `prefix_of` pairs (until_raise (selected l)).1 /\
        ((until_raise (selected l)).2 = None -> concat (map snd ws) = pairs (until_raise (selected l)).1).
Proof.
  unfold times_pipeline. rewrite !run_closed_pipe, run_res_until, selected_stage.
  unfold op_map. rewrite (proj2 (run_flat _ _)), bind_singleton_fmap.
  destruct (until_raise _) as [pre [x|]]; cbn [fst snd from_option].
  - exists (run_open times_core pre). split_and!; [done|apply core_open_pairs|done].
  - exists (run_closed times_core pre). rewrite app_nil_r, core_closed_pairs. by split_and!.
Qed.
End Instrument.

(** ** Concrete runs *)

Definition step_event (n : nat) : Event := [("step", VInt 0); ("batch", VTensor n)].

(** Steps of 32 items every 250 ms, then one 350 ms later. *)
Definition sample_bus : list (TIn Event) :=
  [Item 0 (step_event 32); Item 250000000 (step_event 32); Item 500000000 (step_event 32);
   Item 750000000 (step_event 32); Item 1100000000 (step_event 32)].

(** The first window [0, 1s) holds three pairs, 96 items over 0.75 s. *)
Example sample_bus_rates :
  map (λ r, match r with Ok ev => given_rate [ev] | Raise _ => None end)
      (run_closed (train_rate_op (λ _, 0%Z) 0) sample_bus)
  = [Some (96000000000 # 750000000); Some (32000000000 # 350000000)].
Proof. vm_compute. reflexivity. Qed.

Lemma train_rate_refines_witness :
  run_closed (train_rate_op (λ _, 0%Z) 0) sample_bus = run_closed (times_pipeline 0) sample_bus ≫= on_times.
Proof.
  apply train_rate_refines.
  repeat constructor; intros; vm_compute in *; discriminate.
Defined.

(** A step whose batch has no length: [kmap] raises, the chain is
    disposed, and the later steps give nothing. *)
Definition error_bus : list (TIn Event) :=
  [Item 0 (step_event 32); Item 100000000 [("step", VInt 1); ("batch", VInt 5)];
   Item 200000000 (step_event 32); Item 300000000 (step_event 32)].

Example error_bus_times :
  run_closed (times_pipeline 0) error_bus = [Raise (TypeError "object has no len()")].
Proof. reflexivity. Qed.

Lemma train_rate_window_positive_witness :
  given_rate (train_rate_window None [(MkStep 0 32, MkStep 250000000 32)]) = Some (32 / ns_to_sec 250000000)%Q
  /\ (0 < 32 / ns_to_sec 250000000)%Q.
Proof.
  split; [reflexivity|].
  apply (train_rate_window_positive None [(MkStep 0 32, MkStep 250000000 32)]).
  - simpl. lia.
  - repeat constructor. unfold pair_elapsed. simpl. lia.
  - reflexivity.
Defined.

End TrainRate.
