(* ===== verification/Stop.v ===== *)
(** * The [stop] instrument (instruments.py, lines 92-111)

    A parametrized instrument: [--stop N] (an [int], default 0).  At
    [load_script] (priority -100) and when [N] is truthy it subscribes two
    pipelines to the [train_rate] events: [map_indexed] gives a progress
    dictionary [{progress: idx, total: N, descr: "train"}] for each, and
    [skip(N) >> _stop] calls [ov.stop(value)] on the events after the
    [N]th.  The closure variable [called] makes [_stop] fire once: the
    source notes that the stop signal creates another [train_rate], so
    [_stop] is reached twice.

    [stop_pipelines] is the two subscriptions merged in subscription order;
    [stop_instrument] is the whole body after the yield, with the
    parameter test.  The theorems show the signal fires exactly once, on
    the [N+1]st train rate, also when the signal re-enters the bus. *)

From S2P Require Import Prelude Stream.
Local Open Scope nat_scope.

Module Stop.

(** What the instrument does on the bus: give a dictionary, or call
    [ov.stop(value)]. *)
Inductive StopOut := Give (ev : Event) | StopSignal (value : Event).

Definition is_signal (o : StopOut) : Prop := ∃ v, o = StopSignal v.
#[export] Instance is_signal_dec o : Decision (is_signal o).
Proof. destruct o; [right; intros [? ?]; congruence|left; by eexists]. Defined.

Definition is_give (o : StopOut) : Prop := ∃ ev, o = Give ev.
#[export] Instance is_give_dec o : Decision (is_give o).
Proof. destruct o; [left; by eexists|right; intros [? ?]; congruence]. Defined.

(** [ov.given.where("train_rate")]. *)
Definition is_train_rate (ev : Event) : bool := dict_has "train_rate" ev.

(** [lambda _, idx: {"progress": idx, "total": stop, "descr": "train"}]. *)
Definition progress_event (stop : Z) (idx : nat) : Event :=
  [("progress", VInt (Z.of_nat idx)); ("total", VInt stop); ("descr", VStr "train")].

(** [_stop] with its closure variable [called]. *)
Definition op_stop_once : Op Event StopOut :=
  MkOp (op_state := bool) false
    (λ called value, if called then (true, []) else (true, [StopSignal value]))
    (λ _, []).

(** [steps.map_indexed(...).give()] then [steps.skip(stop) >> _stop]. *)
Definition stop_pipelines (stop : Z) : Op Event StopOut :=
  op_merge
    (op_filter is_train_rate |> op_map_indexed (λ _ idx, progress_event stop idx) |> op_map Give)
    (op_filter is_train_rate |> op_skip (Z.to_nat stop) |> op_stop_once).

(** The body after the yield: nothing when [stop] is 0; reactivex's
    [skip] refuses a negative count. *)
Definition stop_instrument (stop : Z) : res (option (Op Event StopOut)) :=
  if Z.eqb stop 0 then Ok None
  else if Z.ltb stop 0 then Raise (ValueError "ArgumentOutOfRangeException")
  else Ok (Some (stop_pipelines stop)).

(** ** Lemmas *)

Lemma feed_stop_once_called l : feed op_stop_once true l = (true, []).
Proof. by apply (feed_absorbing op_stop_once true). Qed.

Lemma run_stop_once l :
  run_open op_stop_once l = match l with v :: _ => [StopSignal v] | [] => [] end.
Proof.
  unfold run_open. destruct l as [|v l]; [done|]. simpl. by rewrite feed_stop_once_called.
Qed.

Lemma filter_signal_gives l :
  filter is_signal (map Give l) = [].
Proof. apply filter_none. intros y (ev & -> & _)%list_elem_of_fmap [v ?]. done. Qed.

Lemma filter_give_signals (l : list StopOut) :
  (∀ y, y ∈ l -> is_signal y) -> filter is_give l = [].
Proof. intros Hl. apply filter_none. intros y Hy [ev ->]. destruct (Hl _ Hy). done. Qed.

Lemma first_of_drop {A} k (l : list A) :
  match drop k l with v :: _ => Some v | [] => None end = l !! k.
Proof.
  revert l. induction k as [|k IH]; intros [|x l]; simpl; auto.
Qed.

Lemma signals_stop_once (l : list Event) :
  filter is_signal (run_open op_stop_once l) = run_open op_stop_once l.
Proof.
  rewrite run_stop_once. destruct l; [done|]. rewrite filter_cons_True; [done|]. by eexists.
Qed.

(** The progress subscription gives only dictionaries. *)
Lemma progress_no_signal stop s x y :
  y ∈ (op_step (op_filter is_train_rate |> op_map_indexed (λ _ idx, progress_event stop idx)
                |> op_map Give) s x).2 -> ¬ is_signal y.
Proof.
  destruct s as [[[] i] []]. simpl. destruct (is_train_rate x); simpl;
    [rewrite list_elem_of_singleton; intros -> [? ?]; congruence|set_solver].
Qed.

(** The stop subscription only signals. *)
Lemma stop_no_give stop s x y :
  y ∈ (op_step (op_filter is_train_rate |> op_skip (Z.to_nat stop) |> op_stop_once) s x).2 ->
  ¬ is_give y.
Proof.
  destruct s as [[[] seen] called]. simpl. destruct (is_train_rate x); simpl; [|set_solver].
  case_decide; simpl; [|set_solver]. destruct called; simpl; [set_solver|].
  rewrite list_elem_of_singleton. intros -> [? ?]. congruence.
Qed.

(** The signals of the instrument are the outputs of [_stop] on the
    train rates after the first [N]. *)
Lemma stop_signal_outputs stop l :
  filter is_signal (run_open (stop_pipelines stop) l) =
    run_open op_stop_once (drop (Z.to_nat stop) (filter is_train_rate l)).
Proof.
  unfold stop_pipelines. rewrite run_merge_filter by apply progress_no_signal.
  by rewrite !run_open_pipe, signals_stop_once, run_op_filter, run_skip.
Qed.

(** ** Properties *)

(** C2. Whatever the bus carries, [stop] signals at most once, and it
    signals exactly when there is an [N+1]st [train_rate] event, with that
    event as the value given to [ov.stop]. *)
Theorem stop_signals_once stop l :
  filter is_signal (run_open (stop_pipelines stop) l) =
    match filter is_train_rate l !! Z.to_nat stop with
    | Some v => [StopSignal v]
    | None => []
    end.
Proof.
  rewrite stop_signal_outputs, run_stop_once, <- first_of_drop. by destruct (drop _ _).
Qed.

(** C18. For the [i]th [train_rate] event (from 0), [stop] gives the
    progress dictionary [{progress: i, total: N, descr: "train"}]. *)
Theorem stop_progress stop l :
  filter is_give (run_open (stop_pipelines stop) l) =
    imap (λ i _, Give (progress_event stop i)) (filter is_train_rate l).
Proof.
  unfold stop_pipelines. rewrite run_merge_filter_l by apply stop_no_give.
  rewrite !run_open_pipe, run_op_filter, run_map_indexed, run_op_map, filter_all.
  - by rewrite map_imap.
  - intros y (ev & <- & _)%list_elem_of_In%in_map_iff. by eexists.
Qed.

(** ** Re-entrant delivery

    The source notes that the stop signal creates another [train_rate]:
    [ov.stop(value)] gives an event that reaches the subscriptions while
    [_stop] runs.  [run_reentrant] delivers the bus [l] to an operator and
    delivers [echo v] right after each signal [StopSignal v].  It returns
    the sequence actually delivered and the outputs, or [None] when its
    fuel runs out. *)
Definition echoes (echo : Event -> Event) (ys : list StopOut) : list Event :=
  ys ≫= (λ y, match y with StopSignal v => [echo v] | Give _ => [] end).

Fixpoint run_reentrant (o : Op Event StopOut) (echo : Event -> Event) (fuel : nat)
    (s : op_state o) (l : list Event) : option (list Event * list StopOut) :=
  match fuel with
  | 0 => None
  | S fuel' =>
      match l with
      | [] => Some ([], [])
      | x :: l' =>
          let '(s1, ys) := op_step o s x in
          '(d, zs) ← run_reentrant o echo fuel' s1 (echoes echo ys ++ l');
          Some (x :: d, ys ++ zs)
      end
  end.

Section Reentrant.
Context (o : Op Event StopOut) (echo : Event -> Event).

Lemma run_reentrant_feed fuel s l d outs :
  run_reentrant o echo fuel s l = Some (d, outs) -> outs = (feed o s d).2 /\ l `sublist_of` d.
Proof.
  revert s l d outs. induction fuel as [|fuel IH]; intros s l d outs; [done|].
  destruct l as [|x l]; simpl; [intros [= <- <-]; done|].
  destruct (op_step o s x) as [s1 ys] eqn:Hs.
  destruct (run_reentrant o echo fuel s1 _) as [[d' zs]|] eqn:Hr; [|done]. simpl.
  intros [= <- <-]. destruct (IH _ _ _ _ Hr) as [-> Hsub].
  rewrite feed_cons, Hs. split; [done|]. apply sublist_skip.
  transitivity (echoes echo ys ++ l); [by apply sublist_inserts_l|done].
Qed.

(** A budget of signals: a step spends from it what it signals. *)
Context (budget : op_state o -> nat).
Hypothesis budget_step : ∀ s x,
  budget (op_step o s x).1 + length (echoes echo (op_step o s x).2) ≤ budget s.

Lemma run_reentrant_total fuel s l :
  length l + budget s < fuel -> is_Some (run_reentrant o echo fuel s l).
Proof.
  revert s l. induction fuel as [|fuel IH]; intros s l Hf; [lia|].
  destruct l as [|x l]; simpl; [by eexists|].
  pose proof (budget_step s x) as Hb. destruct (op_step o s x) as [s1 ys]. simpl in *.
  destruct (IH s1 (echoes echo ys ++ l)) as [[d zs] ->]; [rewrite length_app; lia|].
  by eexists.
Qed.
End Reentrant.

(** [called] is the budget of the stop instrument. *)
Definition stop_budget stop (s : op_state (stop_pipelines stop)) : nat :=
  if s.2.2 then 0 else 1.

Lemma stop_budget_step stop echo s x :
  stop_budget stop (op_step (stop_pipelines stop) s x).1 +
    length (echoes echo (op_step (stop_pipelines stop) s x).2) ≤ stop_budget stop s.
Proof.
  destruct s as [[[[] i] []] [[[] seen] called]]. unfold stop_budget. simpl.
  destruct (is_train_rate x); simpl; [|destruct called; simpl; lia].
  case_decide; simpl; [|destruct called; simpl; lia].
  destruct called; simpl; lia.
Qed.

(** C4. When [ov.stop] gives another [train_rate] re-entrantly, the run
    still terminates (with fuel two above the length of the bus), signals
    at most once, and signals when the bus has more than [N] train rates. *)
Theorem stop_reentrant_once stop echo l :
  ∃ d outs, run_reentrant (stop_pipelines stop) echo (length l + 2) (op_init _) l = Some (d, outs) /\
    length (filter is_signal outs) ≤ 1 /\
    (Z.to_nat stop < length (filter is_train_rate l) -> length (filter is_signal outs) = 1).
Proof.
  destruct (run_reentrant_total (stop_pipelines stop) echo (stop_budget stop)
              (stop_budget_step stop echo) (length l + 2) (op_init _) l) as [[d outs] Hr];
    [unfold stop_budget; simpl; lia|].
  exists d, outs. split; [done|].
  destruct (run_reentrant_feed _ _ _ _ _ _ _ Hr) as [-> Hsub].
  change (feed _ _ d).2 with (run_open (stop_pipelines stop) d).
  rewrite stop_signal_outputs, run_stop_once.
  split; [destruct (drop _ _); simpl; lia|]. intros Hlt.
  destruct (drop (Z.to_nat stop) (filter is_train_rate d)) eqn:E; [|done].
  apply (f_equal length) in E. rewrite length_drop in E. simpl in E.
  pose proof (sublist_length _ _ (filter_sublist_mono (λ x, is_train_rate x) _ _ Hsub)). lia.
Qed.

(** ** Concrete runs *)

Definition train_rate_event (r : Z) : Event := [("train_rate", VInt r); ("units", VStr "items/s")].

(** With [--stop 3] and five train rates, the fourth one stops, once. *)
Example stop_3_of_5 :
  filter is_signal (run_open (stop_pipelines 3) (map train_rate_event [1; 2; 3; 4; 5]%Z))
  = [StopSignal (train_rate_event 4)].
Proof. reflexivity. Qed.

(** Re-entrant: the echo of the signal is a sixth train rate; still one signal. *)
Example stop_3_reentrant :
  option_map (λ r, length (filter is_signal r.2))
    (run_reentrant (stop_pipelines 3) id 7 (op_init _) (map train_rate_event [1; 2; 3; 4; 5]%Z))
  = Some 1.
Proof. reflexivity. Qed.

End Stop.
