(* ===== verification/Verify.v ===== *)
(** * The [verify] instrument (instruments.py, lines 250-281)

    Gated by [--verify].  At [parse_args] it requires the [dash],
    [train_rate], [loading_rate] and [compute_rate] instruments, then
    subscribes to [ov.given["?loss"]]: the first loss is given back as
    [initial_loss]; [(first | last).pairwise()] sends
    [verify.loss_decreases = last < first]; [last] sends
    [verify.loss_below_threshold = last < 1]; and for each of
    [train_rate], [loading_rate], [compute_rate] the negation of
    [is_empty()] is sent as [verify.has_<field>].  The results go to
    [ov.send], the [update_with] of the [dash] instrument, not to the bus.

    [verify_op] is the merge of these subscriptions in the order the source
    makes them; [run_closed] runs it until teardown, where [last()] and
    [is_empty()] resolve. *)

From S2P Require Import Prelude Stream.
Local Open Scope nat_scope.

Module Verify.

(** What [verify] does: give a dictionary on the bus, or send the value
    of a named check to [ov.send] ([.as_(name) >> ov.send]); the value is
    the result of the check's computation, which may raise. *)
Inductive VOut := VGive (ev : Event) | VSend (name : string) (r : res Value).

(** The dictionary that [ov.send] receives for a sent check. *)
Definition sent_dict (name : string) (v : Value) : Event := [(name, v)].

(** [ov.given["?loss"]]. *)
Definition losses : Op Event Value := op_filter_map (dict_get "loss").

(** [first_loss.give("initial_loss")]. *)
Definition initial_loss_pipe : Op Event VOut :=
  losses |> op_first |> op_map (λ v, VGive [("initial_loss", v)]).

(** [(first_loss | last_loss).pairwise().starmap(lambda fl, ll: ll < fl)
    .as_("verify.loss_decreases") >> ov.send]. *)
Definition loss_decreases_pipe : Op Event VOut :=
  losses |> op_merge op_first op_last |> op_pairwise
    |> op_map (λ p, VSend "verify.loss_decreases" (VBool <$> py_lt p.2 p.1)).

(** [last_loss.map(lambda x: x < 1).as_("verify.loss_below_threshold")]. *)
Definition loss_below_pipe : Op Event VOut :=
  losses |> op_last
    |> op_map (λ x, VSend "verify.loss_below_threshold" (VBool <$> py_lt x (VInt 1))).

(** [ov.given.getitem(field, strict=False).is_empty().map(lambda x: not x)
    .as_(f"verify.has_{field}") >> ov.send]. *)
Definition has_field_pipe (field : string) : Op Event VOut :=
  op_filter_map (dict_get field) |> op_is_empty
    |> op_map (λ x, VSend ("verify.has_" +:+ field) (Ok (VBool (negb x)))).

Definition verify_fields : list string := ["train_rate"; "loading_rate"; "compute_rate"].

Definition verify_op : Op Event VOut :=
  op_merge initial_loss_pipe
    (op_merge loss_decreases_pipe
      (op_merge loss_below_pipe
        (op_merge (has_field_pipe "train_rate")
          (op_merge (has_field_pipe "loading_rate") (has_field_pipe "compute_rate"))))).

(** The outputs of one named check. *)
Definition is_send (name : string) (y : VOut) : Prop :=
  match y with VSend n _ => n = name | VGive _ => False end.
#[export] Instance is_send_dec name y : Decision (is_send name y).
Proof. destruct y; simpl; [right; intros []|apply _]. Defined.

Definition is_give (y : VOut) : Prop := match y with VGive _ => True | VSend _ _ => False end.
#[export] Instance is_give_dec y : Decision (is_give y).
Proof. destruct y; simpl; apply _. Defined.

(** The loss values given on the bus, in order. *)
Definition loss_values (l : list Event) : list Value := omap (dict_get "loss") l.

(** ** Each subscription sends under its own name *)

Lemma silent_send_map {A B} (o : Op A B) (name other : string) (f : B -> res Value) :
  name ≠ other -> silent (is_send other) (o |> op_map (λ x, VSend name (f x))).
Proof. intros Hne. apply silent_map. intros z. exact Hne. Qed.

Lemma silent_initial_loss name : silent (is_send name) initial_loss_pipe.
Proof. unfold initial_loss_pipe. apply silent_map. intros z []. Qed.

Lemma silent_has_field field name :
  "verify.has_" +:+ field ≠ name -> silent (is_send name) (has_field_pipe field).
Proof. intros Hne. unfold has_field_pipe. apply silent_map. intros z. exact Hne. Qed.

Lemma silent_sends : silent is_give (op_merge loss_decreases_pipe (op_merge loss_below_pipe
    (op_merge (has_field_pipe "train_rate")
      (op_merge (has_field_pipe "loading_rate") (has_field_pipe "compute_rate"))))).
Proof. repeat apply silent_merge; apply silent_map; intros z []. Qed.

Lemma filter_sends {A} (o : Op A (res Value)) name l :
  filter (is_send name) (map (λ r, VSend name r) l) = map (λ r, VSend name r) l.
Proof. apply filter_all. intros y (r & <- & _)%list_elem_of_In%in_map_iff. done. Qed.

Ltac peel_merges :=
  repeat first
    [ rewrite run_silent_merge by (apply silent_initial_loss)
    | rewrite run_silent_merge by (apply silent_send_map; done)
    | rewrite run_silent_merge by (apply silent_has_field; done)
    | rewrite run_silent_merge_l by (repeat apply silent_merge; apply silent_map; done) ].

(** [is_empty()] on [getitem(field, strict=False)] sends whether some
    dictionary carried the field. *)
Lemma has_field_sends f l :
  filter (is_send ("verify.has_" +:+ f)) (run_closed (has_field_pipe f) l) =
    [VSend ("verify.has_" +:+ f) (Ok (VBool (existsb (dict_has f) l)))].
Proof.
  unfold has_field_pipe. rewrite !run_closed_pipe, run_closed_map, run_is_empty,
    run_closed_filter_map. simpl. rewrite filter_cons_True by done. do 4 f_equal.
  induction l as [|ev l IH]; [done|]. simpl. unfold dict_has.
  destruct (dict_get f ev); [done|]. apply IH.
Qed.

(** ** Properties *)

(** What the loss checks send, once the bus is torn down. *)
Lemma loss_decreases_sends l :
  filter (is_send "verify.loss_decreases") (run_closed verify_op l) =
    match loss_values l with
    | [] => []
    | fl :: _ => [VSend "verify.loss_decreases" (VBool <$> py_lt (default fl (last (loss_values l))) fl)]
    end.
Proof.
  unfold verify_op. peel_merges. unfold loss_decreases_pipe.
  rewrite !run_closed_pipe, run_closed_map, run_closed_pairwise, run_first_last.
  unfold losses. rewrite run_closed_filter_map. fold (loss_values l).
  destruct (loss_values l) as [|fl rest]; [done|]. simpl. rewrite filter_cons_True; done.
Qed.

Lemma loss_below_sends l :
  filter (is_send "verify.loss_below_threshold") (run_closed verify_op l) =
    match last (loss_values l) with
    | Some ll => [VSend "verify.loss_below_threshold" (VBool <$> py_lt ll (VInt 1))]
    | None => []
    end.
Proof.
  unfold verify_op. peel_merges. unfold loss_below_pipe.
  rewrite !run_closed_pipe, run_closed_map, (proj2 (run_last _)).
  unfold losses. rewrite run_closed_filter_map. fold (loss_values l).
  destruct (last (loss_values l)); [|done]. simpl. rewrite filter_cons_True; done.
Qed.

Lemma has_field_sends_op field l :
  field ∈ verify_fields ->
  filter (is_send ("verify.has_" +:+ field)) (run_closed verify_op l) =
    [VSend ("verify.has_" +:+ field) (Ok (VBool (existsb (dict_has field) l)))].
Proof.
  intros Hf. unfold verify_fields in Hf.
  repeat apply elem_of_cons in Hf as [->|Hf]; [| | |set_solver]; unfold verify_op; peel_merges;
    apply has_field_sends.
Qed.

(** C16. [verify.loss_decreases] is sent once the bus is torn down if a loss
    was given, with the value [last < first] of the first and last
    losses; nothing is sent when no loss was given. *)
Theorem verify_loss_decreases l :
  filter (is_send "verify.loss_decreases") (run_closed verify_op l) =
    match loss_values l with
    | [] => []
    | fl :: _ => [VSend "verify.loss_decreases" (VBool <$> py_lt (default fl (last (loss_values l))) fl)]
    end.
Proof. apply loss_decreases_sends. Qed.

(** C28. [verify.loss_below_threshold] is sent at teardown with the value
    [last < 1]: the threshold is the constant 1 of the source. *)
Theorem verify_loss_below l :
  filter (is_send "verify.loss_below_threshold") (run_closed verify_op l) =
    match last (loss_values l) with
    | Some ll => [VSend "verify.loss_below_threshold" (VBool <$> py_lt ll (VInt 1))]
    | None => []
    end.
Proof. apply loss_below_sends. Qed.

(** C19. For each of [train_rate], [loading_rate] and [compute_rate],
    [verify.has_<field>] is sent once, true exactly when some given
    dictionary carries the field. *)
Theorem verify_has_field field l :
  field ∈ verify_fields ->
  filter (is_send ("verify.has_" +:+ field)) (run_closed verify_op l) =
    [VSend ("verify.has_" +:+ field) (Ok (VBool (existsb (dict_has field) l)))].
Proof. apply has_field_sends_op. Qed.

(** C20. The only dictionary [verify] gives on the bus is [initial_loss]
    (the first loss); every check goes to [ov.send] instead. *)
Theorem verify_gives l :
  filter is_give (run_closed verify_op l) =
    match loss_values l with [] => [] | fl :: _ => [VGive [("initial_loss", fl)]] end.
Proof.
  unfold verify_op. rewrite run_silent_merge_l by apply silent_sends.
  unfold initial_loss_pipe. rewrite !run_closed_pipe, run_closed_map, (proj2 (run_first _)).
  unfold losses. rewrite run_closed_filter_map. fold (loss_values l).
  destruct (loss_values l); [done|]. simpl. rewrite filter_cons_True; done.
Qed.

(** ** The spec's examples *)

Definition loss_event (q : Q) : Event := [("loss", VNum q)].

Example verify_losses_decreasing :
  filter (λ y, is_send "verify.loss_decreases" y \/ is_send "verify.loss_below_threshold" y)
    (run_closed verify_op (map loss_event [2; 3#2; 4#5]%Q)) =
  [VSend "verify.loss_decreases" (Ok (VBool true)); VSend "verify.loss_below_threshold" (Ok (VBool true))].
Proof. vm_compute. reflexivity. Qed.

Example verify_losses_flat :
  filter (is_send "verify.loss_decreases") (run_closed verify_op (map loss_event [1; 1]%Q)) =
  [VSend "verify.loss_decreases" (Ok (VBool false))].
Proof. vm_compute. reflexivity. Qed.

Lemma verify_has_field_witness :
  filter (is_send ("verify.has_" +:+ "train_rate"))
    (run_closed verify_op [loss_event 1; [("train_rate", VInt 3)]]) =
  [VSend ("verify.has_" +:+ "train_rate") (Ok (VBool (existsb (dict_has "train_rate") [loss_event 1; [("train_rate", VInt 3)]])))].
Proof. apply verify_has_field. unfold verify_fields. left. Defined.

End Verify.
