(* ===== verification/Dash.v ===== *)
(** * The [dash] instrument's live table (instruments.py, lines 17-89)

    Gated by [--dash].  At [init] it builds a [rich] table and a dictionary
    [rows] from key to the object displayed in the table's row, subscribes
    [update_with] to the bus (the dictionaries without [silent]) and
    installs it as [ov.send], through which [verify] reports.

    [update_with] is modelled whole: a dictionary with [total], [progress]
    and [descr] updates (or creates) the progress bar of key
    ["\[descr]"]; any other dictionary updates (or creates) one [Plain] row
    per key, except the keys starting with [$] or [#] and [units].  The
    table holds the very objects of [rows] (an update through [rows] is
    what the table shows), so the state keeps [rows] as a map and the table
    as the list of keys of its rows, in the order they were added.  The
    subscriptions that call [update_with], and the stdout/stderr echo, are
    in [DashBus]. *)

From S2P Require Import Prelude.
From stdpp Require Import gmap.
Local Open Scope nat_scope.

Module Dash.

(** A row object: a [ProgressBar] with its [total] and [completed]
    (unset when created), or a [Plain] with its [_object] and [fmt]. *)
Inductive Row :=
| RBar (total completed : option Value)
| RPlain (obj : Value) (fmt : string).

(** [Plain(x, fmt="{}")]. *)
Definition Plain (x : Value) (fmt : string) : Row := RPlain x fmt.

Record DashState := MkDash {
  rows : gmap string Row;      (** [rows] *)
  table : list string          (** the keys of the table's rows, in order *)
}.

Definition dash_init : DashState := MkDash ∅ [].

(** [k.startswith("$") or k.startswith("#") or k == "units"]. *)
Definition skipped_key (k : string) : bool :=
  String.prefix "$" k || String.prefix "#" k || String.eqb k "units".

(** The progress branch: [k = f"\\[{values['descr']}]"]; create the bar
    when [k not in rows], then [progress_bar.update(total=..., completed=...)].
    A [Plain] row under that key has no [update]: AttributeError. *)
Definition update_progress (total progress descr : Value) (s : DashState) : res DashState :=
  let k := "\[" +:+ py_str descr +:+ "]" in
  let s1 := match rows s !! k with
            | Some _ => s
            | None => MkDash (<[k := RBar None None]> (rows s)) (table s ++ [k])
            end in
  match rows s1 !! k with
  | Some (RBar _ _) => Ok (MkDash (<[k := RBar (Some total) (Some progress)]> (rows s1)) (table s1))
  | _ => Raise (AttributeError "'Plain' object has no attribute 'update'")
  end.

(** [Plain(v, f"{{}} {units}")] when [units] is truthy, [Plain(v)]
    otherwise. *)
Definition units_fmt (units : option Value) : string :=
  match units with
  | Some u => if py_truthy u then "{} " +:+ py_str u else "{}"
  | None => "{}"
  end.

(** One [(k, v)] of the loop over [values.items()]. *)
Definition update_item (units : option Value) (s : DashState) (kv : string * Value) : DashState :=
  let '(k, v) := kv in
  if skipped_key k then s else
  match rows s !! k with
  | Some (RPlain _ fmt) => MkDash (<[k := RPlain v fmt]> (rows s)) (table s)
  | Some (RBar _ _) => s   (** [_object] set on a bar: not displayed *)
  | None =>
      MkDash (<[k := Plain v (units_fmt units)]> (rows s)) (table s ++ [k])
  end.

Definition update_with (values : Event) (s : DashState) : res DashState :=
  match dict_get "total" values, dict_get "progress" values, dict_get "descr" values with
  | Some total, Some progress, Some descr => update_progress total progress descr s
  | _, _, _ => Ok (foldl (update_item (dict_get "units" values)) s values)
  end.

(** ** The table invariant *)

(** Every key of the table has one row, and every row is in the table. *)
Definition dash_wf (s : DashState) : Prop :=
  NoDup (table s) /\ ∀ k, k ∈ table s <-> is_Some (rows s !! k).

Lemma wf_insert_new s k r :
  dash_wf s -> rows s !! k = None -> dash_wf (MkDash (<[k := r]> (rows s)) (table s ++ [k])).
Proof.
  intros [Hnd Hk] Hnone. split; simpl.
  - apply NoDup_app. split_and!; [done| |apply NoDup_singleton].
    intros x Hx ->%list_elem_of_singleton. apply Hk in Hx. rewrite Hnone in Hx. by destruct Hx.
  - intros k'. rewrite elem_of_app, list_elem_of_singleton, Hk, lookup_insert.
    case_decide; subst; [naive_solver|]. naive_solver.
Qed.

Lemma wf_insert_old s k r :
  dash_wf s -> is_Some (rows s !! k) -> dash_wf (MkDash (<[k := r]> (rows s)) (table s)).
Proof.
  intros [Hnd Hk] Hsome. split; simpl; [done|].
  intros k'. rewrite Hk, lookup_insert. case_decide; subst; naive_solver.
Qed.

#[export] Hint Resolve wf_insert_new wf_insert_old : mb.

Lemma update_item_wf units s kv : dash_wf s -> dash_wf (update_item units s kv).
Proof.
  destruct kv as [k v]. intros Hwf. unfold update_item.
  destruct (skipped_key k); [done|].
  destruct (rows s !! k) as [[]|] eqn:E; eauto with mb.
Qed.


Lemma foldl_update_item_wf units s values :
  dash_wf s -> dash_wf (foldl (update_item units) s values).
Proof.
  revert s. induction values as [|kv values IH]; intros s Hwf; [done|]. simpl.
  by apply IH, update_item_wf.
Qed.


Lemma update_progress_cases total progress descr s s' :
  update_progress total progress descr s = Ok s' ->
  let k := "\[" +:+ py_str descr +:+ "]" in
  (rows s !! k = None /\ s' = MkDash (<[k := RBar (Some total) (Some progress)]> (rows s)) (table s ++ [k])) \/
  (∃ t c, rows s !! k = Some (RBar t c) /\ s' = MkDash (<[k := RBar (Some total) (Some progress)]> (rows s)) (table s)).
Proof.
  unfold update_progress. simpl. destruct (rows s !! _) as [[t c|]|] eqn:E; simpl.
  - rewrite E. intros [= <-]. right. eauto.
  - rewrite E. done.
  - rewrite lookup_insert_eq. intros [= <-]. left. simpl. by rewrite insert_insert_eq.
Qed.

Lemma update_item_other units s k' v' k :
  k' ≠ k -> rows (update_item units s (k', v')) !! k = rows s !! k.
Proof.
  intros Hne. unfold update_item. destruct (skipped_key k'); [done|].
  destruct (rows s !! k') as [[]|]; simpl; by rewrite ?lookup_insert_ne.
Qed.

Lemma foldl_update_item_other units s values k :
  k ∉ map fst values -> rows (foldl (update_item units) s values) !! k = rows s !! k.
Proof.
  revert s. induction values as [|[k' v'] values IH]; intros s Hk; [done|].
  cbn [foldl map fst] in *. rewrite IH by set_solver. apply update_item_other. set_solver.
Qed.

(** The row a plain update leaves under a displayed key. *)
Definition plain_row (units : option Value) (old : option Row) (v : Value) : option Row :=
  match old with
  | Some (RPlain _ fmt) => Some (RPlain v fmt)
  | Some (RBar t c) => Some (RBar t c)
  | None => Some (Plain v (units_fmt units))
  end.

Lemma foldl_update_item_key units s values k v :
  NoDup (map fst values) -> (k, v) ∈ values -> skipped_key k = false ->
  rows (foldl (update_item units) s values) !! k = plain_row units (rows s !! k) v.
Proof.
  revert s. induction values as [|[k' v'] values IH]; intros s Hnd Hin Hsk; [set_solver|].
  cbn [foldl map fst] in *. apply NoDup_cons in Hnd as [Hk' Hnd].
  apply elem_of_cons in Hin as [[= <- <-]|Hin].
  - rewrite foldl_update_item_other by done. unfold update_item. rewrite Hsk.
    destruct (rows s !! k) as [[]|] eqn:E; simpl; by rewrite ?lookup_insert_eq, ?E.
  - assert (k' ≠ k) by (intros ->; apply Hk', list_elem_of_In, in_map_iff; exists (k, v); split;
      [done|by apply list_elem_of_In]).
    rewrite IH by done. by rewrite update_item_other.
Qed.

Lemma update_item_skipped units s kv k :
  skipped_key k = true -> rows (update_item units s kv) !! k = rows s !! k.
Proof.
  destruct kv as [k' v']. intros Hk. destruct (decide (k' = k)) as [->|Hne].
  - unfold update_item. by rewrite Hk.
  - by apply update_item_other.
Qed.

Lemma foldl_update_item_skipped units s values k :
  skipped_key k = true -> rows (foldl (update_item units) s values) !! k = rows s !! k.
Proof.
  intros Hk. revert s. induction values as [|kv values IH]; intros s; [done|].
  cbn [foldl]. by rewrite IH, update_item_skipped.
Qed.

(** ** Properties *)

(** C17. [update_with] keeps the table and [rows] in step: every key of the
    table has exactly one row, and every row is shown once. *)
Theorem update_with_wf values s s' :
  dash_wf s -> update_with values s = Ok s' -> dash_wf s'.
Proof.
  intros Hwf. unfold update_with.
  destruct (dict_get "total" values), (dict_get "progress" values), (dict_get "descr" values);
    try (intros [= <-]; by apply foldl_update_item_wf).
  intros [[Hn ->]|(t & c & Hs & ->)]%update_progress_cases; eauto with mb.
Qed.


(** A dictionary that takes the progress branch. *)
Definition is_progress (values : Event) : Prop :=
  is_Some (dict_get "total" values) /\ is_Some (dict_get "progress" values) /\
  is_Some (dict_get "descr" values).

(** C27. A dictionary without [total]/[progress]/[descr] (keys distinct,
    as in a Python dict) sets each displayed key's row to its value: an
    existing [Plain] keeps its format, a new one is formatted with the
    dictionary's [units]; a progress bar under that key is left as is. *)
Theorem update_with_plain values s k v :
  NoDup (map fst values) -> ¬ is_progress values -> (k, v) ∈ values -> skipped_key k = false ->
  ∃ s', update_with values s = Ok s' /\
        rows s' !! k = plain_row (dict_get "units" values) (rows s !! k) v.
Proof.
  intros Hnd Hnp Hin Hsk. unfold update_with.
  destruct (dict_get "total" values) eqn:E1, (dict_get "progress" values) eqn:E2,
    (dict_get "descr" values) eqn:E3;
    try (eexists; split; [done|]; by apply foldl_update_item_key).
  exfalso. apply Hnp. unfold is_progress. rewrite E1, E2, E3. done.
Qed.

(** C31. Keys starting with [$] or [#], and [units], never get a row of
    their own through a plain update. *)
Theorem update_with_skipped values s s' k :
  ¬ is_progress values -> skipped_key k = true -> update_with values s = Ok s' ->
  rows s' !! k = rows s !! k.
Proof.
  intros Hnp Hk. unfold update_with.
  destruct (dict_get "total" values) eqn:E1, (dict_get "progress" values) eqn:E2,
    (dict_get "descr" values) eqn:E3;
    try (intros [= <-]; by apply foldl_update_item_skipped).
  exfalso. apply Hnp. unfold is_progress. rewrite E1, E2, E3. done.
Qed.

(** ** Concrete runs *)

Lemma dash_init_wf : dash_wf dash_init.
Proof.
  split; [constructor|]. intros k. simpl. rewrite lookup_empty. split; [set_solver|by intros []].
Qed.

(** The dictionary that [train_rate] gives. *)
Definition sample_values : Event := [("train_rate", VNum 128); ("units", VStr "items/s")].

Definition after (values : Event) (s : DashState) : DashState :=
  match update_with values s with Ok s' => s' | Raise _ => s end.

Example sample_table : table (after sample_values dash_init) = ["train_rate"].
Proof. reflexivity. Qed.

Example sample_row : rows (after sample_values dash_init) !! "train_rate" = Some (RPlain (VNum 128) "{} items/s").
Proof. reflexivity. Qed.

Lemma update_with_wf_witness : dash_wf (after sample_values dash_init).
Proof. apply (update_with_wf sample_values dash_init); [apply dash_init_wf|reflexivity]. Defined.


Lemma update_with_plain_witness :
  ∃ s', update_with sample_values dash_init = Ok s' /\
        rows s' !! "train_rate" = plain_row (dict_get "units" sample_values) (rows dash_init !! "train_rate") (VNum 128).
Proof.
  apply update_with_plain.
  - repeat constructor; set_solver.
  - intros (_ & _ & []). discriminate.
  - left.
  - reflexivity.
Defined.

Lemma update_with_skipped_witness :
  rows (after [("#stdout", VStr "x"); ("loss", VNum 1)] dash_init) !! "#stdout" = rows dash_init !! "#stdout".
Proof.
  apply (update_with_skipped [("#stdout", VStr "x"); ("loss", VNum 1)]).
  - intros (_ & _ & []). discriminate.
  - reflexivity.
  - reflexivity.
Defined.

End Dash.
