(* ===== verification/Timing.v ===== *)
(** * The [loading_rate] and [compute_rate] instruments (instruments.py, lines 155-220)

    Both wrap a span of the host program in a probe whose [_timing]
    generator reads the clock at entry ([t0]) and exit ([t1]) and, when the
    span produced a [batch], returns [len(data) / seconds], where [data] is
    the batch or its first element.  [loading_rate] probes the loader given
    on the bus (its generator [__iter__], or the [next] of its iterator
    type, and nothing for other loaders) and drops the [None] results;
    [compute_rate] probes the [compute_start] spans and does not drop them.
    Both smooth with [average(scan=5)], [throttle(1)] and give
    [{<name>: x, units: "items/s"}].

    A span is [(t0, t1, results)]; the pipelines are operators over spans
    whose outputs are given dictionaries or the exception that ends them. *)

From S2P Require Import Prelude Stream.
Local Open Scope nat_scope.

Module Timing.

(** [(t0, t1, results)]: the clock at the probe's [@enter] and [@exit]
    and what the span produced. *)
Definition Span := (Z * Z * Event)%type.

Definition span_t0 (sp : Span) : Z := sp.1.1.
Definition span_t1 (sp : Span) : Z := sp.1.2.
Definition span_results (sp : Span) : Event := sp.2.

(** [len(data) / seconds] with [seconds = (t1 - t0) / 1e9]: [len] first,
    then the float division, which raises on a zero duration. *)
Definition rate_of (t0 t1 : Z) (data : Value) : res (option Q) :=
  n ← py_len data;
  if Z.eqb (t1 - t0) 0 then Raise ZeroDivisionError
  else Ok (Some (inject_Z (Z.of_nat n) / ns_to_sec (t1 - t0))%Q).

(** [data[0]]. *)
Definition first_item (l : list Value) : res Value :=
  match l with x :: _ => Ok x | [] => Raise IndexError end.

(** [_timing] of [loading_rate] (lines 159-170):
    [if isinstance(data, (list, tuple)): data = data[0]]. *)
Definition loading_timing (t0 t1 : Z) (results : Event) : res (option Q) :=
  match dict_get "batch" results with
  | None => Ok None
  | Some data =>
      data' ← match data with VList l | VTuple l => first_item l | _ => Ok data end;
      rate_of t0 t1 data'
  end.

(** [_timing] of [compute_rate] (lines 201-212): [if isinstance(data, list)]. *)
Definition compute_timing (t0 t1 : Z) (results : Event) : res (option Q) :=
  match dict_get "batch" results with
  | None => Ok None
  | Some data =>
      data' ← match data with VList l => first_item l | _ => Ok data end;
      rate_of t0 t1 data'
  end.

(** ** Loaders *)

(** What [loading_rate] inspects of a loader: whether [loader.__iter__] is
    a generator function, and whether the type of [iter(loader)] has a
    [next] attribute. *)
Record Loader := MkLoader { iter_is_generator_function : bool; iter_type_has_next : bool }.

(** The probe chosen for a loader (lines 176-186). *)
Inductive LoaderProbe :=
| GeneratorLoader           (** [func(!$x:@enter, #yield as batch, !!$y:@exit)] on [__iter__] *)
| IteratorProtocolLoader    (** [func(!$x:@enter, #value as batch, !!$y:@exit)] on [typ.next] *)
| Unsupported.              (** ["Error: cannot instrument loader ..."], return *)

Definition classify_loader (ld : Loader) : LoaderProbe :=
  if iter_is_generator_function ld then GeneratorLoader
  else if iter_type_has_next ld then IteratorProtocolLoader
  else Unsupported.

(** ** Pipelines *)

(** [throttle(1)]: one second in nanoseconds. *)
Definition throttle_interval : Z := (10 ^ 9)%Z.

(** [.map(lambda x: {name: x, "units": "items/s"})]. *)
Definition rate_dict (name : string) (x : Q) : Event := [(name, VNum x); ("units", VStr "items/s")].

(** [prb.wmap(_timing)]: the result, at the exit of the span. *)
Definition stamp (timing : Z -> Z -> Event -> res (option Q)) (sp : Span) : res (Z * option Q) :=
  (λ r, (span_t1 sp, r)) <$> timing (span_t0 sp) (span_t1 sp) (span_results sp).

(** [.filter(lambda xs: xs is not None)] on stamped results. *)
Definition drop_none (e : Z * option Q) : option (Z * Q) := (λ q, (e.1, q)) <$> e.2.

(** [loading_rate]'s chain for a supported loader. *)
Definition loading_pipeline : Op Span (res Event) :=
  op_map (stamp loading_timing)
    |> op_res (op_filter_map drop_none |> op_timed (op_scan_avg 5)
               |> op_throttle throttle_interval |> op_map (λ e, rate_dict "loading_rate" e.2)).

(** The body of the [ksubscribe] on each given loader: its pipeline, or
    none (the instrument stays inert) for an unsupported loader. *)
Definition loading_rate_on_loader (ld : Loader) : option (Op Span (res Event)) :=
  match classify_loader ld with
  | Unsupported => None
  | _ => Some loading_pipeline
  end.

(** [average(scan=n)] as [giving] computes it, [sum(window) / len(window)],
    on values that may be [None]: the sum raises on a [None]. *)
Definition avg_opt (w : list (option Q)) : res Q :=
  match mapM id w with
  | Some qs => Ok (mean qs)
  | None => Raise (TypeError "unsupported operand type(s) for +: 'float' and 'NoneType'")
  end.

Definition op_avg_opt (n : nat) : Op (option Q) (res Q) := op_roll n |> op_map avg_opt.

(** A stamped result of the average, or its exception. *)
Definition join_stamped (r : res (Z * res Q)) : res (Z * Q) :=
  match r with
  | Ok (t, Ok q) => Ok (t, q)
  | Ok (_, Raise e) => Raise e
  | Raise e => Raise e
  end.

(** [compute_rate]'s chain: [wmap(_timing).average(scan=5).throttle(1)],
    with no filter of the [None] results. *)
Definition compute_pipeline : Op Span (res Event) :=
  op_map (stamp compute_timing) |> op_res (op_timed (op_avg_opt 5)) |> op_map join_stamped
    |> op_res (op_throttle throttle_interval |> op_map (λ e, rate_dict "compute_rate" e.2)).

(** ** The averaging stage of [compute_rate] *)

Lemma mapM_Some (l : list Q) : mapM id (Some <$> l) = Some l.
Proof. by apply mapM_fmap_Some. Qed.

Lemma mapM_snoc_None (l : list (option Q)) : mapM id (l ++ [None]) = None.
Proof. induction l as [|[q|] l IH]; simpl; [done| |done]. by rewrite IH. Qed.

Lemma snd_stamped (xs : list (Z * Q)) :
  map snd ((λ e, (e.1, Some e.2)) <$> xs) = Some <$> map snd xs.
Proof. induction xs; simpl; by f_equal. Qed.

Lemma feed_timed_avg n w l :
  (feed (op_timed (op_avg_opt n)) (lastn n w, tt) l).2 =
    imap (λ i e, (e.1, avg_opt (lastn n (w ++ take (S i) (map snd l))))) l.
Proof.
  revert w. induction l as [|[t x] l IH]; intros w; [done|].
  rewrite (feed_cons (op_timed (op_avg_opt n))).
  change (op_step (op_timed (op_avg_opt n)) (lastn n w, ()) (t, x))
    with ((lastn n (lastn n w ++ [x]), tt), [(t, avg_opt (lastn n (lastn n w ++ [x])))]).
  rewrite !lastn_snoc. cbn [fst snd]. specialize (IH (w ++ [x])).
  rewrite IH. simpl. f_equal.
  apply imap_ext. intros i e _. simpl. by rewrite <- (assoc_L app).
Qed.

Lemma run_timed_avg n l :
  run_open (op_timed (op_avg_opt n)) l =
    imap (λ i e, (e.1, avg_opt (lastn n (take (S i) (map snd l))))) l.
Proof.
  unfold run_open. pose proof (feed_timed_avg n [] l) as H. rewrite lastn_nil in H. exact H.
Qed.

(** Results that all have a batch, then one without: the averages of the
    first ones, then the [TypeError] of the sum. *)
Lemma run_avg_then_none (xs : list (Z * Q)) t :
  ∃ pre, run_open (op_timed (op_avg_opt 5)) (((λ e, (e.1, Some e.2)) <$> xs) ++ [(t, None)]) =
    ((λ e, (e.1, Ok e.2)) <$> pre) ++
    [(t, Raise (TypeError "unsupported operand type(s) for +: 'float' and 'NoneType'"))].
Proof.
  rewrite run_timed_avg, imap_app, imap_fmap.
  eexists (imap (λ i e, (e.1, mean (lastn 5 (take (S i) (map snd xs))))) xs).
  rewrite fmap_imap. f_equal.
  - apply imap_ext. intros i e Hi%lookup_lt_Some. simpl. f_equal.
    rewrite map_app, take_app_le by (rewrite length_map, length_fmap; lia).
    unfold avg_opt. by rewrite snd_stamped, <- fmap_take, <- fmap_lastn, mapM_Some.
  - simpl. rewrite Nat.add_0_r, take_ge by (rewrite length_map, !length_app, length_fmap; simpl; lia).
    rewrite map_app. simpl. rewrite lastn_snoc_last. unfold avg_opt. by rewrite mapM_snoc_None.
Qed.

(** The spans whose probe computed a rate, stamped. *)
Lemma stamps_ok (l : list Span) :
  Forall (λ s, ∃ q, compute_timing (span_t0 s) (span_t1 s) (span_results s) = Ok (Some q)) l ->
  ∃ xs : list (Z * Q), map (stamp compute_timing) l = Ok <$> ((λ e, (e.1, Some e.2)) <$> xs).
Proof.
  induction 1 as [|s l [q Hq] _ [xs IH]]; [by exists []|].
  exists ((span_t1 s, q) :: xs). simpl. unfold stamp at 1. by rewrite Hq, IH.
Qed.

Lemma map_join_stamped (pre : list (Z * Q)) t e :
  join_stamped <$> (Ok <$> (((λ p : Z * Q, (p.1, Ok p.2)) <$> pre) ++ [(t, Raise e)])) =
    (Ok <$> pre) ++ [Raise e].
Proof. induction pre as [|[t' q] pre IH]; [done|]. cbn. f_equal. exact IH. Qed.

(** ** Properties of the probes *)

(** C25. On a batch that is a tuple [(inputs, targets)], [loading_rate]
    counts the items of [inputs], while [compute_rate], which only unpacks
    lists, counts the two elements of the tuple. *)
Theorem timing_tuple_batch t0 t1 x rest n :
  t1 ≠ t0 -> py_len x = Ok n ->
  loading_timing t0 t1 [("batch", VTuple (x :: rest))] =
    Ok (Some (inject_Z (Z.of_nat n) / ns_to_sec (t1 - t0))%Q) /\
  compute_timing t0 t1 [("batch", VTuple (x :: rest))] =
    Ok (Some (inject_Z (Z.of_nat (S (length rest))) / ns_to_sec (t1 - t0))%Q).
Proof.
  intros Ht Hn. unfold loading_timing, compute_timing, rate_of. simpl. rewrite Hn. simpl.
  destruct (Z.eqb_spec (t1 - t0) 0); [lia|done].
Qed.

(** C30. A span whose probe reads the same clock at entry and exit raises
    ZeroDivisionError (the float division [len / 0.0]) in both
    instruments: [time.time_ns()] need not advance between two reads. *)
Theorem timing_zero_duration t results n :
  dict_get "batch" results = Some (VTensor n) ->
  loading_timing t t results = Raise ZeroDivisionError /\
  compute_timing t t results = Raise ZeroDivisionError.
Proof.
  intros Hb. unfold loading_timing, compute_timing, rate_of. rewrite Hb. simpl.
  by rewrite Z.sub_diag.
Qed.

(** A span without a batch is a no-op for [loading_rate]'s chain. *)
Lemma loading_pipeline_step_none sp s :
  dict_get "batch" (span_results sp) = None -> op_step loading_pipeline s sp = (s, []).
Proof.
  intros Hb. destruct s as [[] [dead [[[[] w] th] []]]].
  unfold loading_pipeline. simpl. unfold stamp, loading_timing. rewrite Hb. by destruct dead.
Qed.

(** C26. [loading_rate] filters out the spans that produced no batch: a
    stream with such a span gives what the stream without it gives. *)
Theorem loading_rate_skips_none l1 sp l2 :
  dict_get "batch" (span_results sp) = None ->
  run_closed loading_pipeline (l1 ++ sp :: l2) = run_closed loading_pipeline (l1 ++ l2).
Proof. intros Hb. apply run_closed_noop. intros s. by apply loading_pipeline_step_none. Qed.

(** C7. [compute_rate] does not filter the [None] results: once a
    [compute_start] span without a batch follows spans with one, the
    average's sum raises TypeError, which ends the instrument's chain after
    the rates given before it. *)
Theorem compute_rate_none_raises l1 sp l2 :
  Forall (λ s, ∃ q, compute_timing (span_t0 s) (span_t1 s) (span_results s) = Ok (Some q)) l1 ->
  dict_get "batch" (span_results sp) = None ->
  ∃ pre, run_closed compute_pipeline (l1 ++ sp :: l2) =
    (Ok <$> pre) ++ [Raise (TypeError "unsupported operand type(s) for +: 'float' and 'NoneType'")].
Proof.
  intros Hl1 Hb. destruct (stamps_ok l1 Hl1) as [xs Hxs].
  unfold compute_pipeline. rewrite !run_closed_pipe, !run_closed_map, map_app, Hxs. simpl.
  replace (stamp compute_timing sp) with (@Ok (Z * option Q) (span_t1 sp, None))
    by (unfold stamp, compute_timing; by rewrite Hb).
  replace ((Ok <$> ((λ e : Z * Q, (e.1, Some e.2)) <$> xs)) ++ Ok (span_t1 sp, None) :: map (stamp compute_timing) l2)
    with ((Ok <$> (((λ e : Z * Q, (e.1, Some e.2)) <$> xs) ++ [(span_t1 sp, None)])) ++ map (stamp compute_timing) l2)
    by (rewrite fmap_app, <- (assoc_L app); done).
  destruct (run_res_prefix (op_timed (op_avg_opt 5)) (((λ e : Z * Q, (e.1, Some e.2)) <$> xs) ++ [(span_t1 sp, None)])
    (map (stamp compute_timing) l2)) as [w Hw].
  rewrite Hw. destruct (run_avg_then_none xs (span_t1 sp)) as [pre Hpre]. rewrite Hpre.
  rewrite fmap_app, map_join_stamped, <- (assoc_L app). simpl.
  rewrite run_res_raise. by eexists.
Qed.

(** ** Instances *)

Definition span_batch (t0 t1 : Z) (b : Value) : Span := (t0, t1, [("batch", b)]).
Definition span_nobatch (t0 t1 : Z) : Span := (t0, t1, [("loss", VNum 1)]).

Lemma timing_tuple_batch_witness :
  loading_timing 0 (10 ^ 9) [("batch", VTuple [VTensor 32; VTensor 32])] =
    Ok (Some (inject_Z (Z.of_nat 32) / ns_to_sec (10 ^ 9 - 0))%Q) /\
  compute_timing 0 (10 ^ 9) [("batch", VTuple [VTensor 32; VTensor 32])] =
    Ok (Some (inject_Z (Z.of_nat (S (length [VTensor 32]))) / ns_to_sec (10 ^ 9 - 0))%Q).
Proof. apply timing_tuple_batch; [lia | reflexivity]. Defined.

Lemma timing_zero_duration_witness :
  loading_timing 5 5 [("batch", VTensor 32)] = Raise ZeroDivisionError /\
  compute_timing 5 5 [("batch", VTensor 32)] = Raise ZeroDivisionError.
Proof. apply (timing_zero_duration 5 _ 32). reflexivity. Defined.

Lemma loading_rate_skips_none_witness :
  run_closed loading_pipeline ([span_batch 0 (10 ^ 9) (VTensor 32)] ++ span_nobatch (10 ^ 9) (2 * 10 ^ 9)
    :: [span_batch (2 * 10 ^ 9) (3 * 10 ^ 9) (VTensor 32)]) =
  run_closed loading_pipeline ([span_batch 0 (10 ^ 9) (VTensor 32)] ++ [span_batch (2 * 10 ^ 9) (3 * 10 ^ 9) (VTensor 32)]).
Proof. apply loading_rate_skips_none. reflexivity. Defined.

Lemma compute_rate_none_raises_witness :
  ∃ pre, run_closed compute_pipeline ([span_batch 0 (10 ^ 9) (VTensor 32)] ++ span_nobatch (10 ^ 9) (2 * 10 ^ 9) :: []) =
    (Ok <$> pre) ++ [Raise (TypeError "unsupported operand type(s) for +: 'float' and 'NoneType'")].
Proof.
  apply compute_rate_none_raises; [|reflexivity].
  repeat constructor. eexists. reflexivity.
Defined.

End Timing.
