(* ===== verification/Profile.v ===== *)
(** * The [profile] instrument (instruments.py, lines 334-360)

    [--profile] is a string option with default [""].  The instrument
    chooses a profiler from it ([None] returns at once, ["torch"] and
    ["deepspeed"] choose one, anything else raises NotImplementedError),
    then at [load_script] wraps every [compute_start] span in the profiler
    ([ov.given.wmap("compute_start", profile_method)]) and gives its result
    as [profiler_stats]; [ov.given["?profiler_stats"].accum()] collects
    them, and at [run_script] their number is printed.

    The profilers themselves are external: a profiler is a function from a
    span to the value it returns ([stats]). *)

From S2P Require Import Prelude Stream Timing.
Local Open Scope nat_scope.

Module Profile.

Import Timing.

(** [_profile_with_torch_profiler] and [_profile_with_deepspeed]. *)
Inductive Profiler := TorchProfiler | DeepspeedProfiler.

(** [ov.options.profile], which argument parsing sets to a string
    (default [""]); [None] is the value the code tests for. *)
Definition profile_dispatch (profile_name : option string) : res (option Profiler) :=
  match profile_name with
  | None => Ok None
  | Some n =>
      if String.eqb n "torch" then Ok (Some TorchProfiler)
      else if String.eqb n "deepspeed" then Ok (Some DeepspeedProfiler)
      else Raise (NotImplementedError ("Unknown profiler: " +:+ n))
  end.

(** The default of [--profile] (line 337). *)
Definition profile_default : option string := Some "".

Section Pipeline.
Context (stats : Profiler -> Span -> Value).

(** [ov.given.wmap("compute_start", profile_method).give("profiler_stats")]. *)
Definition profile_pipeline (p : Profiler) : Op Span Event :=
  op_map (λ sp, [("profiler_stats", stats p sp)]).

(** [ov.given["?profiler_stats"].accum()], read at [run_script]. *)
Definition profile_results (p : Profiler) (spans : list Span) : list Value :=
  omap (dict_get "profiler_stats") (run_open (profile_pipeline p) spans).

End Pipeline.

(** ** Properties *)

(** C15. Without [--profile] the option holds its default [""], which is
    not [None]: the instrument raises NotImplementedError("Unknown
    profiler: ") instead of staying inactive.  Only [None], ["torch"] and
    ["deepspeed"] do not raise. *)
Theorem profile_default_raises :
  profile_dispatch profile_default = Raise (NotImplementedError "Unknown profiler: ") /\
  ∀ n, n ≠ "torch" -> n ≠ "deepspeed" ->
    profile_dispatch (Some n) = Raise (NotImplementedError ("Unknown profiler: " +:+ n)).
Proof.
  split; [reflexivity|]. intros n Ht Hd. simpl.
  destruct (String.eqb_spec n "torch"); [done|]. by destruct (String.eqb_spec n "deepspeed").
Qed.


End Profile.
