(* ===== verification/GPUMonitor.v ===== *)
(** * The [GPUMonitor] thread and the [profile_gpu] instrument
      (instruments.py, lines 223-247)

    [profile_gpu] waits for [load_script], creates [GPUMonitor(ov, 100)]
    and starts it, waits for [run_script] and calls [monitor.stop()].  The
    monitor thread imports GPUtil, then loops [while not self.stopped]:
    it gives [gpudata=GPUtil.getGPUs()] and sleeps [self.delay] seconds.
    [stop] only sets the flag; it does not join the thread.

    The two threads are modelled as a labelled transition system [gstep]
    on a shared state [GState]: the main thread's position in
    [profile_gpu], the monitor thread's position in [run], the [stopped]
    flag, the clock (nanoseconds) and the dictionaries given on the bus.
    Each label is one atomic action of one thread, or the passing of time;
    a run is any interleaving ([reach]).  [step] is the same relation as an
    executable function ([step_gstep]), so that concrete runs evaluate. *)

From S2P Require Import Prelude Stream.
Local Open Scope nat_scope.

Module GPUMonitor.

(** Where [profile_gpu] is suspended. *)
Inductive MainPC :=
| MainWaitLoad   (** at [yield ov.phases.load_script] *)
| MainWaitRun    (** at [yield ov.phases.run_script], the monitor started *)
| MainDone.      (** after [monitor.stop()] *)

#[export] Instance MainPC_eq_dec : EqDecision MainPC.
Proof. solve_decision. Defined.

(** Where the monitor thread is. *)
Inductive MonPC :=
| MonNew                  (** created, not started *)
| MonImport               (** [import GPUtil] *)
| MonCheck                (** [while not self.stopped] *)
| MonPoll                 (** [GPUtil.getGPUs()] *)
| MonGive (gpus : Value)  (** [self.ov.give(gpudata=gpus)] *)
| MonSleep (wake : Z)     (** [time.sleep(self.delay)], until the clock reaches [wake] *)
| MonExited               (** [run] returned: the loop saw [stopped] *)
| MonCrashed.             (** an exception left [run]: the thread is dead *)

Record GState := MkG {
  g_main : MainPC;
  g_mon : MonPC;
  g_stopped : bool;             (** [self.stopped] *)
  g_clock : Z;                  (** the clock, in nanoseconds *)
  g_bus : list (Z * Event)      (** what the monitor gave, with the time it gave it *)
}.

(** One atomic action of a thread, or time passing. *)
Inductive Label :=
| LStart           (** main: [GPUMonitor(ov, 100)]; [monitor.start()] *)
| LImport          (** monitor: [import GPUtil] succeeds *)
| LFail            (** monitor: [import GPUtil] or [GPUtil.getGPUs()] raises *)
| LCheck           (** monitor: evaluates [not self.stopped] *)
| LPoll (gpus : Value)  (** monitor: [GPUtil.getGPUs()] returns [gpus] *)
| LGive            (** monitor: [self.ov.give(gpudata=...)] *)
| LWake            (** monitor: [time.sleep] returns *)
| LStop            (** main: [monitor.stop()] *)
| LTick (d : Z).   (** [d] nanoseconds pass *)

Definition gpudata (gpus : Value) : Event := [("gpudata", gpus)].

Definition set_mon (m : MonPC) (s : GState) : GState :=
  MkG (g_main s) m (g_stopped s) (g_clock s) (g_bus s).

(** [GPUMonitor.__init__] and the state before [profile_gpu] resumes. *)
Definition g_init : GState := MkG MainWaitLoad MonNew false 0 [].

(** [GPUMonitor(ov, 100)]: the delay is 100 (seconds, for [time.sleep]). *)
Definition profile_gpu_delay : Z := (100 * 10 ^ 9)%Z.

Section Monitor.
Context (delay : Z).

Inductive gstep : GState -> Label -> GState -> Prop :=
| st_start s : g_main s = MainWaitLoad -> g_mon s = MonNew ->
    gstep s LStart (MkG MainWaitRun MonImport (g_stopped s) (g_clock s) (g_bus s))
| st_import s : g_mon s = MonImport -> gstep s LImport (set_mon MonCheck s)
| st_fail s : g_mon s = MonImport \/ g_mon s = MonPoll -> gstep s LFail (set_mon MonCrashed s)
| st_check s : g_mon s = MonCheck ->
    gstep s LCheck (set_mon (if g_stopped s then MonExited else MonPoll) s)
| st_poll s gpus : g_mon s = MonPoll -> gstep s (LPoll gpus) (set_mon (MonGive gpus) s)
| st_give s gpus : g_mon s = MonGive gpus ->
    gstep s LGive (MkG (g_main s) (MonSleep (g_clock s + delay)) (g_stopped s) (g_clock s)
                     (g_bus s ++ [(g_clock s, gpudata gpus)]))
| st_wake s w : g_mon s = MonSleep w -> (w <= g_clock s)%Z -> gstep s LWake (set_mon MonCheck s)
| st_stop s : g_main s = MainWaitRun ->
    gstep s LStop (MkG MainDone (g_mon s) true (g_clock s) (g_bus s))
| st_tick s d : (0 < d)%Z ->
    gstep s (LTick d) (MkG (g_main s) (g_mon s) (g_stopped s) (g_clock s + d) (g_bus s)).

(** The same transitions, as a function of the label. *)
Definition step (s : GState) (l : Label) : option GState :=
  match l, g_mon s with
  | LStart, MonNew =>
      match g_main s with
      | MainWaitLoad => Some (MkG MainWaitRun MonImport (g_stopped s) (g_clock s) (g_bus s))
      | _ => None
      end
  | LImport, MonImport => Some (set_mon MonCheck s)
  | LFail, (MonImport | MonPoll) => Some (set_mon MonCrashed s)
  | LCheck, MonCheck => Some (set_mon (if g_stopped s then MonExited else MonPoll) s)
  | LPoll gpus, MonPoll => Some (set_mon (MonGive gpus) s)
  | LGive, MonGive gpus =>
      Some (MkG (g_main s) (MonSleep (g_clock s + delay)) (g_stopped s) (g_clock s)
              (g_bus s ++ [(g_clock s, gpudata gpus)]))
  | LWake, MonSleep w => if (w <=? g_clock s)%Z then Some (set_mon MonCheck s) else None
  | LStop, _ =>
      match g_main s with
      | MainWaitRun => Some (MkG MainDone (g_mon s) true (g_clock s) (g_bus s))
      | _ => None
      end
  | LTick d, _ =>
      if (0 <? d)%Z then Some (MkG (g_main s) (g_mon s) (g_stopped s) (g_clock s + d) (g_bus s))
      else None
  | _, _ => None
  end.

(** Runs: the interleavings of the transitions, with their labels. *)
Inductive reach : GState -> list Label -> GState -> Prop :=
| reach_nil s : reach s [] s
| reach_cons s l s1 tr s2 : gstep s l s1 -> reach s1 tr s2 -> reach s (l :: tr) s2.

Definition run (s : GState) (tr : list Label) : option GState :=
  foldl (λ o l, o ≫= λ s', step s' l) (Some s) tr.

(** ** The relation and the function agree *)

Lemma step_gstep s l s' : step s l = Some s' <-> gstep s l s'.
Proof.
  split.
  - destruct s as [m mon st c b]. intros H.
    destruct l, mon; simpl in H; repeat case_match; simplify_eq;
      try (econstructor; simpl; eauto; lia).
  - destruct 1 as [s Hm Hn|s Hn|s [Hn|Hn]|s Hn|s g Hn|s g Hn|s w Hn Hw|s Hm|s d Hd];
      unfold step; rewrite ?Hm, ?Hn; try done.
    + by rewrite (proj2 (Z.leb_le _ _) Hw).
    + by rewrite (proj2 (Z.ltb_lt _ _) Hd).
Qed.

Lemma foldl_step_None tr : foldl (λ o l, o ≫= λ s', step s' l) None tr = None.
Proof. induction tr; [done|]. by simpl. Qed.

Lemma run_reach s tr s' : run s tr = Some s' -> reach s tr s'.
Proof.
  unfold run. revert s. induction tr as [|l tr IH]; intros s H; simpl in H; [simplify_eq; constructor|].
  destruct (step s l) as [s1|] eqn:E; [|by rewrite foldl_step_None in H].
  econstructor; [by apply step_gstep|]. by apply IH.
Qed.

Lemma reach_app s tr1 s1 tr2 s2 : reach s tr1 s1 -> reach s1 tr2 s2 -> reach s (tr1 ++ tr2) s2.
Proof. induction 1; [done|]. intros Hr. econstructor; eauto. Qed.

(** Rule induction along a run, for invariants of the run so far. *)
Lemma reach_inv (P : list Label -> GState -> Prop) tr0 s tr s' :
  (∀ tr1 s1 l s2, P tr1 s1 -> gstep s1 l s2 -> P (tr1 ++ [l]) s2) ->
  P tr0 s -> reach s tr s' -> P (tr0 ++ tr) s'.
Proof.
  intros Hstep Hi Hr. revert tr0 Hi. induction Hr as [s|s l s1 tr s2 Hst _ IH]; intros tr0 Hi.
  - by rewrite app_nil_r.
  - replace (tr0 ++ l :: tr) with ((tr0 ++ [l]) ++ tr) by (by rewrite <- (assoc_L app)).
    apply IH. by eapply Hstep.
Qed.

Lemma reach_inv_state (P : GState -> Prop) s tr s' :
  (∀ s1 l s2, P s1 -> gstep s1 l s2 -> P s2) -> P s -> reach s tr s' -> P s'.
Proof. intros Hstep Hi Hr. apply (reach_inv (λ _, P) [] s tr s'); eauto. Qed.

End Monitor.

#[export] Hint Constructors reach : mb.

(** ** What happens after [monitor.stop()] *)

Definition is_stop (l : Label) : bool := match l with LStop => true | _ => false end.

(** Whether [stop()] was called in a run, and the labels after it. *)
Definition stop_seen (tr : list Label) : bool := existsb is_stop tr.

Fixpoint after_stop (tr : list Label) : list Label :=
  match tr with
  | [] => []
  | LStop :: tr' => tr'
  | _ :: tr' => after_stop tr'
  end.

Fixpoint count_gives (tr : list Label) : nat :=
  match tr with
  | [] => 0
  | LGive :: tr' => S (count_gives tr')
  | _ :: tr' => count_gives tr'
  end.

(** The gives the monitor can make without reading [stopped] again. *)
Definition pending (m : MonPC) : nat := match m with MonPoll | MonGive _ => 1 | _ => 0 end.

Lemma after_stop_unseen tr : stop_seen tr = false -> after_stop tr = [].
Proof. induction tr as [|[] tr IH]; simpl; auto; done. Qed.

Lemma after_stop_seen tr tr' : stop_seen tr = true -> after_stop (tr ++ tr') = after_stop tr ++ tr'.
Proof. induction tr as [|[] tr IH]; simpl; auto; done. Qed.

Lemma after_stop_unseen_app tr tr' :
  stop_seen tr = false -> after_stop (tr ++ tr') = after_stop tr'.
Proof. induction tr as [|[] tr IH]; simpl; auto; done. Qed.

Lemma stop_seen_app tr tr' : stop_seen (tr ++ tr') = stop_seen tr || stop_seen tr'.
Proof. apply existsb_app. Qed.

Lemma count_gives_app tr tr' : count_gives (tr ++ tr') = count_gives tr + count_gives tr'.
Proof. induction tr as [|[] tr IH]; simpl; lia. Qed.

Lemma pending_le m : pending m <= 1.
Proof. destruct m; simpl; lia. Qed.

Section Invariants.
Context (delay : Z).

(** The flag is set exactly by [stop()], which [profile_gpu] reaches
    once; a thread that saw it exits; and after [stop()] the gives made
    plus the give still pending are at most one. *)
Definition stop_inv (tr : list Label) (s : GState) : Prop :=
  g_stopped s = stop_seen tr /\
  (g_stopped s = true <-> g_main s = MainDone) /\
  (g_mon s = MonNew <-> g_main s = MainWaitLoad) /\
  (g_mon s = MonExited -> g_stopped s = true) /\
  (g_stopped s = true -> count_gives (after_stop tr) + pending (g_mon s) <= 1).

Lemma stop_inv_init : stop_inv [] g_init.
Proof. unfold stop_inv. simpl. naive_solver. Qed.

Lemma stop_inv_step tr s l s' : stop_inv tr s -> gstep delay s l s' -> stop_inv (tr ++ [l]) s'.
Proof.
  intros (H1 & H2 & H3 & H4 & H5) Hst. unfold stop_inv. rewrite stop_seen_app, <- H1.
  assert (g_stopped s = true -> count_gives (after_stop (tr ++ [l])) = count_gives (after_stop tr) + count_gives [l])
    as Hc by (intros; rewrite after_stop_seen, count_gives_app; congruence).
  assert (g_stopped s = false -> after_stop (tr ++ [l]) = []) as Hu.
  { intros Hf. rewrite after_stop_unseen_app by congruence. by destruct l. }
  clear H1. pose proof (pending_le (g_mon s)).
  destruct Hst as [s Hm Hn|s Hn|s Hn|s Hn|s g Hn|s g Hn|s w Hn Hw|s Hm|s d Hd];
    destruct s as [m mon [] c b]; simpl in *; subst; rewrite ?Hc, ?Hu in * by done; simpl in *;
    try destruct Hn; subst; simpl in *; intuition (try congruence; try lia).
Qed.

Lemma stop_inv_from_init tr s : reach delay g_init tr s -> stop_inv tr s.
Proof. apply (reach_inv delay stop_inv [] g_init tr s stop_inv_step stop_inv_init). Qed.

(** Samples are spaced by the sleep: the clock never goes back, and the
    monitor waits [delay] after each give before it can poll again. *)
Definition space_inv (s : GState) : Prop :=
  (0 <= g_clock s)%Z /\
  spaced_from delay None (g_bus s) /\
  Forall (λ e : Z * Event, 0 <= e.1 <= g_clock s)%Z (g_bus s) /\
  match g_mon s with
  | MonNew | MonImport => g_bus s = []
  | MonSleep w => last_from None (g_bus s) = Some (w - delay)%Z
  | MonCheck | MonPoll | MonGive _ =>
      ∀ t, last_from None (g_bus s) = Some t -> (t + delay <= g_clock s)%Z
  | MonExited | MonCrashed => True
  end.

Lemma space_inv_step s l s' : space_inv s -> gstep delay s l s' -> space_inv s'.
Proof.
  intros (H0 & H1 & H2 & H3) Hst.
  destruct Hst as [s Hm Hn|s Hn|s Hn|s Hn|s g Hn|s g Hn|s w Hn Hw|s Hm|s d Hd];
    unfold space_inv; simpl; rewrite ?Hn in H3; try done.
  - repeat split; try done. by rewrite H3.
  - repeat split; try done. destruct (g_stopped s); done.
  - repeat split; [done| | |].
    + by apply spaced_from_snoc.
    + apply Forall_app. split; [done|]. repeat constructor; simpl; lia.
    + rewrite last_from_snoc. simpl. f_equal. lia.
  - repeat split; try done. intros t Ht. rewrite H3 in Ht. simplify_eq. lia.
  - repeat split; [lia|done| |].
    + eapply Forall_impl; [done|]. intros e He. simpl in He. lia.
    + destruct (g_mon s); try done; intros t Ht; specialize (H3 t Ht); lia.
Qed.

Lemma space_inv_from_init tr s : reach delay g_init tr s -> space_inv s.
Proof. apply reach_inv_state; [apply space_inv_step|]. repeat split; simpl; done. Qed.


Lemma last_from_le {A} t0 (l : list (Z * A)) tn c :
  last_from (Some t0) l = Some tn -> (t0 <= c)%Z -> Forall (λ e : Z * A, e.1 <= c)%Z l -> (tn <= c)%Z.
Proof.
  unfold last_from. destruct (last l) as [e|] eqn:E; intros H Ht Hl; simplify_eq; [|done].
  apply last_Some_elem_of in E. rewrite Forall_forall in Hl. by apply Hl.
Qed.

Lemma crashed_final s tr s' :
  reach delay s tr s' -> g_mon s = MonCrashed -> g_mon s' = MonCrashed /\ g_bus s' = g_bus s.
Proof.
  intros Hr Hc. apply (reach_inv_state delay (λ x, g_mon x = MonCrashed /\ g_bus x = g_bus s) s tr s');
    [|done|done].
  intros s1 l s2 [H1 H2] Hst.
  destruct Hst as [x Hm Hn|x Hn|x Hn|x Hn|x g Hn|x g Hn|x w Hn Hw|x Hm|x d Hd];
    simpl in *; repeat match goal with H : _ \/ _ |- _ => destruct H end; split; congruence.
Qed.

(** A monitor thread that is running while [profile_gpu] waits for
    [run_script] has been started, has not exited, and the flag is clear. *)
Lemma running_monitor tr s :
  reach delay g_init tr s -> g_main s = MainWaitRun ->
  g_stopped s = false /\ stop_seen tr = false /\ g_mon s ≠ MonNew /\ g_mon s ≠ MonExited.
Proof.
  intros Hr Hm. destruct (stop_inv_from_init tr s Hr) as (H1 & H2 & H3 & H4 & _).
  rewrite Hm in H2, H3. destruct (g_stopped s); [naive_solver|].
  split_and!; [done|congruence| |]; intros Hn; [apply H3 in Hn|apply H4 in Hn]; done.
Qed.

(** ** Properties of the monitor *)

(** C5. [monitor.stop()] does not wait for the thread: when [stop()]
    is called while the monitor is polling, the monitor still gives the
    sample after [stop()] returned, against the spec's "no publish occurs
    after stop() returns". *)
Theorem give_after_stop tr s gpus :
  reach delay g_init tr s -> g_main s = MainWaitRun -> g_mon s = MonPoll ->
  ∃ s', reach delay g_init (tr ++ [LStop; LPoll gpus; LGive]) s' /\ g_main s' = MainDone /\
    count_gives (after_stop (tr ++ [LStop; LPoll gpus; LGive])) = 1 /\
    g_bus s' = g_bus s ++ [(g_clock s, gpudata gpus)].
Proof.
  intros Hr Hm Hn. destruct (running_monitor tr s Hr Hm) as (Hs & Hseen & _).
  exists (MkG MainDone (MonSleep (g_clock s + delay)) true (g_clock s) (g_bus s ++ [(g_clock s, gpudata gpus)])).
  split_and!; [|reflexivity|by rewrite after_stop_unseen_app|reflexivity].
  apply (reach_app _ _ _ s); [done|].
  eapply reach_cons; [by apply st_stop|]. eapply reach_cons; [by apply st_poll|].
  eapply reach_cons; [by apply st_give|]. apply reach_nil.
Qed.

(** C6. Still, at most one sample is given after [stop()]: the monitor
    reads [stopped] before each poll, so only a poll already under way
    when [stop()] runs can complete. *)
Theorem at_most_one_give_after_stop tr s :
  reach delay g_init tr s -> count_gives (after_stop tr) <= 1.
Proof.
  intros Hr. destruct (stop_inv_from_init tr s Hr) as (H1 & _ & _ & _ & H5).
  destruct (g_stopped s) eqn:E.
  - specialize (H5 eq_refl). lia.
  - rewrite after_stop_unseen by congruence. simpl. lia.
Qed.

(** C14. Consecutive samples given by the monitor are at least [delay]
    apart on the clock: the loop sleeps [self.delay] after each give. *)
Theorem monitor_spacing tr s :
  reach delay g_init tr s -> spaced_from delay None (g_bus s).
Proof. intros Hr. apply (space_inv_from_init tr s Hr). Qed.

(** C13. A poll that raises kills the monitor: after a failing
    [GPUtil.getGPUs()] nothing more is ever given, whatever happens next,
    against the spec's "skip that poll and continue". *)
Theorem poll_failure_ends_monitor s tr s' :
  g_mon s = MonPoll -> reach delay s (LFail :: tr) s' -> g_bus s' = g_bus s /\ g_mon s' = MonCrashed.
Proof.
  intros Hn Hr. inversion Hr as [|? ? s1 ? ? Hst Hr']; subst.
  inversion Hst; subst. destruct (crashed_final _ _ _ Hr') as [H1 H2]; [done|]. by split.
Qed.

(** [run_to] evaluates a run of the monitor on a symbolic state, deciding
    the clock comparisons of [sleep] and of time passing by [lia]. *)
Ltac run_to run_sound :=
  apply run_sound; unfold run; simpl;
  repeat first [ rewrite (proj2 (Z.ltb_lt _ _)) by lia; simpl
               | rewrite (proj2 (Z.leb_le _ _)) by lia; simpl ];
  reflexivity.

(** C23. While [profile_gpu] waits for [run_script] and the monitor has
    not crashed, the monitor gives again: some run of the monitor thread
    (the clock advancing to the end of the sleep, [GPUtil.getGPUs()]
    succeeding) gives one more sample. *)
Theorem monitor_live tr s :
  reach delay g_init tr s -> g_main s = MainWaitRun -> g_mon s ≠ MonCrashed ->
  ∃ tr' s' e, reach delay s tr' s' /\ g_main s' = MainWaitRun /\ g_bus s' = g_bus s ++ [e].
Proof.
  intros Hr Hm Hc. destruct (running_monitor tr s Hr Hm) as (Hs & _ & Hnew & Hex).
  destruct s as [m mon st c b]; simpl in *; subst.
  destruct mon as [| | | |g|w| |]; try congruence.
  - exists [LImport; LCheck; LPoll (VList []); LGive]. do 2 eexists. split; [run_to run_reach|done].
  - exists [LCheck; LPoll (VList []); LGive]. do 2 eexists. split; [run_to run_reach|done].
  - exists [LPoll (VList []); LGive]. do 2 eexists. split; [run_to run_reach|done].
  - exists [LGive]. do 2 eexists. split; [run_to run_reach|done].
  - destruct (Z.leb_spec w c).
    + exists [LWake; LCheck; LPoll (VList []); LGive]. do 2 eexists. split; [run_to run_reach|done].
    + exists [LTick (w - c); LWake; LCheck; LPoll (VList []); LGive]. do 2 eexists. split; [run_to run_reach|done].
Qed.

End Invariants.

(** C24. [profile_gpu] creates its monitor with [delay = 100], and
    [time.sleep] counts seconds: at most one sample per 100 s, so a run
    whose clock reads [t] nanoseconds has at most [t / 10^11 + 1] samples
    (the spec's poller runs every 100 ms). *)
Theorem profile_gpu_sample_bound tr s :
  reach profile_gpu_delay g_init tr s ->
  ((Z.of_nat (length (g_bus s)) - 1) * profile_gpu_delay <= g_clock s)%Z.
Proof.
  intros Hr. assert (0 < profile_gpu_delay)%Z as Hd by reflexivity.
  destruct (space_inv_from_init profile_gpu_delay tr s Hr) as (H0 & H1 & H2 & _).
  destruct (g_bus s) as [|e l] eqn:E; simpl in *; [lia|].
  destruct H1 as [_ H1]. inversion H2 as [|? ? He Hl]; subst.
  destruct (last_from (Some e.1) l) as [tn|] eqn:El;
    [|unfold last_from in El; destruct (last l); discriminate].
  pose proof (spaced_from_span _ _ _ _ H1 El).
  assert (tn <= g_clock s)%Z.
  { eapply last_from_le; [exact El|lia|]. eapply Forall_impl; [exact Hl|]. simpl. lia. }
  lia.
Qed.

(** ** Instances *)

(** [profile_gpu] started; the monitor imported GPUtil and is polling. *)
Definition polling_trace : list Label := [LStart; LImport; LCheck].
Definition polling_state : GState := MkG MainWaitRun MonPoll false 0 [].

Lemma polling_reach : reach profile_gpu_delay g_init polling_trace polling_state.
Proof. by apply run_reach. Qed.

Lemma give_after_stop_witness :
  ∃ s', reach profile_gpu_delay g_init (polling_trace ++ [LStop; LPoll (VList []); LGive]) s' /\
    g_main s' = MainDone /\
    count_gives (after_stop (polling_trace ++ [LStop; LPoll (VList []); LGive])) = 1 /\
    g_bus s' = g_bus polling_state ++ [(g_clock polling_state, gpudata (VList []))].
Proof. apply give_after_stop; [apply polling_reach|reflexivity|reflexivity]. Defined.

(** A run where [stop()] comes while the monitor polls, then the sample
    is given and the monitor sleeps, wakes and exits. *)
Definition stop_trace : list Label :=
  polling_trace ++ [LStop; LPoll (VList []); LGive; LTick profile_gpu_delay; LWake; LCheck].

Lemma at_most_one_give_after_stop_witness : count_gives (after_stop stop_trace) <= 1.
Proof.
  apply (at_most_one_give_after_stop profile_gpu_delay stop_trace
    (MkG MainDone MonExited true profile_gpu_delay [(0%Z, gpudata (VList []))])).
  by apply run_reach.
Defined.

Lemma monitor_spacing_witness :
  spaced_from profile_gpu_delay None (g_bus (MkG MainDone MonExited true profile_gpu_delay [(0%Z, gpudata (VList []))])).
Proof. apply (monitor_spacing _ stop_trace). by apply run_reach. Defined.

Lemma poll_failure_ends_monitor_witness :
  g_bus (MkG MainDone MonCrashed true profile_gpu_delay []) = g_bus polling_state /\
  g_mon (MkG MainDone MonCrashed true profile_gpu_delay []) = MonCrashed.
Proof.
  apply (poll_failure_ends_monitor profile_gpu_delay polling_state [LStop; LTick profile_gpu_delay]);
    [reflexivity|by apply run_reach].
Defined.

Lemma monitor_live_witness :
  ∃ tr' s' e, reach profile_gpu_delay polling_state tr' s' /\ g_main s' = MainWaitRun /\
    g_bus s' = g_bus polling_state ++ [e].
Proof. apply (monitor_live _ polling_trace); [apply polling_reach|reflexivity|discriminate]. Defined.

Lemma profile_gpu_sample_bound_witness :
  ((Z.of_nat (length (g_bus (MkG MainDone MonExited true profile_gpu_delay [(0%Z, gpudata (VList []))]))) - 1)
    * profile_gpu_delay <= g_clock (MkG MainDone MonExited true profile_gpu_delay [(0%Z, gpudata (VList []))]))%Z.
Proof. apply (profile_gpu_sample_bound stop_trace). by apply run_reach. Defined.

End GPUMonitor.
