(* ===== verification/Integration.v ===== *)
(** * [verify] reporting to [dash] (instruments.py, lines 85-86 and 258-279)

    [dash] installs its [update_with] as [ov.send] and subscribes it to
    the bus; [verify] sends its checks with [>> ov.send] and gives
    [initial_loss] on the bus, so every output of [verify] reaches
    [update_with].

    The contract between the two is the class [Sink] with its laws
    [SinkLaws]: a sink takes one-key dictionaries and shows the last value
    sent under each key.  The client theorem [verify_reports_has_field] is
    proved against the class only; [dash_sink] is the instance of [dash],
    whose laws are proved from [update_with], and [dash_shows_has_field]
    puts the two together.  A check whose [<] raised is not caught on
    the way to [ov.send]: [deliver] stops with the exception, which is
    why the client theorems assume numeric losses ([verify_op_no_raise]). *)

From S2P Require Import Prelude Stream Verify Dash.
From stdpp Require Import gmap.
Local Open Scope nat_scope.

Module Integration.

Import Verify Dash.

(** What receives [verify]'s reports: [sink_send] is [ov.send] (and the
    bus subscription of the receiver), [sink_value k] what it shows under
    [k], [sink_inv] its invariant. *)
Class Sink (S : Type) := {
  sink_send : Event -> S -> res S;
  sink_value : string -> S -> option Value;
  sink_inv : S -> Prop
}.

(** For the keys [ok]: sending a one-key dictionary succeeds, keeps the
    invariant, shows its value under its key and leaves the other keys. *)
Class SinkLaws (S : Type) `{Sink S} (ok : string -> Prop) := {
  sink_send_records k v s :
    sink_inv s -> ok k ->
    ∃ s', sink_send [(k, v)] s = Ok s' /\ sink_inv s' /\ sink_value k s' = Some v /\
          ∀ k', k' ≠ k -> sink_value k' s' = sink_value k' s
}.

(** The outputs of [verify] in the order they happen, handed to the sink:
    a check is sent as the dictionary [{name: value}]; a given dictionary
    reaches it through the bus.  A check whose computation raised (a
    [<] that Python refuses) reaches [>> ov.send], which has no
    [on_error]: the exception is raised out of the teardown and nothing
    more is delivered. *)
Fixpoint deliver {St : Type} `{Sink St} (ys : list VOut) (s : St) : res St :=
  match ys with
  | [] => Ok s
  | VSend n (Ok v) :: ys' => s' ← sink_send (sent_dict n v) s; deliver ys' s'
  | VSend _ (Raise e) :: _ => Raise e
  | VGive ev :: ys' => s' ← sink_send ev s; deliver ys' s'
  end.

(** An output that is not an exception. *)
Definition send_ok (y : VOut) : bool :=
  match y with VSend _ (Raise _) => false | _ => true end.

(** The keys [verify] reports under. *)
Definition verify_keys : list string :=
  ["verify.loss_decreases"; "verify.loss_below_threshold"] ++ map (λ f, "verify.has_" +:+ f) verify_fields.

(** The shapes of [verify]'s outputs: checks under its keys, and the one
    give [{initial_loss: v}]. *)
Definition out_good (y : VOut) : bool :=
  match y with
  | VSend n _ => existsb (String.eqb n) verify_keys
  | VGive [(k, _)] => String.eqb k "initial_loss"
  | VGive _ => false
  end.

(** The value last sent under [k] in [ys], if any. *)
Fixpoint latest (k : string) (ys : list VOut) : option Value :=
  match ys with
  | [] => None
  | y :: ys' =>
      match latest k ys' with
      | Some v => Some v
      | None =>
          match y with
          | VSend n (Ok v) | VGive [(n, v)] => if String.eqb n k then Some v else None
          | _ => None
          end
      end
  end.

Lemma verify_op_good l : Forall (λ y, out_good y = true) (run_closed verify_op l).
Proof.
  apply Forall_forall. intros y Hy.
  destruct (out_good y) eqn:E; [done|]. exfalso.
  refine (run_closed_silent (λ y, out_good y = false) verify_op l _ y Hy E).
  unfold verify_op, initial_loss_pipe, loss_decreases_pipe, loss_below_pipe, has_field_pipe.
  repeat apply silent_merge; apply silent_map; intros z; vm_compute; discriminate.
Qed.

(** Only sends name a check: the give is [initial_loss]. *)
Lemma latest_sends k ys :
  k ≠ "initial_loss" -> Forall (λ y, out_good y = true) ys ->
  latest k ys = latest k (filter (is_send k) ys).
Proof.
  intros Hk. induction 1 as [|y ys Hy _ IH]; [done|]. simpl. rewrite filter_cons.
  destruct y as [ev|n [v|e]]; simpl in Hy.
  - rewrite decide_False by (intros []). simpl. rewrite IH.
    destruct (latest k (filter (is_send k) ys)); [done|]. destruct ev as [|[k' v'] [|]]; try done.
    apply String.eqb_eq in Hy. subst. destruct (String.eqb_spec "initial_loss" k); congruence.
  - case_decide as Hn; simpl; rewrite IH; [done|].
    destruct (latest k (filter (is_send k) ys)); [done|]. destruct (String.eqb_spec n k); congruence.
  - case_decide; simpl; rewrite IH; by destruct (latest k (filter (is_send k) ys)).
Qed.

Lemma py_lt_nums a b : is_Some (py_num a) -> is_Some (py_num b) -> ∃ r, py_lt a b = Ok r.
Proof.
  intros [x Hx] [y Hy]. unfold py_lt.
  assert (match a, b with VStr _, VStr _ => False | _, _ => True end) as Hab by (destruct a; discriminate || (destruct b; done)).
  destruct a, b; try done; rewrite Hx, Hy; eauto.
Qed.

(** With numbers as losses, no check of [verify] raises. *)
Lemma verify_op_no_raise l :
  Forall (λ v, is_Some (py_num v)) (loss_values l) -> Forall (λ y, send_ok y = true) (run_closed verify_op l).
Proof.
  rewrite Forall_forall. intros Hl. apply Forall_forall. intros [ev|n [v|e]] Hy; [done|done|exfalso].
  pose proof (proj1 (Forall_forall _ _) (verify_op_good l) _ Hy) as Hg. cbn [out_good] in Hg.
  assert (VSend n (Raise e) ∈ filter (is_send n) (run_closed verify_op l)) as Hf
    by (apply list_elem_of_filter; split; [done|exact Hy]).
  apply existsb_exists in Hg as (k & Hk & Heq). apply String.eqb_eq in Heq as <-.
  unfold verify_keys in Hk. simpl in Hk.
  destruct Hk as [<-|[<-|[<-|[<-|[<-|[]]]]]].
  - rewrite loss_decreases_sends in Hf. destruct (loss_values l) as [|fl rest] eqn:El; [set_solver|].
    destruct (py_lt_nums (default fl (last (fl :: rest))) fl) as [r Hr].
    + destruct (last (fl :: rest)) eqn:E; simpl; apply Hl; [by apply last_Some_elem_of|left].
    + apply Hl; left.
    + rewrite Hr in Hf. set_solver.
  - rewrite loss_below_sends in Hf. destruct (last (loss_values l)) as [ll|] eqn:E; [|set_solver].
    destruct (py_lt_nums ll (VInt 1)) as [r Hr]; [|by eexists|rewrite Hr in Hf; set_solver].
    apply Hl. by apply last_Some_elem_of.
  - rewrite (has_field_sends_op "train_rate") in Hf by (unfold verify_fields; set_solver). set_solver.
  - rewrite (has_field_sends_op "loading_rate") in Hf by (unfold verify_fields; set_solver). set_solver.
  - rewrite (has_field_sends_op "compute_rate") in Hf by (unfold verify_fields; set_solver). set_solver.
Qed.

Section Client.
Context {St : Type} `{Sink St} (ok : string -> Prop) `{!SinkLaws St ok}.
Hypothesis ok_keys : ∀ k, k = "initial_loss" \/ k ∈ verify_keys -> ok k.

Lemma deliver_spec ys s :
  sink_inv s -> Forall (λ y, out_good y = true) ys -> Forall (λ y, send_ok y = true) ys ->
  ∃ s', deliver ys s = Ok s' /\ sink_inv s' /\
    ∀ k, sink_value k s' = match latest k ys with Some v => Some v | None => sink_value k s end.
Proof.
  intros Hinv Hg Hr. revert s Hinv. induction Hg as [|y ys Hy _ IH]; intros s Hinv; [by exists s|].
  apply Forall_cons in Hr as [Hry Hr]. specialize (IH Hr).
  assert (∀ k v, k = "initial_loss" \/ k ∈ verify_keys ->
    ∃ s', deliver ((if String.eqb k "initial_loss" then VGive [(k, v)] else VSend k (Ok v)) :: ys) s = Ok s' /\
      sink_inv s' /\ ∀ k', sink_value k' s' =
        match latest k' ys with Some v' => Some v'
        | None => if String.eqb k k' then Some v else sink_value k' s end) as Hstep.
  { intros k v Hk. destruct (sink_send_records k v s Hinv (ok_keys k Hk)) as (s1 & Hs1 & Hi1 & Hv1 & Ho1).
    destruct (IH s1 Hi1) as (s' & Hd & Hi' & Hv'). exists s'.
    split; [destruct (String.eqb k "initial_loss"); simpl; unfold sent_dict; rewrite Hs1; done|].
    split; [done|].
    intros k'. rewrite Hv'. destruct (latest k' ys); [done|].
    destruct (String.eqb_spec k k'); [by subst|]. by apply Ho1. }
  destruct y as [ev|n [v|e]]; cbn [out_good] in Hy.
  - destruct ev as [|[k v] [|]]; try done. apply String.eqb_eq in Hy. subst k.
    destruct (Hstep "initial_loss" v) as (s' & Hd & Hi & Hv); [by left|].
    exists s'. split_and!; [done|done|]. intros k'. rewrite Hv. cbn [latest].
    destruct (latest k' ys); [done|]. by destruct (String.eqb _ k').
  - assert (n ∈ verify_keys) as Hn.
    { apply existsb_exists in Hy as (k & Hk & Heq). apply String.eqb_eq in Heq as ->.
      by apply list_elem_of_In. }
    destruct (String.eqb_spec n "initial_loss") as [->|Hne]; [vm_compute in Hn; set_solver|].
    destruct (Hstep n v) as (s' & Hd & Hi & Hv); [by right|].
    rewrite (proj2 (String.eqb_neq _ _) Hne) in Hd.
    exists s'. split_and!; [done|done|]. intros k'. rewrite Hv. cbn [latest].
    destruct (latest k' ys); [done|]. by destruct (String.eqb _ k').
  - done.
Qed.

(** C21. Against any sink that keeps its laws for [verify]'s keys, on a
    bus whose losses are numbers (so that no [<] of the loss checks
    raises before [has_<field>] is sent): when the bus is torn down, the
    sink shows [verify.has_<field>] as whether some given dictionary had
    the field. *)
Theorem verify_reports_has_field field l s :
  field ∈ verify_fields -> sink_inv s -> Forall (λ v, is_Some (py_num v)) (loss_values l) ->
  ∃ s', deliver (run_closed verify_op l) s = Ok s' /\
    sink_value ("verify.has_" +:+ field) s' = Some (VBool (existsb (dict_has field) l)).
Proof.
  intros Hf Hinv Hl.
  destruct (deliver_spec (run_closed verify_op l) s Hinv (verify_op_good l) (verify_op_no_raise l Hl)) as (s' & Hd & _ & Hv).
  exists s'. split; [done|]. rewrite Hv, latest_sends by (apply verify_op_good || (unfold verify_fields in Hf; set_solver)).
  rewrite has_field_sends_op by done. simpl. by rewrite String.eqb_refl.
Qed.

End Client.

(** ** [dash] is a sink *)

(** What a row shows: the object of a [Plain]. *)
Definition dash_value (k : string) (s : DashState) : option Value :=
  match rows s !! k with Some (RPlain v _) => Some v | _ => None end.

(** The table is well formed and progress bars only sit under the keys
    ["\[descr]"] that the progress branch makes. *)
Definition dash_inv (s : DashState) : Prop :=
  dash_wf s /\ ∀ k t c, rows s !! k = Some (RBar t c) -> String.prefix "\[" k = true.

#[export] Instance dash_sink : Sink DashState := {
  sink_send := update_with;
  sink_value := dash_value;
  sink_inv := dash_inv
}.

(** The keys a [Plain] row can show. *)
Definition dash_ok (k : string) : Prop := skipped_key k = false /\ String.prefix "\[" k = false.


(** A one-key dictionary that is not skipped is one item of the loop. *)
Lemma update_with_single k v s :
  skipped_key k = false -> update_with [(k, v)] s = Ok (update_item None s (k, v)).
Proof.
  intros Hk. unfold update_with. cbn [dict_get].
  destruct (String.eqb_spec "total" k) as [<-|H1]; [reflexivity|].
  destruct (String.eqb_spec "units" k) as [<-|Hu]; [by vm_compute in Hk|reflexivity].
Qed.

Lemma dash_inv_plain s k v fmt :
  dash_inv s -> (∀ t c, rows s !! k ≠ Some (RBar t c)) ->
  dash_inv (MkDash (<[k := RPlain v fmt]> (rows s))
                   (if decide (is_Some (rows s !! k)) then table s else table s ++ [k])).
Proof.
  intros [Hwf Hbar] Hnb. split.
  - case_decide as Hs; [by apply wf_insert_old|]. apply wf_insert_new; [done|].
    destruct (rows s !! k); [by destruct Hs|done].
  - intros k' t' c'. simpl. destruct (decide (k = k')) as [<-|Hne].
    + by rewrite lookup_insert_eq.
    + rewrite lookup_insert_ne by done. apply Hbar.
Qed.

#[export] Instance dash_sink_laws : SinkLaws DashState dash_ok.
Proof.
  constructor. intros k v s Hinv [Hk Hp]. simpl. rewrite update_with_single by done.
  eexists. split; [reflexivity|]. unfold update_item. rewrite Hk.
  assert (∀ t c, rows s !! k ≠ Some (RBar t c)) as Hnb.
  { intros t c E. apply (proj2 Hinv) in E. congruence. }
  pose proof (λ fmt, dash_inv_plain s k v fmt Hinv Hnb) as Hi.
  destruct (rows s !! k) as [[t c|o fmt]|] eqn:E; [by destruct (Hnb t c)| |].
  - specialize (Hi fmt). simpl in Hi.
    split_and!; [done|unfold dash_value; simpl; by rewrite lookup_insert_eq|].
    intros k' Hne. unfold dash_value. simpl. by rewrite lookup_insert_ne by congruence.
  - specialize (Hi (units_fmt None)). simpl in Hi.
    split_and!; [done|unfold dash_value; simpl; by rewrite lookup_insert_eq|].
    intros k' Hne. unfold dash_value. simpl. by rewrite lookup_insert_ne by congruence.
Qed.

Lemma dash_init_inv : dash_inv dash_init.
Proof. split; [apply dash_init_wf|]. intros k t c. simpl. by rewrite lookup_empty. Qed.

Lemma dash_ok_keys k : k = "initial_loss" \/ k ∈ verify_keys -> dash_ok k.
Proof.
  intros [->|Hk]; [by vm_compute|]. unfold verify_keys in Hk. simpl in Hk.
  repeat (apply elem_of_cons in Hk as [->|Hk]); [..|set_solver]; by vm_compute.
Qed.

(** C22. On a bus whose losses are numbers, at teardown [dash]'s table
    shows, under [verify.has_<field>], a [Plain] row holding whether some
    dictionary on the bus had the field. *)
Theorem dash_shows_has_field field l :
  field ∈ verify_fields -> Forall (λ v, is_Some (py_num v)) (loss_values l) ->
  ∃ s' fmt, deliver (run_closed verify_op l) dash_init = Ok s' /\
    rows s' !! ("verify.has_" +:+ field) = Some (RPlain (VBool (existsb (dict_has field) l)) fmt).
Proof.
  intros Hf Hl.
  destruct (verify_reports_has_field (St:=DashState) dash_ok dash_ok_keys field l dash_init Hf)
    as (s' & Hd & Hv); [exact dash_init_inv|exact Hl|].
  exists s'. simpl in Hv. unfold dash_value in Hv.
  destruct (rows s' !! _) as [[|o fmt]|] eqn:E; try discriminate. injection Hv as ->. by exists fmt.
Qed.

(** ** Instances *)

Definition bus_with_rate : list Event := [[("loss", VNum 2)]; [("train_rate", VInt 3)]; [("loss", VNum 1)]].

Lemma verify_reports_has_field_witness :
  ∃ s', deliver (run_closed verify_op bus_with_rate) dash_init = Ok s' /\
    sink_value ("verify.has_" +:+ "train_rate") s' = Some (VBool (existsb (dict_has "train_rate") bus_with_rate)).
Proof.
  apply (verify_reports_has_field (St:=DashState) dash_ok dash_ok_keys);
    [apply (bool_decide_unpack _); vm_compute; reflexivity|exact dash_init_inv|
     apply (bool_decide_unpack _); vm_compute; reflexivity].
Defined.

Lemma dash_shows_has_field_witness :
  ∃ s' fmt, deliver (run_closed verify_op bus_with_rate) dash_init = Ok s' /\
    rows s' !! ("verify.has_" +:+ "compute_rate") =
      Some (RPlain (VBool (existsb (dict_has "compute_rate") bus_with_rate)) fmt).
Proof. apply dash_shows_has_field; apply (bool_decide_unpack _); vm_compute; reflexivity. Defined.

(** The table after [verify] reported on this bus: [has_train_rate] is
    sent as soon as a [train_rate] is given, the others at teardown. *)
Example bus_with_rate_table :
  (λ s, table s) <$> deliver (run_closed verify_op bus_with_rate) dash_init =
  Ok ["initial_loss"; "verify.has_train_rate"; "verify.loss_decreases";
      "verify.loss_below_threshold"; "verify.has_loading_rate"; "verify.has_compute_rate"].
Proof. vm_compute. reflexivity. Qed.

(** A loss that is a string makes [loss_decreases] raise at teardown:
    the exception leaves [verify], and the checks after it are not sent. *)
Example string_loss_raises :
  deliver (run_closed verify_op [[("loss", VStr "2")]; [("loss", VNum 1)]]) dash_init =
  Raise (TypeError "'<' not supported").
Proof. vm_compute. reflexivity. Qed.

End Integration.
