(* ===== verification/Activation.v ===== *)
(** * Activation: gates, parameters and [ov.require]

    Every instrument of instruments.py is declared with a decorator:
    [@gated("--dash")], [@gated("--train-rate")], [@gated("--loading-rate")],
    [@gated("--compute-rate")], [@gated("--gpu")] and [@gated("--verify")]
    activate their instrument only when the flag is given;
    [@parametrized("--stop", type=int, default=0)] and
    [@parametrized("--profile", type=str, default="")] always construct
    theirs (spec section 4.3).  Activation runs the generator up to its
    first [yield]: [profile] tests its option before that yield, so it
    returns at once on [None] and raises on an unknown name; the others
    yield first.

    [verify], resumed at [parse_args], calls [ov.require] on [dash],
    [train_rate], [loading_rate] and [compute_rate] (lines 253-256): each
    is activated unless it is already, and waits at its first yield.
    [advance_req] is the lifecycle's [advance] with these calls made by
    the instruments it resumes, in the order it resumes them.  The
    theorems show that an active [verify] gets each of the four resumed at
    every phase it yields on, exactly once, whether its flag was given or
    not; that nothing else that is gated off is ever resumed; and that the
    default [--profile] aborts the activation. *)

From S2P Require Import Prelude Phases Profile.
Local Open Scope nat_scope.

Module Activation.

Import Phases Profile.

(** The options the decorators declare. *)
Record Config := MkConfig {
  opt_dash : bool;              (** [--dash] *)
  opt_train_rate : bool;        (** [--train-rate] *)
  opt_loading_rate : bool;      (** [--loading-rate] *)
  opt_compute_rate : bool;      (** [--compute-rate] *)
  opt_gpu : bool;               (** [--gpu] *)
  opt_verify : bool;            (** [--verify] *)
  opt_stop : Z;                 (** [--stop], default [0] *)
  opt_profile : option string   (** [--profile], default [""] *)
}.

(** No flag given: every option at its default. *)
Definition default_config : Config :=
  MkConfig false false false false false false 0%Z profile_default.

(** [@gated] instruments are activated by their flag, [@parametrized]
    ones always. *)
Definition activated (c : Config) (i : Instrument) : bool :=
  match i with
  | IDash => opt_dash c
  | IStop => true
  | ITrainRate => opt_train_rate c
  | ILoadingRate => opt_loading_rate c
  | IComputeRate => opt_compute_rate c
  | IProfileGPU => opt_gpu c
  | IVerify => opt_verify c
  | IProfile => true
  end.

(** Running a generator to its first yield: the yields it will make.
    [profile] runs its dispatch first (lines 340-349): on [None] it
    returns without yielding, on an unknown name it raises. *)
Definition first_run (c : Config) (i : Instrument) : res (list (Phase * Z)) :=
  match i with
  | IProfile =>
      (λ p : option Profiler, match p with None => [] | Some _ => instrument_yields i end)
        <$> profile_dispatch (opt_profile c)
  | _ => Ok (instrument_yields i)
  end.

(** Activation of the instruments [insts], in the order they are loaded:
    each activated one is run to its first yield; an exception stops the
    activation before any phase. *)
Definition start (c : Config) (insts : list Instrument) : res LState :=
  (λ w, MkL None w []) <$>
    mapM (λ i, (λ ys, (i, ys)) <$> first_run c i) (filter (λ i, activated c i = true) insts).

(** The [ov.require] calls an instrument makes when it is resumed at a
    phase: [verify] at [parse_args] (lines 253-256). *)
Definition requires (i : Instrument) (p : Phase) : list Instrument :=
  match i, p with
  | IVerify, ParseArgs => [IDash; ITrainRate; ILoadingRate; IComputeRate]
  | _, _ => []
  end.

Abbreviation Waiting := (list (Instrument * list (Phase * Z))).

(** [ov.require(inst)]: activate [inst], unless it is active already; it
    then waits at its first yield.  The required instruments are gated
    and yield before any test, so their yields are [instrument_yields]. *)
Definition require_one (w : Waiting) (i : Instrument) : Waiting :=
  if decide (i ∈ w.*1) then w else w ++ [(i, instrument_yields i)].

(** [advance()] where each resumed instrument makes its [ov.require]
    calls, in resumption order. *)
Definition advance_req (s : LState) : LState + LifecycleError :=
  match next_phase (l_cur s) with
  | None => inr InvalidTransition
  | Some p =>
      let run := sort_prio (ready p (l_wait s)) in
      inl (MkL (Some p) (foldl require_one (resume p (l_wait s)) (run ≫= λ x, requires x.1 p))
             (l_log s ++ map (λ x, (p, x.1)) run))
  end.

Fixpoint advance_req_n (n : nat) (s : LState) : LState + LifecycleError :=
  match n with
  | 0 => inl s
  | S n' => match advance_req s with inl s' => advance_req_n n' s' | inr e => inr e end
  end.

(** The phases at which instrument [i] was resumed. *)
Definition resumed_at (i : Instrument) (s : LState) : list Phase :=
  fst <$> filter (λ e : Phase * Instrument, e.2 = i) (l_log s).

(** ** Lemmas on activation *)

Lemma mapM_res_Ok {A B} (f : A -> res B) l ys :
  mapM f l = Ok ys -> Forall2 (λ x y, f x = Ok y) l ys.
Proof.
  revert ys. induction l as [|x l IH]; intros ys; simpl.
  - intros [= <-]. constructor.
  - destruct (f x) as [y|e] eqn:E; [|discriminate]. simpl.
    destruct (mapM f l) as [zs|e] eqn:E'; [|discriminate]. intros [= <-].
    constructor; [done|by apply IH].
Qed.

Lemma start_spec c insts s0 :
  start c insts = Ok s0 ->
  l_cur s0 = None /\ l_log s0 = [] /\ (l_wait s0).*1 = filter (λ i, activated c i = true) insts /\
  ∀ i rem, (i, rem) ∈ l_wait s0 -> first_run c i = Ok rem.
Proof.
  unfold start. destruct (mapM _ _) as [w|e] eqn:E; [|discriminate]. intros [= <-].
  apply mapM_res_Ok in E. simpl. split_and!; [done|done| |].
  - induction E as [|x y l w Hxy _ IH]; [done|]. simpl.
    destruct (first_run c x); simplify_eq/=. by f_equal.
  - intros i rem Hin. induction E as [|x y l w Hxy _ IH]; [by apply not_elem_of_nil in Hin|].
    apply elem_of_cons in Hin as [<-|Hin]; [|by apply IH].
    destruct (first_run c x) eqn:E; simpl in Hxy; simplify_eq; done.
Qed.

Lemma require_one_sub w r e : e ∈ w -> e ∈ require_one w r.
Proof. intros He. unfold require_one. case_decide; [done|]. set_solver. Qed.

Lemma foldl_require_sub w rs e : e ∈ w -> e ∈ foldl require_one w rs.
Proof. revert w. induction rs as [|r rs IH]; intros w He; [done|]. by apply IH, require_one_sub. Qed.

Lemma foldl_require_names w rs i : i ∈ w.*1 -> i ∈ (foldl require_one w rs).*1.
Proof.
  intros ([j rem] & -> & Hin)%list_elem_of_fmap.
  apply (list_elem_of_fmap_2 fst _ (j, rem)). by apply foldl_require_sub.
Qed.

Lemma foldl_require_in w rs r : r ∈ rs -> r ∈ (foldl require_one w rs).*1.
Proof.
  revert w. induction rs as [|r' rs IH]; intros w Hr; [by apply not_elem_of_nil in Hr|].
  apply elem_of_cons in Hr as [->|Hr]; [|by apply IH]. simpl. apply foldl_require_names.
  unfold require_one. case_decide; [done|]. rewrite fmap_app. set_solver.
Qed.

(** The names a [require_one] leaves: the old ones and the required one. *)
Lemma require_one_names w r i : i ∈ (require_one w r).*1 -> i ∈ w.*1 \/ i = r.
Proof. unfold require_one. case_decide; [auto|]. rewrite fmap_app. set_solver. Qed.

Lemma foldl_require_names_inv w rs i : i ∈ (foldl require_one w rs).*1 -> i ∈ w.*1 \/ i ∈ rs.
Proof.
  revert w. induction rs as [|r rs IH]; intros w Hi; [by left|]. simpl in Hi.
  destruct (IH _ Hi) as [Hw|Hr]; [|set_solver].
  destruct (require_one_names _ _ _ Hw) as [Hw' | ->]; set_solver.
Qed.

Lemma advance_req_advance s s'' :
  advance_req s = inl s'' ->
  ∃ s' p, advance s = inl s' /\ l_cur s' = Some p /\
    s'' = MkL (Some p) (foldl require_one (l_wait s') (sort_prio (ready p (l_wait s)) ≫= λ x, requires x.1 p))
              (l_log s').
Proof.
  unfold advance_req, advance. destruct (next_phase _) as [p|]; [|discriminate].
  intros [= <-]. by eexists _, p.
Qed.

Lemma advance_req_n_S n s :
  advance_req_n (S n) s = match advance_req s with inl s' => advance_req_n n s' | inr e => inr e end.
Proof. reflexivity. Qed.

Lemma advance_req_done s :
  l_cur s = None -> ∃ s', advance_req_n 6 s = inl s' /\ l_cur s' = Some Done.
Proof. destruct s as [c w log]. simpl. intros ->. eexists. split; reflexivity. Qed.

(** Only [verify] requires, and only at [parse_args]. *)
Lemma requires_verify i p r : r ∈ requires i p -> i = IVerify /\ p = ParseArgs.
Proof. destruct i, p; simpl; intros Hr; first [done | by apply not_elem_of_nil in Hr]. Qed.

Lemma requires_cases i p r :
  r ∈ requires i p -> p = ParseArgs /\ (r = IDash \/ r = ITrainRate \/ r = ILoadingRate \/ r = IComputeRate).
Proof.
  intros Hr. destruct (requires_verify _ _ _ Hr) as [-> ->]. split; [done|]. simpl in Hr.
  repeat (apply elem_of_cons in Hr as [->|Hr]; [tauto|]). by apply not_elem_of_nil in Hr.
Qed.

(** A required instrument yields before any test... *)
Lemma requires_first_run c i p r : r ∈ requires i p -> first_run c r = Ok (instrument_yields r).
Proof. intros (_ & Hr)%requires_cases. by repeat destruct Hr as [->|Hr]; [..|subst]. Qed.

(** ... and only after the phase it is required at. *)
Lemma requires_after i p r : r ∈ requires i p -> Forall (cur_lt (Some p)) (fst <$> instrument_yields r).
Proof. intros (-> & Hr)%requires_cases. repeat destruct Hr as [->|Hr]; [..|subst]; repeat constructor. Qed.

(** The instruments resumed at a phase are active. *)
Lemma run_names p w x : x ∈ sort_prio (ready p w) -> x.1 ∈ w.*1.
Proof. rewrite sort_prio_perm. apply ready_names. Qed.

Lemma advance_wait s s' : advance s = inl s' -> ∃ p, l_wait s' = resume p (l_wait s).
Proof. unfold advance. destruct (next_phase _) as [p|]; [|discriminate]. intros [= <-]. by exists p. Qed.

Lemma names_advance_req s s' i : advance_req s = inl s' -> i ∈ (l_wait s).*1 -> i ∈ (l_wait s').*1.
Proof.
  intros (s1 & p & Hadv & _ & ->)%advance_req_advance Hi. apply foldl_require_names.
  destruct (advance_wait _ _ Hadv) as [q ->]. by rewrite resume_names.
Qed.

Lemma names_advance_req_n n s s' i : advance_req_n n s = inl s' -> i ∈ (l_wait s).*1 -> i ∈ (l_wait s').*1.
Proof.
  revert s. induction n as [|n IH]; intros s Hn Hi; simpl in Hn; [by simplify_eq|].
  destruct (advance_req s) as [s1|] eqn:E; [|discriminate]. eapply IH; [done|]. by eapply names_advance_req.
Qed.

(** The active instruments stay within any set closed under [requires]. *)
Lemma names_advance_req_bound (B : list Instrument) s s' :
  (∀ i p r, i ∈ B -> r ∈ requires i p -> r ∈ B) ->
  (l_wait s).*1 ⊆ B -> advance_req s = inl s' -> (l_wait s').*1 ⊆ B.
Proof.
  intros HB Hs (s1 & p & Hadv & _ & ->)%advance_req_advance i Hi. simpl in Hi.
  destruct (foldl_require_names_inv _ _ _ Hi) as [Hi'|Hr].
  - apply Hs. destruct (advance_wait _ _ Hadv) as [q Hq]. by rewrite Hq, resume_names in Hi'.
  - apply list_elem_of_bind in Hr as (x & Hr & Hx). apply (HB x.1 p); [|done].
    apply Hs. by eapply run_names.
Qed.

Lemma names_advance_req_n_bound (B : list Instrument) n s s' :
  (∀ i p r, i ∈ B -> r ∈ requires i p -> r ∈ B) ->
  (l_wait s).*1 ⊆ B -> advance_req_n n s = inl s' -> (l_wait s').*1 ⊆ B.
Proof.
  intros HB. revert s. induction n as [|n IH]; intros s Hs Hn; simpl in Hn; [by simplify_eq|].
  destruct (advance_req s) as [s1|] eqn:E; [|discriminate]. eapply IH; [|done].
  by eapply names_advance_req_bound.
Qed.

(** ** The lifecycle invariant with [ov.require] *)

(** Every resumption in the log is of an active instrument. *)
Definition log_names (s : LState) : Prop := ∀ e, e ∈ l_log s -> e.2 ∈ (l_wait s).*1.

Section Invariant.

(** The yields each active instrument makes in the run; a required
    instrument makes those of its generator. *)
Context (Yf : Instrument -> list (Phase * Z)).
Hypothesis Yf_required : ∀ i p r, r ∈ requires i p -> Yf r = instrument_yields r.

(** Each active instrument has been resumed at the yields it passed, and
    waits at the others (Phases' [inst_inv]). *)
Definition lc_inv (s : LState) : Prop :=
  NoDup (l_wait s).*1 /\ log_names s /\ ∀ i, i ∈ (l_wait s).*1 -> inst_inv i (Yf i) s.

Lemma lc_inv_require c w log r :
  lc_inv (MkL c w log) -> Yf r = instrument_yields r -> Forall (cur_lt c) (fst <$> instrument_yields r) ->
  lc_inv (MkL c (require_one w r) log).
Proof.
  intros (Hnd & Hlog & Hi) HY Hlt. unfold require_one. case_decide as Hr; [done|].
  assert (NoDup (w ++ [(r, instrument_yields r)]).*1) as Hnd'.
  { rewrite fmap_app. apply NoDup_app. split_and!; [done| |apply NoDup_singleton]. set_solver. }
  split_and!; [done| |].
  - intros e He. simpl. rewrite fmap_app, elem_of_app. left. by apply Hlog.
  - intros i. simpl. rewrite fmap_app, elem_of_app. intros [Hiw | Hir%list_elem_of_singleton].
    + destruct (Hi i Hiw) as (_ & pre & rem & HYi & Hin & Hl & Hlt' & Hinc).
      split; [done|]. exists pre, rem. split_and!; try done. simpl. set_solver.
    + subst i. split; [done|]. exists [], (instrument_yields r). simpl. rewrite HY.
      split_and!; [done|simpl; set_solver| |done|apply yields_increasing].
      simpl. rewrite filter_none; [done|]. intros e He <-. apply Hr. by apply Hlog.
Qed.

Lemma lc_inv_requires c w log rs :
  lc_inv (MkL c w log) -> (∀ r, r ∈ rs -> Yf r = instrument_yields r /\ Forall (cur_lt c) (fst <$> instrument_yields r)) ->
  lc_inv (MkL c (foldl require_one w rs) log).
Proof.
  revert w. induction rs as [|r rs IH]; intros w Hinv Hrs; [done|]. simpl.
  apply IH; [|set_solver]. destruct (Hrs r) as [HY Hlt]; [set_solver|]. by apply lc_inv_require.
Qed.

Lemma lc_inv_advance s s' : lc_inv s -> advance s = inl s' -> lc_inv s'.
Proof.
  intros (Hnd & Hlog & Hi) Hadv. pose proof Hadv as Hadv'. unfold advance in Hadv'.
  destruct (next_phase (l_cur s)) as [p|]; [|discriminate]. injection Hadv' as <-.
  unfold lc_inv, log_names. cbn [l_wait l_log]. rewrite resume_names. split_and!; [done| |].
  - intros e. rewrite elem_of_app, <- fmap_as_map. intros [He|He]; [by apply Hlog|].
    apply list_elem_of_fmap in He as (x & -> & Hx). by eapply run_names.
  - intros i Hin. apply (inst_inv_advance i _ s); [by apply Hi|done].
Qed.

Lemma lc_inv_advance_req s s' : lc_inv s -> advance_req s = inl s' -> lc_inv s'.
Proof.
  intros Hinv (s1 & p & Hadv & Hcur & ->)%advance_req_advance.
  pose proof (lc_inv_advance _ _ Hinv Hadv) as Hinv1. destruct s1 as [c1 w1 log1]; simpl in *; subst c1.
  apply lc_inv_requires; [done|]. intros r (x & Hr & _)%list_elem_of_bind.
  split; [by eapply Yf_required|by eapply requires_after].
Qed.

Lemma lc_inv_advance_req_n n s s' : lc_inv s -> advance_req_n n s = inl s' -> lc_inv s'.
Proof.
  revert s. induction n as [|n IH]; intros s Hi Hn; simpl in Hn; [by simplify_eq|].
  destruct (advance_req s) as [s1|] eqn:E; [|discriminate]. eapply IH; [|done].
  by eapply lc_inv_advance_req.
Qed.

End Invariant.

(** The yields an instrument makes when activated under [c]. *)
Definition yields_of (c : Config) (i : Instrument) : list (Phase * Z) :=
  match first_run c i with Ok ys => ys | Raise _ => [] end.

Lemma yields_of_required c i p r : r ∈ requires i p -> yields_of c r = instrument_yields r.
Proof. intros Hr. unfold yields_of. by rewrite (requires_first_run c _ _ _ Hr). Qed.

Lemma first_run_cases c i ys : first_run c i = Ok ys -> ys = [] \/ ys = instrument_yields i.
Proof.
  destruct i; cbn [first_run]; try (intros [= H]; right; by rewrite <- H).
  destruct (profile_dispatch (opt_profile c)) as [[]|]; intros [= H]; [right|left]; by rewrite <- H.
Qed.

Lemma first_run_increasing c i ys : first_run c i = Ok ys -> increasing (fst <$> ys).
Proof. intros [->| ->]%first_run_cases; [done|apply yields_increasing]. Qed.

Lemma start_inv c insts s0 : NoDup insts -> start c insts = Ok s0 -> lc_inv (yields_of c) s0.
Proof.
  intros Hnd Hs. destruct (start_spec _ _ _ Hs) as (Hcur & Hlog & Hnames & Hrun).
  assert (NoDup (l_wait s0).*1) as Hnd' by (rewrite Hnames; by apply NoDup_filter).
  split_and!; [done|intros e; rewrite Hlog; set_solver|].
  intros i ([j rem] & -> & Hin)%list_elem_of_fmap. simpl. pose proof (Hrun _ _ Hin) as Hr.
  split; [done|]. exists [], rem. unfold yields_of. rewrite Hr.
  split_and!; [done|done|by rewrite Hlog| |by eapply first_run_increasing].
  rewrite Hcur. by apply Forall_true.
Qed.

Lemma verify_resumed_requires s s1 r :
  l_cur s = None -> (IVerify, instrument_yields IVerify) ∈ l_wait s -> r ∈ requires IVerify ParseArgs ->
  advance_req s = inl s1 -> r ∈ (l_wait s1).*1.
Proof.
  intros Hcur Hv Hr. unfold advance_req. rewrite Hcur. intros [= <-]. cbn [l_wait].
  apply foldl_require_in, list_elem_of_bind. exists (IVerify, 0%Z). split; [done|].
  rewrite sort_prio_perm. apply list_elem_of_omap. by exists (IVerify, instrument_yields IVerify).
Qed.

Lemma start_waits c insts s0 i :
  start c insts = Ok s0 -> activated c i = true -> i ∈ insts -> first_run c i = Ok (instrument_yields i) ->
  (i, instrument_yields i) ∈ l_wait s0.
Proof.
  intros Hs Ha Hi Hr. destruct (start_spec _ _ _ Hs) as (_ & _ & Hnames & Hrun).
  assert (i ∈ (l_wait s0).*1) as ([j rem] & Hj & Hin)%list_elem_of_fmap.
  { rewrite Hnames. by apply list_elem_of_filter. }
  simpl in Hj. subst j. pose proof (Hrun _ _ Hin) as Hr'. rewrite Hr in Hr'. by injection Hr' as ->.
Qed.

Lemma mapM_res_Raise {A B} (f : A -> res B) l e :
  (∀ x, x ∈ l -> (∃ y, f x = Ok y) \/ f x = Raise e) -> (∃ x, x ∈ l /\ f x = Raise e) ->
  mapM f l = Raise e.
Proof.
  induction l as [|x l IH]; intros Hall (z & Hz & Hfz); [by apply not_elem_of_nil in Hz|]. simpl.
  apply elem_of_cons in Hz as [->|Hz]; [by rewrite Hfz|].
  destruct (Hall x) as [[y ->] | ->]; [set_solver| |done]. simpl.
  rewrite IH; [done|set_solver|by exists z].
Qed.

(** ** Properties *)

(** C8. With [verify] activated, each of [dash], [train_rate],
    [loading_rate] and [compute_rate] is resumed, over the whole
    lifecycle, exactly at the phases of its yields, each once: the
    [ov.require] calls of [verify] at [parse_args] activate those that
    their flag left off, and leave the others as they are. *)
Theorem verify_requires_resumed c insts s0 :
  NoDup insts -> IVerify ∈ insts -> opt_verify c = true -> start c insts = Ok s0 ->
  ∃ s', advance_req_n 6 s0 = inl s' /\ l_cur s' = Some Done /\
    ∀ r, r ∈ [IDash; ITrainRate; ILoadingRate; IComputeRate] ->
      resumed_at r s' = fst <$> instrument_yields r.
Proof.
  intros Hnd Hv Hc Hs. pose proof (start_inv _ _ _ Hnd Hs) as Hinv.
  destruct (start_spec _ _ _ Hs) as (Hcur & _).
  destruct (advance_req_done s0 Hcur) as (s' & Hrun & Hdone). exists s'. split_and!; [done|done|].
  intros r Hr. pose proof Hrun as Hrun1. rewrite advance_req_n_S in Hrun1.
  destruct (advance_req s0) as [s1|] eqn:E1; [|discriminate].
  assert (r ∈ (l_wait s').*1) as Hr'.
  { eapply names_advance_req_n; [exact Hrun1|]. eapply verify_resumed_requires; [done| |done|done].
    by apply (start_waits c insts). }
  destruct (lc_inv_advance_req_n _ (yields_of_required c) 6 s0 s' Hinv Hrun) as (_ & _ & Hi).
  unfold resumed_at. rewrite <- (yields_of_required c IVerify ParseArgs r Hr).
  by apply inst_inv_done; [apply Hi|].
Qed.

(** C32. An instrument that is not activated (its flag is not given, or
    it is not loaded) and that no active [verify] requires is never
    resumed, at any point of the lifecycle: gating short-circuits. *)
Theorem not_activated_never_resumed c insts s0 n s' i :
  NoDup insts -> start c insts = Ok s0 -> advance_req_n n s0 = inl s' ->
  activated c i = false \/ i ∉ insts ->
  opt_verify c = false \/ IVerify ∉ insts \/ i ∉ requires IVerify ParseArgs ->
  resumed_at i s' = [].
Proof.
  intros Hnd Hs Hn Hoff Hreq.
  set (B := filter (λ j, activated c j = true) insts ++
            if bool_decide (opt_verify c = true /\ IVerify ∈ insts) then requires IVerify ParseArgs else []).
  destruct (start_spec _ _ _ Hs) as (_ & _ & Hnames & _).
  assert ((l_wait s').*1 ⊆ B) as HB.
  { eapply names_advance_req_n_bound; [|rewrite Hnames; set_solver|exact Hn].
    intros j p r Hj Hr. destruct (requires_verify _ _ _ Hr) as [-> ->]. unfold B in *.
    apply elem_of_app in Hj as [Hj|Hj].
    - apply list_elem_of_filter in Hj as [Ha Hj]. rewrite bool_decide_true by done. set_solver.
    - case_bool_decide; [|by apply not_elem_of_nil in Hj].
      destruct (requires_cases _ _ _ Hj) as [_ Hv]. naive_solver. }
  destruct (lc_inv_advance_req_n _ (yields_of_required c) n s0 s' (start_inv _ _ _ Hnd Hs) Hn) as (_ & Hlog & _).
  unfold resumed_at. rewrite filter_none; [done|]. intros e He <-. pose proof (HB _ (Hlog e He)) as Hb.
  unfold B in Hb.
  apply elem_of_app in Hb as [Hb|Hb].
  - apply list_elem_of_filter in Hb as [Ha Hb]. destruct Hoff; [congruence|done].
  - case_bool_decide as Hvi; [|by apply not_elem_of_nil in Hb]. destruct Hvi as [Hv Hvi].
    destruct Hreq as [?|[?|?]]; [congruence|done|done].
Qed.

(** C33. Without [--profile] its option is [""]: activation raises
    NotImplementedError("Unknown profiler: ") before any phase is
    entered, whatever the other options and the order of loading, since
    the parametrized [profile] is always constructed. *)
Theorem default_profile_aborts c insts :
  opt_profile c = profile_default -> IProfile ∈ insts ->
  start c insts = Raise (NotImplementedError "Unknown profiler: ").
Proof.
  intros Hp Hi. unfold start. rewrite (mapM_res_Raise _ _ (NotImplementedError "Unknown profiler: ")); [done| |].
  - intros x _. destruct x; cbn [first_run]; rewrite ?Hp; first [by left; eexists | by right].
  - exists IProfile. split; [by apply list_elem_of_filter|]. cbn [first_run]. by rewrite Hp.
Qed.

(** ** Concrete runs *)

(** [--verify] alone, with [--profile] unset ([None]). *)
Definition verify_only : Config := MkConfig false false false false false true 0%Z None.

(** [verify] requires the four instruments; [profile] returns at its
    activation and [profile_gpu], gated off, never runs. *)
Example verify_only_log :
  match start verify_only all_instruments with
  | Ok s0 => match advance_req_n 6 s0 with inl s => Some (l_log s) | inr _ => None end
  | Raise _ => None
  end =
  Some [(ParseArgs, IVerify); (Init, IDash); (LoadScript, IStop); (LoadScript, ITrainRate);
        (LoadScript, ILoadingRate); (LoadScript, IComputeRate); (Finalize, IDash); (Finalize, IVerify)].
Proof. reflexivity. Qed.

Lemma verify_requires_resumed_witness :
  ∃ s0 s', start verify_only all_instruments = Ok s0 /\ advance_req_n 6 s0 = inl s' /\ l_cur s' = Some Done /\
    ∀ r, r ∈ [IDash; ITrainRate; ILoadingRate; IComputeRate] ->
      resumed_at r s' = fst <$> instrument_yields r.
Proof.
  set (s0 := match start verify_only all_instruments with Ok s => s | Raise _ => l_init [] end).
  assert (start verify_only all_instruments = Ok s0) as Hs by reflexivity.
  destruct (verify_requires_resumed verify_only all_instruments s0) as (s' & Hs'); [| |reflexivity|exact Hs|].
  - apply (bool_decide_unpack _). vm_compute. reflexivity.
  - apply (bool_decide_unpack _). vm_compute. reflexivity.
  - exists s0, s'. split; [exact Hs|exact Hs'].
Defined.

Lemma not_activated_never_resumed_witness :
  ∃ s0 s', start verify_only all_instruments = Ok s0 /\ advance_req_n 6 s0 = inl s' /\
    resumed_at IProfileGPU s' = [].
Proof.
  set (s0 := match start verify_only all_instruments with Ok s => s | Raise _ => l_init [] end).
  set (s' := match advance_req_n 6 s0 with inl s => s | inr _ => s0 end).
  assert (start verify_only all_instruments = Ok s0) as Hs by reflexivity.
  assert (advance_req_n 6 s0 = inl s') as Hn by reflexivity.
  exists s0, s'. split; [exact Hs|]. split; [exact Hn|].
  apply (not_activated_never_resumed verify_only all_instruments s0 6 s' IProfileGPU).
  - apply (bool_decide_unpack _). vm_compute. reflexivity.
  - exact Hs.
  - exact Hn.
  - left. reflexivity.
  - right. right. apply (bool_decide_unpack _). vm_compute. reflexivity.
Defined.

Lemma default_profile_aborts_witness :
  start default_config all_instruments = Raise (NotImplementedError "Unknown profiler: ").
Proof.
  apply default_profile_aborts; [reflexivity|]. apply (bool_decide_unpack _). vm_compute. reflexivity.
Defined.

End Activation.
