(* ===== verification/DashBus.v ===== *)
(** * The [dash] instrument's subscriptions on the bus (instruments.py, lines 52-56 and 85)

    At [init] [dash] makes two subscriptions on [ov.given], in this
    order: [out_err = gv["?#stdout"].roll(10) | gv["?#stderr"].roll(10)],
    whose subscriber gives [stdout="".join(txt)] back on the bus, and
    [gv.where("!silent").subscribe(update_with)].  A given dictionary is
    delivered to them in subscription order ([dash_deliver]); the echo
    that [out_err] gives is delivered to the same subscriptions within that
    delivery, so [dash_give] is recursive, with fuel.  The theorems show
    that two levels always suffice (the echo's only key, [stdout], feeds
    no roll), what the [stdout] row shows after any sequence of captured
    lines, and that a [silent] dictionary can change that row only. *)

From S2P Require Import Prelude Stream Dash Integration.
From stdpp Require Import gmap.
Local Open Scope nat_scope.

Module DashBus.

Import Dash Integration.

(** [roll(10)]. *)
Definition out_err_window : nat := 10.

(** ["".join(txt)]: TypeError on an item that is not a [str]. *)
Fixpoint py_join (txt : list Value) : res string :=
  match txt with
  | [] => Ok ""
  | VStr s :: r => (λ t, s +:+ t) <$> py_join r
  | _ :: _ => Raise (TypeError "sequence item: expected str instance")
  end.

(** [ov.give(stdout="".join(txt))]. *)
Definition echo_dict (txt : string) : Event := [("stdout", VStr txt)].

(** The state of [dash]'s subscriptions: the windows of the two
    [roll(10)] and the table. *)
Record DashBus := MkDB {
  out_win : list Value;    (** [gv["?#stdout"].roll(10)] *)
  err_win : list Value;    (** [gv["?#stderr"].roll(10)] *)
  db_dash : DashState      (** [rows] and [table] *)
}.

Definition db_init : DashBus := MkDB [] [] dash_init.

(** [gv.where("!silent").subscribe(update_with)]. *)
Definition where_not_silent (e : Event) (d : DashState) : res DashState :=
  if dict_has "silent" e then Ok d else update_with e d.

(** A delivery: its result, [None] when it did not finish. *)
Abbreviation Delivery := (option (res DashBus)).

Definition then_give (m : Delivery) (k : DashBus -> Delivery) : Delivery :=
  match m with
  | Some (Ok st) => k st
  | Some (Raise x) => Some (Raise x)
  | None => None
  end.

(** One side of [out_err]: when the dictionary has key [k], push its value
    on the window and give the joined window back on the bus ([give]). *)
Definition roll_side (give : Event -> DashBus -> Delivery) (k : string) (e : Event)
    (win : DashBus -> list Value) (set : list Value -> DashBus -> DashBus) (st : DashBus) : Delivery :=
  match dict_get k e with
  | None => Some (Ok st)
  | Some v =>
      let w := lastn out_err_window (win st ++ [v]) in
      match py_join w with
      | Ok txt => give (echo_dict txt) (set w st)
      | Raise x => Some (Raise x)
      end
  end.

(** The delivery of [e] to the dash's subscriptions, in subscription
    order: the [#stdout] side of [out_err], its [#stderr] side, then
    [where("!silent")]; [give] delivers the echoes. *)
Definition dash_deliver (give : Event -> DashBus -> Delivery) (e : Event) (st : DashBus) : Delivery :=
  then_give (roll_side give "#stdout" e out_win (λ w st, MkDB w (err_win st) (db_dash st)) st) (λ st1,
  then_give (roll_side give "#stderr" e err_win (λ w st, MkDB (out_win st) w (db_dash st)) st1) (λ st2,
  Some ((λ d, MkDB (out_win st2) (err_win st2) d) <$> where_not_silent e (db_dash st2)))).

(** [ov.give(...)] as the dash's subscriptions see it, nested [fuel]
    levels deep. *)
Fixpoint dash_give (fuel : nat) : Event -> DashBus -> Delivery :=
  match fuel with
  | 0 => λ _ _, None
  | S f => dash_deliver (dash_give f)
  end.

(** A bus of given dictionaries, each delivered with two levels: the
    dictionary and the echo it causes. *)
Fixpoint dash_run (l : list Event) (st : DashBus) : Delivery :=
  match l with
  | [] => Some (Ok st)
  | e :: l' => then_give (dash_give 2 e st) (dash_run l')
  end.

(** ** The echo is delivered in one level *)

(** The echo has no [#stdout] or [#stderr] key: its delivery reaches
    [where("!silent")] only. *)
Lemma echo_deliver give txt st :
  dash_deliver give (echo_dict txt) st =
    Some ((λ d, MkDB (out_win st) (err_win st) d) <$> where_not_silent (echo_dict txt) (db_dash st)).
Proof. destruct st. reflexivity. Qed.

(** Two ways of giving that agree on the echoes. *)
Definition echo_equiv (g1 g2 : Event -> DashBus -> Delivery) : Prop :=
  ∀ txt st, g1 (echo_dict txt) st = g2 (echo_dict txt) st.

#[export] Instance echo_equiv_equivalence : Equivalence echo_equiv.
Proof.
  split.
  - by intros g txt st.
  - intros g1 g2 H txt st. by rewrite H.
  - intros g1 g2 g3 H1 H2 txt st. by rewrite H1, H2.
Qed.

Lemma then_give_ext m k1 k2 : (∀ st, k1 st = k2 st) -> then_give m k1 = then_give m k2.
Proof. intros H. destruct m as [[]|]; simpl; auto. Qed.

Lemma roll_side_ext g1 g2 k e win set st :
  echo_equiv g1 g2 -> roll_side g1 k e win set st = roll_side g2 k e win set st.
Proof. intros Hg. unfold roll_side. destruct (dict_get k e); [|done]. destruct (py_join _); [apply Hg|done]. Qed.

(** A delivery depends on the way of giving only through the echoes. *)
#[export] Instance dash_deliver_proper : Proper (echo_equiv ==> eq ==> eq ==> eq) dash_deliver.
Proof.
  intros g1 g2 Hg e ? <- st ? <-. unfold dash_deliver. rewrite (roll_side_ext g1 g2) by done.
  apply then_give_ext. intros st1. by rewrite (roll_side_ext g1 g2).
Qed.

Lemma dash_give_echo f : echo_equiv (dash_give (S f)) (dash_give 1).
Proof. intros txt st. cbn [dash_give]. by rewrite !echo_deliver. Qed.

Lemma then_give_some m k : is_Some m -> (∀ st, is_Some (k st)) -> is_Some (then_give m k).
Proof. intros [[] ->] Hk; simpl; eauto. Qed.

Lemma roll_side_some g k e win set st :
  (∀ txt st, is_Some (g (echo_dict txt) st)) -> is_Some (roll_side g k e win set st).
Proof. intros Hg. unfold roll_side. destruct (dict_get k e); [|eauto]. destruct (py_join _); eauto. Qed.

(** ** The [stdout] row after captured lines *)

(** A line the capture gives, on [#stdout] or on [#stderr]. *)
Inductive Line := OutLine (s : string) | ErrLine (s : string).

Definition line_dict (l : Line) : Event :=
  match l with OutLine s => [("#stdout", VStr s)] | ErrLine s => [("#stderr", VStr s)] end.

Definition outs (ls : list Line) : list string := omap (λ l, match l with OutLine s => Some s | _ => None end) ls.
Definition errs (ls : list Line) : list string := omap (λ l, match l with ErrLine s => Some s | _ => None end) ls.

(** ["".join] of strings. *)
Definition join_strs (zs : list string) : string := foldr String.append "" zs.

(** What the [stdout] row should show: the last ten lines of the stream
    that wrote last, joined. *)
Definition shown_after (ls : list Line) : option string :=
  match last ls with
  | Some (OutLine _) => Some (join_strs (lastn out_err_window (outs ls)))
  | Some (ErrLine _) => Some (join_strs (lastn out_err_window (errs ls)))
  | None => None
  end.

(** The table with at most the [stdout] row. *)
Definition show_stdout (o : option string) : DashState :=
  match o with
  | None => dash_init
  | Some t => MkDash {[ "stdout" := RPlain (VStr t) "{}" ]} ["stdout"]
  end.

Definition state_after (ls : list Line) : DashBus :=
  MkDB (VStr <$> lastn out_err_window (outs ls)) (VStr <$> lastn out_err_window (errs ls)) (show_stdout (shown_after ls)).

Lemma py_join_strs zs : py_join (VStr <$> zs) = Ok (join_strs zs).
Proof. induction zs as [|z zs IH]; [done|]. cbn [fmap list_fmap py_join]. by rewrite IH. Qed.

Lemma update_with_echo o t : update_with (echo_dict t) (show_stdout o) = Ok (show_stdout (Some t)).
Proof.
  unfold echo_dict. rewrite update_with_single by reflexivity. destruct o as [t'|]; [|reflexivity].
  unfold update_item, show_stdout. cbn [rows table]. rewrite lookup_singleton_eq. simpl.
  by rewrite insert_singleton_eq.
Qed.

Lemma where_line_dict l d : where_not_silent (line_dict l) d = Ok d.
Proof. by destruct l. Qed.

Lemma window_snoc (zs : list string) z :
  lastn out_err_window ((VStr <$> lastn out_err_window zs) ++ [VStr z]) = VStr <$> lastn out_err_window (zs ++ [z]).
Proof. rewrite !fmap_lastn, fmap_app. apply lastn_snoc. Qed.

Lemma outs_snoc ls l : outs (ls ++ [l]) = outs ls ++ match l with OutLine s => [s] | _ => [] end.
Proof. unfold outs. rewrite omap_app. by destruct l. Qed.

Lemma errs_snoc ls l : errs (ls ++ [l]) = errs ls ++ match l with ErrLine s => [s] | _ => [] end.
Proof. unfold errs. rewrite omap_app. by destruct l. Qed.

Lemma where_echo o t : where_not_silent (echo_dict t) (show_stdout o) = Ok (show_stdout (Some t)).
Proof. apply update_with_echo. Qed.

(** One captured line: its window grows, the echo shows the window. *)
Lemma give_line ls l : dash_give 2 (line_dict l) (state_after ls) = Some (Ok (state_after (ls ++ [l]))).
Proof.
  unfold state_after. rewrite outs_snoc, errs_snoc. unfold shown_after at 2. rewrite last_snoc.
  cbn [dash_give]. unfold dash_deliver, roll_side.
  destruct l as [x|x]; simpl dict_get; cbn [then_give out_win err_win db_dash];
    rewrite ?app_nil_r, window_snoc, py_join_strs, ?outs_snoc, ?errs_snoc, ?app_nil_r;
    cbn [then_give db_dash out_win err_win]; rewrite where_echo; cbn [fmap res_fmap];
    [rewrite (where_line_dict (OutLine x))|rewrite (where_line_dict (ErrLine x))]; reflexivity.
Qed.

Lemma dash_run_app l1 l2 st : dash_run (l1 ++ l2) st = then_give (dash_run l1 st) (dash_run l2).
Proof.
  revert st. induction l1 as [|e l1 IH]; intros st; [done|]. cbn [app dash_run].
  destruct (dash_give 2 e st) as [[]|]; cbn [then_give]; auto.
Qed.

Lemma dash_run_lines ls : dash_run (line_dict <$> ls) db_init = Some (Ok (state_after ls)).
Proof.
  induction ls as [|l ls IH] using rev_ind; [done|].
  rewrite fmap_app, dash_run_app, IH. cbn [then_give fmap list_fmap dash_run].
  rewrite give_line. done.
Qed.

(** A delivery changes the table through the echo, which only touches
    the [stdout] row, and through [update_with]. *)
Lemma where_echo_any t d : where_not_silent (echo_dict t) d = Ok (update_item None d ("stdout", VStr t)).
Proof. apply update_with_single. reflexivity. Qed.

Lemma echo_rows t st st' k :
  dash_give 1 (echo_dict t) st = Some (Ok st') -> k ≠ "stdout" -> rows (db_dash st') !! k = rows (db_dash st) !! k.
Proof.
  cbn [dash_give]. rewrite echo_deliver, where_echo_any. intros [= <-] Hk. cbn [db_dash].
  exact (update_item_other None (db_dash st) "stdout" (VStr t) k (λ H, Hk (eq_sym H))).
Qed.

Lemma roll_side_rows k0 e win set st st' k :
  roll_side (dash_give 1) k0 e win set st = Some (Ok st') ->
  (∀ w st, db_dash (set w st) = db_dash st) -> k ≠ "stdout" ->
  rows (db_dash st') !! k = rows (db_dash st) !! k.
Proof.
  unfold roll_side. destruct (dict_get k0 e); [|by intros [= <-]].
  destruct (py_join _) as [t|]; [|done]. intros H Hset Hk. by rewrite (echo_rows _ _ _ _ H Hk), Hset.
Qed.

(** ** Properties *)

(** C12. The echo never feeds itself: the dictionary [out_err] gives has
    the key [stdout], which neither roll reads, so every delivery to the
    dash's subscriptions finishes within two levels, and more levels
    change nothing. *)
Theorem dash_give_terminates e st :
  is_Some (dash_give 2 e st) /\ ∀ f, dash_give (2 + f) e st = dash_give 2 e st.
Proof.
  split.
  - change (dash_give 2 e st) with (dash_deliver (dash_give 1) e st). unfold dash_deliver.
    assert (∀ txt st, is_Some (dash_give 1 (echo_dict txt) st)) as Hecho.
    { intros txt st'. cbn [dash_give]. rewrite echo_deliver. eauto. }
    apply then_give_some; [by apply roll_side_some|]. intros st1.
    apply then_give_some; [by apply roll_side_some|eauto].
  - intros f. change (dash_deliver (dash_give (S f)) e st = dash_deliver (dash_give 1) e st).
    by rewrite (dash_give_echo f).
Qed.

(** C9. The lines that the capture gives come back as the [stdout]
    row: after any sequence of lines on [#stdout] and [#stderr], the
    table has that one row, showing the last ten lines of the stream
    that wrote last, joined; the other stream's lines are not shown. *)
Theorem dash_stdout_row ls :
  ∃ st, dash_run (line_dict <$> ls) db_init = Some (Ok st) /\
    dash_value "stdout" (db_dash st) = VStr <$> shown_after ls /\
    ∀ k, k ≠ "stdout" -> rows (db_dash st) !! k = None.
Proof.
  exists (state_after ls). split; [apply dash_run_lines|]. unfold state_after, dash_value. cbn [db_dash].
  destruct (shown_after ls) as [t|]; cbn [show_stdout rows dash_init].
  - rewrite lookup_singleton_eq. split; [done|]. intros k Hk. by rewrite lookup_singleton_ne.
  - rewrite lookup_empty. split; [done|]. intros k _. apply lookup_empty.
Qed.

(** C34. A [silent] dictionary never reaches [update_with]; through the
    echo of its [#stdout] or [#stderr] lines it can change the [stdout]
    row, and no other. *)
Theorem dash_silent_only_stdout e st st' k :
  dict_has "silent" e = true -> dash_give 2 e st = Some (Ok st') -> k ≠ "stdout" ->
  rows (db_dash st') !! k = rows (db_dash st) !! k.
Proof.
  intros Hs. change (dash_give 2 e st) with (dash_deliver (dash_give 1) e st). unfold dash_deliver.
  destruct (roll_side _ "#stdout" _ _ _ st) as [[st1|]|] eqn:E1; cbn [then_give]; [|done|done].
  destruct (roll_side _ "#stderr" _ _ _ st1) as [[st2|]|] eqn:E2; cbn [then_give]; [|done|done].
  unfold where_not_silent. rewrite Hs. cbn [fmap res_fmap]. intros [= <-] Hk. cbn [db_dash].
  by rewrite (roll_side_rows _ _ _ _ _ _ _ E2 (λ _ _, eq_refl) Hk), (roll_side_rows _ _ _ _ _ _ _ E1 (λ _ _, eq_refl) Hk).
Qed.

(** ** Concrete runs *)

(** A silent dictionary with a captured line: the line is echoed, its
    own keys are not shown. *)
Definition silent_line : Event := [("silent", VBool true); ("#stdout", VStr "epoch 1"); ("loss", VInt 1)].

(** The echo is delivered first: the [stdout] row comes before the
    dictionary's own keys. *)
Example echo_row_first :
  match dash_give 2 [("#stdout", VStr "epoch 1"); ("loss", VInt 1)] db_init with
  | Some (Ok st) => Some (table (db_dash st))
  | _ => None
  end = Some ["stdout"; "loss"].
Proof. reflexivity. Qed.

Lemma dash_silent_only_stdout_witness :
  ∃ st', dash_give 2 silent_line db_init = Some (Ok st') /\
    rows (db_dash st') !! "loss" = rows (db_dash db_init) !! "loss".
Proof.
  set (st' := match dash_give 2 silent_line db_init with Some (Ok st) => st | _ => db_init end).
  assert (dash_give 2 silent_line db_init = Some (Ok st')) as H by reflexivity.
  exists st'. split; [exact H|]. apply (dash_silent_only_stdout silent_line db_init st' "loss"); [reflexivity|exact H|done].
Defined.

End DashBus.
